(** * Flash-write orchestration of [flasher.py]

    A shallow embedding of the worker object [ESP8266Flasher]
    (methods [begin_flash], [write_flash], [_write_flash], [abort_flash])
    and of the argument bag [Args], then of [erase_flash] and of the
    slots of the window [FlashMainWnd], followed by the properties the
    specification states about them and by further properties of the
    code.

    Python values are modelled as follows.
    - [bytes] objects are lists of [Byte.byte]; [len] is [length], the
      slices [b[0:n]] and [b[n:]] are [firstn n b] and [skipn n b].
    - Byte counts, block indices and the block size are [nat]; flash
      addresses and flash capacities are [Z].
    - The signals of [ESP8266Flasher], the methods called on the loader
      object [esp] and the lines written to standard output are recorded,
      in program order, in one trace.
    - A method either returns, or leaves by an exception that nothing
      caught. *)

From Stdlib Require Import String ZArith Lia Bool Arith PeanoNat List Sorted.
From Stdlib Require Import Init.Byte.
Import ListNotations.
Local Open Scope string_scope.
Local Open Scope list_scope.

Definition bytes := list byte.

(** ** Exceptions *)

Module Py.

(** The exception classes that can travel through the worker. *)
Inductive exn : Type :=
| NameError (name : string)          (* a global name that is not bound *)
| AttributeError (attr : string)     (* attribute missing on an object *)
| ZeroDivisionError
| SerialException                    (* serial.serialutil.SerialException *)
| NotImplementedInROMError           (* raised inside esptool *)
| FatalError (msg : string)          (* esptool.FatalError *)
| OtherError (msg : string).

Definition is_SerialException (e : exn) : bool :=
  match e with SerialException => true | _ => false end.

Definition is_NotImplementedInROMError (e : exn) : bool :=
  match e with NotImplementedInROMError => true | _ => false end.

(** How a piece of code ends.  [OutOfFuel] only arises when a loop is run
    with too small an iteration budget. *)
Inductive outcome (A : Type) : Type :=
| Return (a : A)
| Raise (e : exn)
| OutOfFuel.
Arguments Return {A} a.
Arguments Raise {A} e.
Arguments OutOfFuel {A}.

End Py.
Import Py.

(** The names bound at module level in [flasher.py]: the imports of lines
    4-20, the two constants and the classes and function it defines. *)
Definition module_globals : list string :=
  [ "os"; "sys"; "json"; "time"; "zlib"; "serial"; "hashlib";
    "BytesIO"; "partial"; "comports";
    "QWidget"; "QApplication"; "QMessageBox"; "QMenu";
    "QVariant"; "QUrl"; "QObject"; "QThread"; "pyqtSignal"; "QByteArray";
    "QFile"; "QIODevice"; "QtNetwork"; "Ui_Form";
    "ESP8266ROM"; "read_mac"; "erase_flash"; "ESPLoader"; "print_overwrite";
    "_update_image_flash_params"; "pad_to"; "flash_size_bytes";
    "detect_flash_size"; "DEFAULT_TIMEOUT";
    "FLASH_BAUD"; "FIRMWARE_URL";
    "Args"; "ESP8266Flasher"; "FlashMainWnd"; "main" ].

Definition is_bound (name : string) : bool :=
  existsb (String.eqb name) module_globals.

Definition FLASH_BAUD : Z := 576000.

(** ** Data model *)

(** [class Args]: the bag of options handed to [_write_flash].  [compress]
    is [None], [True] or [False]; [addr_filename] pairs a flash address with
    the [BytesIO] built by [set_body].  Every such object is positioned at
    offset 0 when it is read ([set_body] and the size check both end with
    [seek(0)]), so it is represented by its content. *)
Record Args : Type := mkArgs {
  compress : option bool;
  no_compress : bool;
  no_stub : bool;
  encrypt : bool;
  flash_size : string;
  flash_mode : string;
  flash_freq : string;
  addr_filename : list (Z * bytes)
}.

(** [Args.__init__] *)
Definition Args_init : Args :=
  mkArgs None false false false "detect" "" "" [].

Definition with_compress (c : option bool) (a : Args) : Args :=
  mkArgs c (no_compress a) (no_stub a) (encrypt a)
         (flash_size a) (flash_mode a) (flash_freq a) (addr_filename a).

Definition with_flash_size (s : string) (a : Args) : Args :=
  mkArgs (compress a) (no_compress a) (no_stub a) (encrypt a)
         s (flash_mode a) (flash_freq a) (addr_filename a).

Definition with_flash_mode (s : string) (a : Args) : Args :=
  mkArgs (compress a) (no_compress a) (no_stub a) (encrypt a)
         (flash_size a) s (flash_freq a) (addr_filename a).

Definition with_flash_freq (s : string) (a : Args) : Args :=
  mkArgs (compress a) (no_compress a) (no_stub a) (encrypt a)
         (flash_size a) (flash_mode a) s (addr_filename a).

(** [Args.set_body]: [self.addr_filename.append((addr, fobj))]. *)
Definition set_body (self : Args) (addr : Z) (data : bytes) : Args :=
  mkArgs (compress self) (no_compress self) (no_stub self) (encrypt self)
         (flash_size self) (flash_mode self) (flash_freq self)
         (addr_filename self ++ [(addr, data)]).

(** The [firmware] dictionary received by [begin_flash], with the four keys
    the worker reads. *)
Record Firmware : Type := mkFirmware {
  port : string;
  body : bytes;
  mode : string;
  speed : string
}.

(** The attributes of a loader object that [_write_flash] reads. *)
Record ESPLoader : Type := mkESPLoader {
  FLASH_WRITE_SIZE : nat;
  IS_STUB : bool
}.

(** The signals of [ESP8266Flasher] emitted by the worker. *)
Inductive signal : Type :=
| flash_progress_sig (written total : nat)
| flash_result_sig (code : Z) (desc : string)
| console_sig (s : string).

(** The methods of the loader called by the worker.  The [timeout]
    argument of [flash_defl_block], a floating-point product, is left
    out. *)
Inductive esp_call : Type :=
| detect_chip (port : string) (baud : Z)
| run_stub
| report_flash_size
| flash_set_parameters (size : Z)
| flash_defl_begin (uncsize compsize : nat) (address : Z)
| flash_begin (size : nat) (address : Z)
| flash_defl_block (block : bytes) (seq : nat)
| flash_encrypt_block (block : bytes) (seq : nat)
| flash_block (block : bytes) (seq : nat)
| flash_md5sum (address : Z) (size : nat)
| flash_defl_finish (reboot : bool)
| flash_finish (reboot : bool)
| close_serial.

(** The lines written with [print] and [print_overwrite], with the values
    they format.  Elapsed times and transfer rates are floating point and
    are left out of [Wrote]. *)
Inductive line : Type :=
| AbortFlash
| ConfiguringFlashSize
| ArgsDump (label : string)
| ErasingFlash
| WarningEmpty (name : string)
| WritingAt (addr : Z) (percent : nat)
| Wrote (uncsize written : nat) (address : Z)
| FileMd5 (digest : string)
| FlashMd5 (digest : string)
| Md5OfFF (digest : string)
| HashVerified
| Leaving.

Inductive action : Type :=
| Emit (s : signal)
| Call (c : esp_call)
| Stdout (l : line).

(** The state of the worker: the flag [self._is_abort], what it has done so
    far, and how many times it has pumped its event queue. *)
Record World : Type := mkWorld {
  _is_abort : bool;
  trace : list action;
  pumps : nat
}.

(** ** The collaborators *)

(** What [flasher.py] takes from [hashlib], [zlib] and [esptool] as pure
    functions.  [zlib_compress b] is [zlib.compress(b, 9)]. *)
Class Library : Type := {
  md5_hexdigest : bytes -> string;
  zlib_compress : bytes -> bytes;
  _update_image_flash_params : ESPLoader -> Z -> Args -> bytes -> bytes;
  flash_size_bytes : string -> Z
}.

(** The device at the other end of the serial line and the GUI thread.  A
    loader method, given what the worker has done so far, raises or
    returns; [abort_delivered n] tells whether the [n]-th call of
    [QApplication.processEvents] delivers a queued [abort_flash]. *)
Class Environment : Type := {
  esp_raises : list action -> esp_call -> option exn;
  esp_blocks : list action -> esp_call -> nat;
  esp_md5 : list action -> esp_call -> string;
  esp_flash_size : list action -> option string;
  stub_loader : ESPLoader;
  abort_delivered : nat -> bool
}.

(** ** Effects *)

Definition M (A : Type) : Type := World -> outcome A * World.

Definition ret {A} (a : A) : M A := fun w => (Return a, w).

Definition bind {A B} (m : M A) (k : A -> M B) : M B :=
  fun w =>
    match m w with
    | (Return a, w') => k a w'
    | (Raise e, w') => (Raise e, w')
    | (OutOfFuel, w') => (OutOfFuel, w')
    end.

Definition raise {A} (e : exn) : M A := fun w => (Raise e, w).

Definition out_of_fuel {A} : M A := fun w => (OutOfFuel, w).

(** [try: m  except ...: handler]; the handler receives the exception and
    decides whether its clause matches. *)
Definition try_except {A} (m : M A) (handler : exn -> M A) : M A :=
  fun w =>
    match m w with
    | (Raise e, w') => handler e w'
    | r => r
    end.

Declare Scope flasher_scope.
Delimit Scope flasher_scope with flasher.
Notation "x <- m ;; k" := (bind m (fun x => k))
  (at level 61, m at next level, right associativity) : flasher_scope.
Notation "' pat <- m ;; k" := (bind m (fun x => match x with pat => k end))
  (at level 61, pat pattern, m at next level, right associativity) : flasher_scope.
Notation "m ;; k" := (bind m (fun _ => k))
  (at level 61, right associativity) : flasher_scope.
Local Open Scope flasher_scope.

Definition record (a : action) (w : World) : World :=
  mkWorld (_is_abort w) (trace w ++ [a]) (pumps w).

Definition emit (s : signal) : M unit := fun w => (Return tt, record (Emit s) w).

Definition print (l : line) : M unit := fun w => (Return tt, record (Stdout l) w).

Definition set_is_abort (b : bool) : M unit :=
  fun w => (Return tt, mkWorld b (trace w) (pumps w)).

Definition get_is_abort : M bool := fun w => (Return (_is_abort w), w).

(** Reading a module-level name: [NameError] when nothing binds it. *)
Definition load_global (name : string) : M unit :=
  if is_bound name then ret tt else raise (NameError name).

(** [argfile.name]: the objects in [addr_filename] are [io.BytesIO], which
    has no attribute [name]. *)
Definition BytesIO_name : M string := raise (AttributeError "name").

(** Python's [a // b] on non-negative integers. *)
Definition floordiv (a b : nat) : M nat :=
  if Nat.eqb b 0 then raise ZeroDivisionError else ret (a / b).

Section Worker.

Context {lib : Library} {env : Environment}.

(** A call of a loader method: it is recorded, then it raises or returns
    the value the device gives for it. *)
Definition call_for {A} (value : list action -> esp_call -> A) (c : esp_call) : M A :=
  fun w =>
    match esp_raises (trace w) c with
    | Some e => (Raise e, record (Call c) w)
    | None => (Return (value (trace w) c), record (Call c) w)
    end.

Definition call : esp_call -> M unit := call_for (fun _ _ => tt).

(** [ESP8266Flasher.abort_flash] *)
Definition abort_flash : M unit :=
  print AbortFlash ;;
  set_is_abort true.

(** [QApplication.processEvents()] on the worker thread: the queued slot
    invocations are run; the only one that touches the worker's state is
    [abort_flash]. *)
Definition processEvents : M unit :=
  fun w =>
    let w' := mkWorld (_is_abort w) (trace w) (S (pumps w)) in
    if abort_delivered (pumps w) then abort_flash w' else (Return tt, w').

(** [ESP8266Flasher.show_log] *)
Definition show_log (s : string) : M unit := emit (console_sig s).

(** *** Functions imported from [esptool] *)

(** Modelled from the spec: [pad_to] is imported from [esptool], which is
    not among the sources modelled here.  The length is padded up to
    a multiple of the alignment unit with zero bytes appended at the
    end. *)
Definition pad_to (data : bytes) (alignment : nat) : bytes :=
  let pad_mod := length data mod alignment in
  if Nat.eqb pad_mod 0 then data
  else data ++ repeat x00 (alignment - pad_mod).

(** Modelled from the spec: [detect_flash_size] is imported from
    [esptool].  In mode [detect] the session is asked for the flash size
    it reports, and the job fails when it reports none; any other mode is
    left as it is. *)
Definition detect_flash_size (esp : ESPLoader) (args : Args) : M Args :=
  if String.eqb (flash_size args) "detect" then
    reported <- call_for (fun tr _ => esp_flash_size tr) report_flash_size ;;
    match reported with
    | Some size => ret (with_flash_size size args)
    | None => raise (FatalError "GeometryUnknown")
    end
  else ret args.

(** *** [ESP8266Flasher._write_flash] *)

(** Truth value of [args.compress] in [if args.compress:]. *)
Definition truthy (c : option bool) : bool :=
  match c with Some true => true | _ => false end.

Definition is_None {A} (o : option A) : bool :=
  match o with None => true | Some _ => false end.

(** Lines 98-99. *)
Definition resolve_compress (args : Args) : Args :=
  if is_None (compress args) && negb (no_compress args)
  then with_compress (Some (negb (no_stub args))) args
  else args.

(** Lines 105-111: the loop that checks every file against the end of
    flash.  In [raise FatalError(... % (argfile.name, ...))] the name
    [FatalError] is read first, then the arguments are evaluated. *)
Fixpoint check_sizes (flash_end : Z) (files : list (Z * bytes)) : M unit :=
  match files with
  | [] => ret tt
  | (address, argfile) :: rest =>
      if (address + Z.of_nat (length argfile) >? flash_end)%Z then
        load_global "FatalError" ;;
        name <- BytesIO_name ;;
        raise (FatalError ("File " ++ name ++ " will not fit in flash")%string)
      else check_sizes flash_end rest
  end.

(** How the [while] loop of lines 136-158 is left: its condition became
    false, or the [return] of line 141 was executed. *)
Inductive loop_exit : Type :=
| LoopDone (written : nat)
| LoopReturn.

(** Lines 136-158.  [fuel] bounds the number of iterations; the loop of
    the program has no such bound, and [length image] iterations are
    enough whenever the block size is positive. *)
Fixpoint write_blocks (esp : ESPLoader) (args : Args) (address : Z)
         (blocks : nat) (fuel : nat) (image : bytes) (seq written : nat)
  : M loop_exit :=
  match image with
  | [] => ret (LoopDone written)
  | _ :: _ =>
      match fuel with
      | O => out_of_fuel
      | S fuel' =>
          processEvents ;;
          aborted <- get_is_abort ;;
          if aborted then
            emit (flash_result_sig 1 "已终止") ;;
            call close_serial ;;
            ret LoopReturn
          else
            percent <- floordiv (100 * (seq + 1)) blocks ;;
            print (WritingAt (address + Z.of_nat (seq * FLASH_WRITE_SIZE esp)) percent) ;;
            let block := firstn (FLASH_WRITE_SIZE esp) image in
            block <-
              (if truthy (compress args) then
                 call (flash_defl_block block seq) ;;
                 ret block
               else
                 (* Pad the last block *)
                 let block :=
                   block ++ repeat xff (FLASH_WRITE_SIZE esp - length block) in
                 (if encrypt args
                  then call (flash_encrypt_block block seq)
                  else call (flash_block block seq)) ;;
                 ret block) ;;
            emit (flash_progress_sig (written + length block) (length image)) ;;
            write_blocks esp args address blocks fuel'
                         (skipn (FLASH_WRITE_SIZE esp) image)
                         (seq + 1) (written + length block)
      end
  end.

(** Lines 170-181.  The handler [except NotImplementedInROMError:] reads
    that name when an exception reaches it. *)
Definition verify (address : Z) (uncsize : nat) (calcmd5 : string) : M unit :=
  try_except
    (res <- call_for esp_md5 (flash_md5sum address uncsize) ;;
     if negb (String.eqb res calcmd5) then
       print (FileMd5 calcmd5) ;;
       print (FlashMd5 res) ;;
       print (Md5OfFF (md5_hexdigest (repeat xff uncsize))) ;;
       load_global "FatalError" ;;
       raise (FatalError "MD5 of file does not match data in flash!")
     else
       print HashVerified)
    (fun e =>
       load_global "NotImplementedInROMError" ;;
       if is_NotImplementedInROMError e then ret tt else raise e).

(** The alignment unit of line 117. *)
Definition alignment (args : Args) : nat := if encrypt args then 32 else 4.

(** One iteration of the [for] loop of line 114; [true] when the
    [return] of line 141 ended the method. *)
Definition write_image (esp : ESPLoader) (args : Args) (address : Z)
           (argfile : bytes) : M bool :=
  (if no_stub args then print ErasingFlash else ret tt) ;;
  let image := pad_to argfile (alignment args) in
  if Nat.eqb (length image) 0 then
    name <- BytesIO_name ;;
    print (WarningEmpty name) ;;
    ret false
  else
    let image := _update_image_flash_params esp address args image in
    let calcmd5 := md5_hexdigest image in
    let uncsize := length image in
    '(image, blocks) <-
      (if truthy (compress args) then
         let uncimage := image in
         let image := zlib_compress uncimage in
         (* ratio = uncsize / len(image) *)
         (if Nat.eqb (length image) 0 then raise ZeroDivisionError else ret tt) ;;
         blocks <- call_for esp_blocks
                            (flash_defl_begin uncsize (length image) address) ;;
         ret (image, blocks)
       else
         blocks <- call_for esp_blocks (flash_begin uncsize address) ;;
         ret (image, blocks)) ;;
    exit <- write_blocks esp args address blocks (length image) image 0 0 ;;
    match exit with
    | LoopReturn => ret true
    | LoopDone written =>
        print (Wrote uncsize written address) ;;
        (if negb (encrypt args) then verify address uncsize calcmd5
         else ret tt) ;;
        ret false
    end.

(** The [for] loop of line 114. *)
Fixpoint write_images (esp : ESPLoader) (args : Args)
         (files : list (Z * bytes)) : M bool :=
  match files with
  | [] => ret false
  | (address, argfile) :: rest =>
      returned <- write_image esp args address argfile ;;
      if returned then ret true else write_images esp args rest
  end.

(** Lines 183-192. *)
Definition leave (esp : ESPLoader) (args : Args) : M unit :=
  print Leaving ;;
  if IS_STUB esp then
    call_for esp_blocks (flash_begin 0 0) ;;
    (if truthy (compress args)
     then call (flash_defl_finish false)
     else call (flash_finish false))
  else ret tt.

Definition _write_flash (esp : ESPLoader) (args : Args) : M unit :=
  let args := resolve_compress args in
  print (ArgsDump "before size change:") ;;
  (if negb (String.eqb (flash_size args) "keep") then
     let flash_end := flash_size_bytes (flash_size args) in
     check_sizes flash_end (addr_filename args)
   else ret tt) ;;
  print (ArgsDump "Arguments:[") ;;
  returned <- write_images esp args (addr_filename args) ;;
  if returned then ret tt else leave esp args.

(** *** [ESP8266Flasher.write_flash] *)

(** Lines 78-82. *)
Definition job_args (firmware : Firmware) : Args :=
  let args := Args_init in
  let data := body firmware in
  let args := set_body args 0 data in
  let args := with_flash_mode (mode firmware) args in
  with_flash_freq (speed firmware) args.

(** Lines 85-89; [hasattr(args, "flash_size")] holds of every [Args]. *)
Definition configure_flash_size (esp : ESPLoader) (args : Args) : M Args :=
  print ConfiguringFlashSize ;;
  args <- detect_flash_size esp args ;;
  (if negb (String.eqb (flash_size args) "keep")
   then call (flash_set_parameters (flash_size_bytes (flash_size args)))
   else ret tt) ;;
  ret args.

Definition write_flash (esp : ESPLoader) (firmware : Firmware) : M unit :=
  args <- configure_flash_size esp (job_args firmware) ;;
  print (ArgsDump "Args: ") ;;
  _write_flash esp args.

(** *** [ESP8266Flasher.begin_flash] *)

(** Lines 64-71: [Some esp] when the session was opened, [None] when the
    handler ran and the method returns. *)
Definition connect (port : string) : M (option ESPLoader) :=
  try_except
    (call (detect_chip port FLASH_BAUD) ;;
     call run_stub ;;
     ret (Some stub_loader))
    (fun e =>
       if is_SerialException e then
         show_log "串口读写失败，请检查是否有其他程序占用了指定串口" ;;
         emit (flash_result_sig 1 "串口读写失败") ;;
         ret None
       else raise e).

Definition begin_flash (firmware : Firmware) : M unit :=
  let port := port firmware in
  set_is_abort false ;;
  session <- connect port ;;
  match session with
  | None => ret tt
  | Some esp =>
      write_flash esp firmware ;;
      emit (flash_result_sig 0 "成功") ;;
      call close_serial
  end.

End Worker.

(** ** Running the worker *)

Definition fresh : World := mkWorld false [] 0.

Definition signals (tr : list action) : list signal :=
  flat_map (fun a => match a with Emit s => [s] | _ => [] end) tr.

Definition calls (tr : list action) : list esp_call :=
  flat_map (fun a => match a with Call c => [c] | _ => [] end) tr.

(** The [(written, total)] pairs of the progress signals, in order. *)
Definition progress (tr : list action) : list (nat * nat) :=
  flat_map (fun a => match a with
                     | Emit (flash_progress_sig written total) => [(written, total)]
                     | _ => []
                     end) tr.

(** The [(code, desc)] pairs of the result signals, in order. *)
Definition results (tr : list action) : list (Z * string) :=
  flat_map (fun a => match a with
                     | Emit (flash_result_sig code desc) => [(code, desc)]
                     | _ => []
                     end) tr.

(** *** Stand-ins used to run examples

    The theorems below hold for every [Library] and every [Environment];
    these instances only serve to evaluate the worker on concrete jobs. *)

(** The size strings of [esptool], as a table. *)
Definition table_flash_size_bytes (size : string) : Z :=
  if String.eqb size "256KB" then 262144
  else if String.eqb size "512KB" then 524288
  else if String.eqb size "1MB" then 1048576
  else if String.eqb size "2MB" then 2097152
  else if String.eqb size "4MB" then 4194304
  else 0.

(** A digest that spells the bytes out, a codec that only adds a two-byte
    header, and a patch that leaves the image as it is. *)
Definition demo_library : Library := {|
  md5_hexdigest := fun b => string_of_list_byte b;
  zlib_compress := fun b => x78 :: xda :: b;
  _update_image_flash_params := fun _ _ _ image => image;
  flash_size_bytes := table_flash_size_bytes
|}.

(** A device that never fails, counts blocks by rounding up, reports
    [digest] for every range and a flash of [size]; the user presses the
    abort button so that the [n]-th pump delivers it, for [abort_at = Some n]. *)
Definition demo_device (block_size : nat) (size : string) (digest : string)
           (abort_at : option nat) : Environment := {|
  esp_raises := fun _ _ => None;
  esp_blocks := fun _ c =>
    match c with
    | flash_begin n _ => (n + block_size - 1) / block_size
    | flash_defl_begin _ n _ => (n + block_size - 1) / block_size
    | _ => 0
    end;
  esp_md5 := fun _ _ => digest;
  esp_flash_size := fun _ => Some size;
  stub_loader := mkESPLoader block_size true;
  abort_delivered := fun n =>
    match abort_at with Some k => Nat.eqb n k | None => false end
|}.

(** A loader that has no checksum command: [flash_md5sum] raises
    [NotImplementedInROMError]. *)
Definition rom_device (block_size : nat) (size : string) : Environment := {|
  esp_raises := fun _ c =>
    match c with
    | flash_md5sum _ _ => Some NotImplementedInROMError
    | _ => None
    end;
  esp_blocks := fun _ c =>
    match c with
    | flash_begin n _ => (n + block_size - 1) / block_size
    | flash_defl_begin _ n _ => (n + block_size - 1) / block_size
    | _ => 0
    end;
  esp_md5 := fun _ _ => "";
  esp_flash_size := fun _ => Some size;
  stub_loader := mkESPLoader block_size false;
  abort_delivered := fun _ => false
|}.

(** A port that another program holds: opening it raises
    [SerialException]. *)
Definition busy_port : Environment := {|
  esp_raises := fun _ c =>
    match c with
    | detect_chip _ _ => Some SerialException
    | _ => None
    end;
  esp_blocks := fun _ _ => 0;
  esp_md5 := fun _ _ => "";
  esp_flash_size := fun _ => None;
  stub_loader := mkESPLoader 4 true;
  abort_delivered := fun _ => false
|}.

(** A ten-byte firmware. *)
Definition ten_bytes : Firmware :=
  mkFirmware "COM3" [x01; x02; x03; x04; x05; x06; x07; x08; x09; x0a] "dio" "40m".

(** A firmware one byte longer than a flash of 1 MB. *)
Definition too_long : Firmware :=
  mkFirmware "COM3" (repeat xff (N.to_nat 1048577)) "dio" "40m".

(** Options for a plain transfer: compression forced off, size check off. *)
Definition plain_args (files : list (Z * bytes)) : Args :=
  mkArgs (Some false) false false false "keep" "" "" files.

(** *** The specification's vocabulary *)

(** The tri-state compression option of the specification's [FlashJob]. *)
Inductive compress_mode : Type := ForceOn | ForceOff | Auto.

(** How the fields of [Args] encode it: [compress] set to a boolean forces
    that value, [no_compress] forces compression off, and with neither the
    choice is left to the worker. *)
Definition compress_mode_of (args : Args) : compress_mode :=
  match compress args with
  | Some true => ForceOn
  | Some false => ForceOff
  | None => if no_compress args then ForceOff else Auto
  end.

(** The specification's rule for the effective compression flag: the
    forced value, otherwise whether the stub loader is in use. *)
Definition spec_effective_compression (m : compress_mode) (stub : bool) : bool :=
  match m with
  | ForceOn => true
  | ForceOff => false
  | Auto => stub
  end.

(** [args] with its image list replaced. *)
Definition with_addr_filename (files : list (Z * bytes)) (a : Args) : Args :=
  mkArgs (compress a) (no_compress a) (no_stub a) (encrypt a)
         (flash_size a) (flash_mode a) (flash_freq a) files.

(** *** Vocabulary of the statements *)

(** [only ok w w']: the trace of [w'] is the trace of [w] followed by
    actions that all satisfy [ok]. *)
Definition only (ok : action -> Prop) (w w' : World) : Prop :=
  exists d, trace w' = trace w ++ d /\ Forall ok d.

Definition emits (ok : action -> Prop) {A} (m : M A) : Prop :=
  forall w, only ok w (snd (m w)).

(** [m] ends: it returns or raises within its iteration budget. *)
Definition halts {A} (m : M A) : Prop :=
  forall w, fst (m w) <> OutOfFuel.

(** [m] leaves the flag [_is_abort] as it is. *)
Definition keeps_flag {A} (m : M A) : Prop :=
  forall w, _is_abort (snd (m w)) = _is_abort w.

(** Actions other than progress signals. *)
Definition no_progress (a : action) : Prop :=
  match a with Emit (flash_progress_sig _ _) => False | _ => True end.

(** Actions other than result signals. *)
Definition no_result (a : action) : Prop :=
  match a with Emit (flash_result_sig _ _) => False | _ => True end.

(** The [k]-th slice of [image] in slices of [size] bytes. *)
Definition chunk_at (size : nat) (image : bytes) (k : nat) : bytes :=
  firstn size (skipn (k * size) image).

(** What is required of one action of the loop that started at block
    index [seq0] on [image]: a block write carries the right slice in the
    right form. *)
Definition block_write_ok (esp : ESPLoader) (args : Args) (image : bytes)
           (seq0 : nat) (a : action) : Prop :=
  let size := FLASH_WRITE_SIZE esp in
  match a with
  | Call (flash_defl_block block seq) =>
      truthy (compress args) = true /\ seq0 <= seq /\
      block = chunk_at size image (seq - seq0)
  | Call (flash_block block seq) =>
      truthy (compress args) = false /\ encrypt args = false /\ seq0 <= seq /\
      block = chunk_at size image (seq - seq0)
              ++ repeat xff (size - length (chunk_at size image (seq - seq0))) /\
      length block = size
  | Call (flash_encrypt_block block seq) =>
      truthy (compress args) = false /\ encrypt args = true /\ seq0 <= seq /\
      block = chunk_at size image (seq - seq0)
              ++ repeat xff (size - length (chunk_at size image (seq - seq0))) /\
      length block = size
  | _ => True
  end.

(** The block handed to the loader for the remaining [image]
    (lines 145-150). *)
Definition block_sent (esp : ESPLoader) (args : Args) (image : bytes) : bytes :=
  let block := firstn (FLASH_WRITE_SIZE esp) image in
  if truthy (compress args) then block
  else block ++ repeat xff (FLASH_WRITE_SIZE esp - length block).

(** [n] rounded up to a multiple of [size]. *)
Definition round_up (size n : nat) : nat := size * ((n + size - 1) / size).

(** The number of bytes the write loop counts for a whole [image]: its
    length with compression, its length rounded up to whole blocks
    without. *)
Definition counted (esp : ESPLoader) (args : Args) (image : bytes) : nat :=
  if truthy (compress args) then length image
  else round_up (FLASH_WRITE_SIZE esp) (length image).

Definition abort_tail : list action :=
  [Emit (flash_result_sig 1 "已终止"); Call close_serial].

Definition success_tail : list action :=
  [Emit (flash_result_sig 0 "成功"); Call close_serial].

(** How the flag and the end of the trace stand when the write loop
    returns. *)
Definition exit_facts (w : World) (returned : bool) (w' : World) : Prop :=
  if returned
  then _is_abort w' = true /\ exists pre, trace w' = pre ++ abort_tail
  else _is_abort w' = _is_abort w.

(** Some file does not fit below [flash_end]. *)
Definition oversize (flash_end : Z) (files : list (Z * bytes)) : Prop :=
  exists address argfile,
    In (address, argfile) files /\
    (flash_end < address + Z.of_nat (length argfile))%Z.

(** *** Vocabulary of the further statements *)

(** The loader call that sends the next block of the remaining [image]
    (lines 146-154). *)
Definition block_call (esp : ESPLoader) (args : Args) (image : bytes)
           (seq : nat) : esp_call :=
  if truthy (compress args) then flash_defl_block (block_sent esp args image) seq
  else if encrypt args then flash_encrypt_block (block_sent esp args image) seq
  else flash_block (block_sent esp args image) seq.

(** The payload and sequence number of every block write in a trace, in
    order. *)
Definition block_calls (tr : list action) : list (bytes * nat) :=
  flat_map (fun a => match a with
                     | Call (flash_defl_block block seq) => [(block, seq)]
                     | Call (flash_encrypt_block block seq) => [(block, seq)]
                     | Call (flash_block block seq) => [(block, seq)]
                     | _ => []
                     end) tr.

(** The world after one full iteration of the write loop on [image]. *)
Definition after_block (esp : ESPLoader) (args : Args) (address : Z)
           (image : bytes) (seq written percent : nat) (w : World) : World :=
  mkWorld false
          (trace w
           ++ [Stdout (WritingAt (address + Z.of_nat (seq * FLASH_WRITE_SIZE esp))
                                 percent);
               Call (block_call esp args image seq);
               Emit (flash_progress_sig
                       (written + length (block_sent esp args image))
                       (length image))])
          (S (pumps w)).

(** [m] takes every world to one related to it by [R]. *)
Definition preserves (R : World -> World -> Prop) {A} (m : M A) : Prop :=
  forall w, R w (snd (m w)).

(** The flag is clear and no [abort_flash] is queued for any later pump. *)
Definition calm {env : Environment} (w : World) : Prop :=
  _is_abort w = false /\ forall k, pumps w <= k -> abort_delivered k = false.

Definition stays_calm {env : Environment} (w w' : World) : Prop :=
  calm w -> calm w'.

(** If the flag is clear afterwards, it was clear before and no result
    signal was emitted in between. *)
Definition quiet_unless_cancelled (w w' : World) : Prop :=
  _is_abort w' = false -> _is_abort w = false /\ only no_result w w'.

(** The loader calls that end a transfer: the checksum request of
    line 172 and the two finish commands of lines 190 and 192. *)
Definition closing_call (c : esp_call) : bool :=
  match c with
  | flash_md5sum _ _ | flash_defl_finish _ | flash_finish _ => true
  | _ => false
  end.

Definition no_closing_call (a : action) : Prop :=
  match a with Call c => closing_call c = false | _ => True end.

(** What [leave] adds to the trace when it returns (lines 183-192). *)
Definition leave_trace (esp : ESPLoader) (args : Args) : list action :=
  Stdout Leaving
  :: (if IS_STUB esp then
        [Call (flash_begin 0 0);
         Call (if truthy (compress args)
               then flash_defl_finish false else flash_finish false)]
      else []).

(** A progress signal whose second component is positive; any other
    action. *)
Definition positive_total (a : action) : Prop :=
  match a with Emit (flash_progress_sig _ total) => 0 < total | _ => True end.

(** A chip that does not answer: [detect_chip] raises the [FatalError]
    of [esptool]. *)
Definition silent_chip : Environment := {|
  esp_raises := fun _ c =>
    match c with
    | detect_chip _ _ => Some (FatalError "Failed to connect to Espressif device")
    | _ => None
    end;
  esp_blocks := fun _ _ => 0;
  esp_md5 := fun _ _ => "";
  esp_flash_size := fun _ => None;
  stub_loader := mkESPLoader 4 true;
  abort_delivered := fun _ => false
|}.

(** A device as [demo_device] that reports the digest of [image]. *)
Definition honest_device (block_size : nat) (size : string) (image : bytes)
  : Environment :=
  demo_device block_size size (md5_hexdigest (Library := demo_library) image) None.

(** * The rest of the program

    [ESP8266Flasher.erase_flash] and the window [FlashMainWnd], whose
    slots consume the signals of the worker and send it its requests. *)

(** ** State and exceptions over any state *)

Definition ST (S A : Type) : Type := S -> outcome A * S.

Definition st_ret {S A} (a : A) : ST S A := fun s => (Return a, s).

Definition st_bind {S A B} (m : ST S A) (k : A -> ST S B) : ST S B :=
  fun s =>
    match m s with
    | (Return a, s') => k a s'
    | (Raise e, s') => (Raise e, s')
    | (OutOfFuel, s') => (OutOfFuel, s')
    end.

Definition st_raise {S A} (e : exn) : ST S A := fun s => (Raise e, s).

Definition st_try {S A} (m : ST S A) (handler : exn -> ST S A) : ST S A :=
  fun s =>
    match m s with
    | (Raise e, s') => handler e s'
    | r => r
    end.

Definition st_get {S A} (field : S -> A) : ST S A := fun s => (Return (field s), s).

Definition st_modify {S} (f : S -> S) : ST S unit := fun s => (Return tt, f s).

Declare Scope st_scope.
Notation "x <- m ;; k" := (st_bind m (fun x => k))
  (at level 61, m at next level, right associativity) : st_scope.
Notation "m ;; k" := (st_bind m (fun _ => k))
  (at level 61, right associativity) : st_scope.

(** ** [ESP8266Flasher.erase_flash] *)

(** What the worker does when it erases: the actions it shares with a
    flash job, the two functions of [esptool] that only [erase_flash]
    calls on the session, and the signal it emits at the end. *)
Inductive erase_action : Type :=
| Shared (a : action)
| read_mac                         (* read_mac(self.esp8266, None) *)
| esptool_erase_flash              (* erase_flash(self.esp8266, None) *)
| complete_erase_flash_sig.        (* self.complete_erase_flash_sig.emit() *)

Section Erase.

Local Open Scope st_scope.

(** The device during an erase: given what the worker has done so far, a
    call raises or returns. *)
Variable erase_raises : list erase_action -> erase_action -> option exn.

Definition erase_call (a : erase_action) : ST (list erase_action) unit :=
  fun tr =>
    match erase_raises tr a with
    | Some e => (Raise e, tr ++ [a])
    | None => (Return tt, tr ++ [a])
    end.

Definition erase_emit (a : erase_action) : ST (list erase_action) unit :=
  st_modify (fun tr => tr ++ [a]).

(** Lines 194-206; the [try] block yields whether the method goes on. *)
Definition erase_flash (port : string) : ST (list erase_action) unit :=
  opened <-
    st_try
      (erase_call (Shared (Call (detect_chip port FLASH_BAUD))) ;;
       erase_call read_mac ;;
       erase_call (Shared (Call run_stub)) ;;
       st_ret true)
      (fun e =>
         if is_SerialException e then
           erase_emit
             (Shared (Emit (console_sig
                              "串口读写失败，请检查是否有其他程序占用了指定串口"))) ;;
           erase_emit (Shared (Emit (flash_result_sig 1 "串口读写失败"))) ;;
           st_ret false
         else st_raise e) ;;
  if opened then
    erase_call esptool_erase_flash ;;
    erase_emit (Shared (Emit (console_sig "flash 清除完毕"))) ;;
    erase_emit complete_erase_flash_sig ;;
    erase_call (Shared (Call close_serial))
  else st_ret tt.

End Erase.

(** The three calls of the [try] block, what follows them when they
    succeed, and what the handler emits. *)
Definition erase_opening (port : string) : list erase_action :=
  [Shared (Call (detect_chip port FLASH_BAUD)); read_mac; Shared (Call run_stub)].

Definition erase_body : list erase_action :=
  [esptool_erase_flash;
   Shared (Emit (console_sig "flash 清除完毕"));
   complete_erase_flash_sig;
   Shared (Call close_serial)].

Definition erase_failure : list erase_action :=
  [Shared (Emit (console_sig
                   "串口读写失败，请检查是否有其他程序占用了指定串口"));
   Shared (Emit (flash_result_sig 1 "串口读写失败"))].

(** The signals of the worker that are connected to a slot of the window
    (lines 277-284), as the window receives them. *)
Inductive worker_signal : Type :=
| FromJob (s : signal)
| EraseCompleted                   (* complete_erase_flash_sig *)
| SyncResult (res : Z).            (* sync_result_sig, which nothing emits *)

Definition job_signals (tr : list action) : list worker_signal :=
  map FromJob (signals tr).

Definition erase_signals (tr : list erase_action) : list worker_signal :=
  flat_map (fun a => match a with
                     | Shared (Emit s) => [FromJob s]
                     | complete_erase_flash_sig => [EraseCompleted]
                     | _ => []
                     end) tr.

(** ** [FlashMainWnd] *)

Module Wnd.

(** A value in a firmware dictionary: a string, the [bytes] of a
    downloaded body, or any other JSON value. *)
Inductive value : Type :=
| Str (s : string)
| Raw (b : bytes)
| Json.

(** A [dict] with string keys, in insertion order. *)
Definition dict : Type := list (string * value).

Fixpoint dict_get (key : string) (d : dict) : option value :=
  match d with
  | [] => None
  | (k, v) :: rest => if String.eqb k key then Some v else dict_get key rest
  end.

(** [d[key] = v] *)
Fixpoint dict_set (key : string) (v : value) (d : dict) : dict :=
  match d with
  | [] => [(key, v)]
  | (k, v0) :: rest =>
      if String.eqb k key then (k, v) :: rest
      else (k, v0) :: dict_set key v rest
  end.

(** What is appended to [ui.textOut].  The elapsed seconds that the two
    result messages format are a difference of clock readings and are left
    out. *)
Inductive message : Type :=
| Text (s : string)
| FlashFailed (desc : string)      (* u'烧录失败 %s 耗时 %d 秒' *)
| FlashSucceeded.                  (* u'固件烧录成功, 耗时 %d 秒' *)

(** The value of [ui.progbar]: what the form started with, 100, or the
    floating-point [(float(written) / total) * 100], kept as the pair it
    is computed from. *)
Inductive bar : Type :=
| AsDesigned
| Hundred
| Ratio (written total : nat).

(** The signals the window emits on the worker object. *)
Inductive request : Type :=
| abort_flash_sig
| begin_flash_sig (firmware : dict)
| begin_erase_flash_sig (port : string).

(** The lines the window prints. *)
Inductive printed_line : Type :=
| FlashResultIs (res : Z)
| FlashProgressIs (total written : nat)
| ConnectResultIs (res : Z)
| ErrorDots
| PrintedValue (v : value)
| PrintedObject (d : option dict)
| PrintedType (name : string).

(** The window.  [ui.com_box] is represented by its current text and
    [ui.firm_box] by its items and current index ([None] for -1).  The
    firmware dictionaries that [go_flash] obtains are objects shared
    with the callback of the download: they live in [heap] and are
    referred to by their index.  [downloads] holds the requests whose
    reply has not arrived, with the object their callback holds.
    [sent] and [stdout] record the signals emitted and the lines printed.
    The attribute [elapse], a clock reading, is left out. *)
Record FlashMainWnd : Type := mkFlashMainWnd {
  btn_state : string;
  gobtn : string;
  written : nat;
  textOut : list message;
  progbar : bar;
  erasebtn : bool;
  com_box : string;
  firm_box : list (string * dict);
  firm_index : option nat;
  heap : list dict;
  downloads : list (string * option nat);
  sent : list request;
  stdout : list printed_line
}.

(** Assignment to one attribute or widget. *)
Definition set_btn_state (v : string) (win : FlashMainWnd) : FlashMainWnd :=
  mkFlashMainWnd v (gobtn win) (written win) (textOut win) (progbar win)
                 (erasebtn win) (com_box win) (firm_box win) (firm_index win)
                 (heap win) (downloads win) (sent win) (stdout win).

Definition set_gobtn (v : string) (win : FlashMainWnd) : FlashMainWnd :=
  mkFlashMainWnd (btn_state win) v (written win) (textOut win) (progbar win)
                 (erasebtn win) (com_box win) (firm_box win) (firm_index win)
                 (heap win) (downloads win) (sent win) (stdout win).

Definition set_written (v : nat) (win : FlashMainWnd) : FlashMainWnd :=
  mkFlashMainWnd (btn_state win) (gobtn win) v (textOut win) (progbar win)
                 (erasebtn win) (com_box win) (firm_box win) (firm_index win)
                 (heap win) (downloads win) (sent win) (stdout win).

Definition set_textOut (v : list message) (win : FlashMainWnd) : FlashMainWnd :=
  mkFlashMainWnd (btn_state win) (gobtn win) (written win) v (progbar win)
                 (erasebtn win) (com_box win) (firm_box win) (firm_index win)
                 (heap win) (downloads win) (sent win) (stdout win).

Definition set_progbar (v : bar) (win : FlashMainWnd) : FlashMainWnd :=
  mkFlashMainWnd (btn_state win) (gobtn win) (written win) (textOut win) v
                 (erasebtn win) (com_box win) (firm_box win) (firm_index win)
                 (heap win) (downloads win) (sent win) (stdout win).

Definition set_erasebtn (v : bool) (win : FlashMainWnd) : FlashMainWnd :=
  mkFlashMainWnd (btn_state win) (gobtn win) (written win) (textOut win) (progbar win)
                 v (com_box win) (firm_box win) (firm_index win)
                 (heap win) (downloads win) (sent win) (stdout win).

Definition set_com_box (v : string) (win : FlashMainWnd) : FlashMainWnd :=
  mkFlashMainWnd (btn_state win) (gobtn win) (written win) (textOut win) (progbar win)
                 (erasebtn win) v (firm_box win) (firm_index win)
                 (heap win) (downloads win) (sent win) (stdout win).

Definition set_firm_box (v : list (string * dict)) (win : FlashMainWnd) : FlashMainWnd :=
  mkFlashMainWnd (btn_state win) (gobtn win) (written win) (textOut win) (progbar win)
                 (erasebtn win) (com_box win) v (firm_index win)
                 (heap win) (downloads win) (sent win) (stdout win).

Definition set_firm_index (v : option nat) (win : FlashMainWnd) : FlashMainWnd :=
  mkFlashMainWnd (btn_state win) (gobtn win) (written win) (textOut win) (progbar win)
                 (erasebtn win) (com_box win) (firm_box win) v
                 (heap win) (downloads win) (sent win) (stdout win).

Definition set_heap (v : list dict) (win : FlashMainWnd) : FlashMainWnd :=
  mkFlashMainWnd (btn_state win) (gobtn win) (written win) (textOut win) (progbar win)
                 (erasebtn win) (com_box win) (firm_box win) (firm_index win)
                 v (downloads win) (sent win) (stdout win).

Definition set_downloads (v : list (string * option nat)) (win : FlashMainWnd) : FlashMainWnd :=
  mkFlashMainWnd (btn_state win) (gobtn win) (written win) (textOut win) (progbar win)
                 (erasebtn win) (com_box win) (firm_box win) (firm_index win)
                 (heap win) v (sent win) (stdout win).

Definition set_sent (v : list request) (win : FlashMainWnd) : FlashMainWnd :=
  mkFlashMainWnd (btn_state win) (gobtn win) (written win) (textOut win) (progbar win)
                 (erasebtn win) (com_box win) (firm_box win) (firm_index win)
                 (heap win) (downloads win) v (stdout win).

Definition set_stdout (v : list printed_line) (win : FlashMainWnd) : FlashMainWnd :=
  mkFlashMainWnd (btn_state win) (gobtn win) (written win) (textOut win) (progbar win)
                 (erasebtn win) (com_box win) (firm_box win) (firm_index win)
                 (heap win) (downloads win) (sent win) v.

Section Slots.

Context {lib : Library}.

(** [str.lower] *)
Variable str_lower : string -> string.

Local Open Scope st_scope.

Definition G (A : Type) : Type := ST FlashMainWnd A.

Definition print (l : printed_line) : G unit :=
  st_modify (fun win => set_stdout (stdout win ++ [l]) win).

Definition emit (r : request) : G unit :=
  st_modify (fun win => set_sent (sent win ++ [r]) win).

(** An exception class that the worker never meets is carried by its
    name. *)
Definition TypeError : exn := OtherError "TypeError".
Definition KeyError (key : string) : exn := OtherError ("KeyError: " ++ key).

(** [FlashMainWnd.show_log] *)
Definition show_log (content : message) : G unit :=
  st_modify (fun win => set_textOut (textOut win ++ [content]) win).

(** [FlashMainWnd.change_btn_to_flash] *)
Definition change_btn_to_flash : G unit :=
  st_modify (set_btn_state "FLASH") ;;
  st_modify (set_gobtn "开始") ;;
  st_modify (set_written 0).

(** [FlashMainWnd.change_btn_to_abort] *)
Definition change_btn_to_abort : G unit :=
  st_modify (set_btn_state "ABORT") ;;
  st_modify (set_gobtn "终止").

(** [FlashMainWnd.init_btn] *)
Definition init_btn : G unit := change_btn_to_flash.

(** [FlashMainWnd.action_state] *)
Definition action_state : G string := st_get btn_state.

(** [FlashMainWnd.flash_result] *)
Definition flash_result (res : Z) (desc : string) : G unit :=
  print (FlashResultIs res) ;;
  (if (res =? 1)%Z then show_log (FlashFailed desc) else st_ret tt) ;;
  (if (res =? 0)%Z then
     show_log FlashSucceeded ;;
     st_modify (set_progbar Hundred)
   else st_ret tt) ;;
  change_btn_to_flash.

(** [FlashMainWnd.flash_progress] *)
Definition flash_progress (written total : nat) : G unit :=
  print (FlashProgressIs total written) ;;
  if Nat.eqb total 0 then st_raise ZeroDivisionError
  else st_modify (set_progbar (Ratio written total)).

(** [FlashMainWnd.sync_slot] *)
Definition sync_slot (res : Z) : G unit :=
  print (ConnectResultIs res) ;;
  (if (res =? 0)%Z then show_log (Text "串口同步成功，烧录即将进行")
   else st_ret tt) ;;
  (if (res =? 1)%Z then
     show_log (Text "同步串口失败，请检查所选串口并重试") ;;
     change_btn_to_flash
   else st_ret tt).

(** [FlashMainWnd.go_abort] *)
Definition go_abort : G unit :=
  show_log (Text "准备终止烧录过程") ;;
  emit abort_flash_sig.

(** [self.ui.firm_box.itemData(self.ui.firm_box.currentIndex())]: [None]
    when no item is current, otherwise a new dictionary with the content
    of the item's user data. *)
Definition itemData_current : G (option nat) :=
  fun win =>
    match firm_index win with
    | None => (Return None, win)
    | Some i =>
        match nth_error (firm_box win) i with
        | None => (Return None, win)
        | Some (_, d) =>
            (Return (Some (length (heap win))), set_heap (heap win ++ [d]) win)
        end
    end.

(** The dictionary a reference points to; every reference the window
    holds was handed out by [itemData_current] and [heap] only grows. *)
Definition deref (r : nat) : G dict :=
  fun win =>
    match nth_error (heap win) r with
    | Some d => (Return d, win)
    | None => (Raise (OtherError "dangling reference"), win)
    end.

(** The object that [firmware] is: [None] or a dictionary. *)
Definition object (firmware : option nat) : G (option dict) :=
  match firmware with
  | None => st_ret None
  | Some r => d <- deref r ;; st_ret (Some d)
  end.

(** [firmware[key]] *)
Definition getitem (firmware : option nat) (key : string) : G value :=
  match firmware with
  | None => st_raise TypeError
  | Some r =>
      d <- deref r ;;
      match dict_get key d with
      | Some v => st_ret v
      | None => st_raise (KeyError key)
      end
  end.

Fixpoint update_nth {A} (n : nat) (f : A -> A) (l : list A) : list A :=
  match l, n with
  | [], _ => []
  | x :: rest, O => f x :: rest
  | x :: rest, S n' => x :: update_nth n' f rest
  end.

(** [firmware[key] = v] *)
Definition setitem (firmware : option nat) (key : string) (v : value) : G unit :=
  match firmware with
  | None => st_raise TypeError
  | Some r =>
      deref r ;;
      st_modify (fun win => set_heap (update_nth r (dict_set key v) (heap win)) win)
  end.

(** [FlashMainWnd.download_firmware]; the callback [cb] is
    [partial(self.download_firmware_completed, firmware)] and is
    represented by the [firmware] it holds.  [QUrl] takes a string. *)
Definition download_firmware (firmware : option nat) (cb : option nat) : G unit :=
  f_url <- getitem firmware "download" ;;
  match f_url with
  | Str url =>
      st_modify (fun win => set_downloads (downloads win ++ [(url, cb)]) win)
  | _ => st_raise TypeError
  end.

(** [FlashMainWnd.go_flash] *)
Definition go_flash : G unit :=
  device <- st_get com_box ;;
  if String.eqb device "" then
    show_log (Text "选定一个串口，然后烧录固件")
  else
    firmware <- itemData_current ;;
    download_firmware firmware firmware ;;
    setitem firmware "port" (Str device) ;;
    d <- object firmware ;;
    print (PrintedObject d) ;;
    print (PrintedType (match d with Some _ => "dict" | None => "NoneType" end)).

(** [FlashMainWnd.start_btn_clicked] *)
Definition start_btn_clicked : G unit :=
  state <- action_state ;;
  if String.eqb state "FLASH" then
    change_btn_to_abort ;;
    go_flash
  else
    state <- action_state ;;
    if String.eqb state "ABORT" then
      change_btn_to_flash ;;
      go_abort
    else st_ret tt.

(** [FlashMainWnd.download_firmware_completed], called with the
    object the callback holds, whether the reply carries an error, and
    the data it carries. *)
Definition download_firmware_completed (firmware : option nat)
           (err : bool) (data : bytes) : G unit :=
  if err then print ErrorDots
  else
    checksum <- getitem firmware "checksum" ;;
    print (PrintedValue checksum) ;;
    print (PrintedType "bytes") ;;
    let body := data in
    checksum <- getitem firmware "checksum" ;;
    lowered <- match checksum with
               | Str s => st_ret (str_lower s)
               | _ => st_raise (AttributeError "lower")
               end ;;
    if negb (String.eqb lowered (str_lower (md5_hexdigest body))) then
      show_log (Text "checksum error!")
    else
      print (PrintedType "QByteArray") ;;
      setitem firmware "body" (Raw body) ;;
      show_log (Text "固件下载完毕，准备烧录") ;;
      d <- object firmware ;;
      match d with
      | Some d => emit (begin_flash_sig d)
      | None => st_raise TypeError
      end.

(** [FlashMainWnd.start_erase_clicked] *)
Definition start_erase_clicked : G unit :=
  device <- st_get com_box ;;
  if String.eqb device "" then
    show_log (Text "选定一个串口，才能执行清除")
  else
    emit (begin_erase_flash_sig device) ;;
    st_modify (set_erasebtn false).

(** [FlashMainWnd.completed_erase] *)
Definition completed_erase : G unit := st_modify (set_erasebtn true).

(** [self.ui.firm_box.addItem(title, userData=v)]: the first item added
    to an empty box becomes the current one. *)
Definition firm_box_addItem (title : string) (firm : dict) : G unit :=
  st_modify (fun win =>
               set_firm_index
                 (match firm_index win with
                  | None => Some 0
                  | Some i => Some i
                  end)
                 (set_firm_box (firm_box win ++ [(title, firm)]) win)).

(** [FlashMainWnd.rom_load_completed], called with whether the reply
    carries an error and with the list of objects its JSON text
    decodes to. *)
Fixpoint add_firmwares (rsp_obj : list dict) : G unit :=
  match rsp_obj with
  | [] => st_ret tt
  | firm :: rest =>
      title <- match dict_get "title" firm with
               | Some (Str s) => st_ret s
               | Some _ => st_raise TypeError
               | None => st_raise (KeyError "title")
               end ;;
      firm_box_addItem title firm ;;
      add_firmwares rest
  end.

Definition rom_load_completed (err : bool) (rsp_obj : list dict) : G unit :=
  if err then print ErrorDots else add_firmwares rsp_obj.

(** [FlashMainWnd.init_comports], hence [refresh_port_list], given the
    device names [comports()] lists: the box shows the first of them. *)
Definition init_comports (ports : list string) : G unit :=
  st_modify (set_com_box (hd "" ports)).

(** The slot connected to each signal of the worker (lines 277-284). *)
Definition deliver (s : worker_signal) : G unit :=
  match s with
  | FromJob (flash_progress_sig written total) => flash_progress written total
  | FromJob (flash_result_sig code desc) => flash_result code desc
  | FromJob (console_sig content) => show_log (Text content)
  | EraseCompleted => completed_erase
  | SyncResult res => sync_slot res
  end.

Fixpoint deliver_all (l : list worker_signal) : G unit :=
  match l with
  | [] => st_ret tt
  | s :: rest => deliver s ;; deliver_all rest
  end.

(** What the event loop of the window hands to it: a click on one of
    the two buttons, a choice in one of the two boxes, a refresh of the
    port list, the reply to the catalogue request, the reply to the
    [k]-th pending download, a signal of the worker. *)
Inductive event : Type :=
| StartClicked
| EraseClicked
| PortChosen (device : string)
| PortsRefreshed (ports : list string)
| FirmwareChosen (i : nat)
| CatalogueReply (err : bool) (rsp_obj : list dict)
| DownloadReply (k : nat) (err : bool) (data : bytes)
| Signal (s : worker_signal).

Definition remove_nth {A} (k : nat) (l : list A) : list A :=
  firstn k l ++ skipn (S k) l.

Definition handle (ev : event) : G unit :=
  match ev with
  | StartClicked => start_btn_clicked
  | EraseClicked => start_erase_clicked
  | PortChosen device => st_modify (set_com_box device)
  | PortsRefreshed ports => init_comports ports
  | FirmwareChosen i =>
      st_modify (fun win =>
                   if Nat.ltb i (length (firm_box win))
                   then set_firm_index (Some i) win else win)
  | CatalogueReply err rsp_obj => rom_load_completed err rsp_obj
  | DownloadReply k err data =>
      pending <- st_get downloads ;;
      match nth_error pending k with
      | None => st_ret tt
      | Some (_, cb) =>
          st_modify (fun win => set_downloads (remove_nth k (downloads win)) win) ;;
          download_firmware_completed cb err data
      end
  | Signal s => deliver s
  end.

(** The event loop: an exception that leaves a slot ends it. *)
Fixpoint run (events : list event) : G unit :=
  match events with
  | [] => st_ret tt
  | ev :: rest => handle ev ;; run rest
  end.

End Slots.

(** *** Vocabulary of the statements about the window *)

(** The label of the button says what the next click does. *)
Definition label_matches (win : FlashMainWnd) : Prop :=
  (btn_state win = "FLASH" /\ gobtn win = "开始") \/
  (btn_state win = "ABORT" /\ gobtn win = "终止").

(** A job as the window may send it: it names a port, and its body has
    the digest that its catalogue entry announces, up to letter case. *)
Definition checked_job {lib : Library} (str_lower : string -> string)
           (r : request) : Prop :=
  match r with
  | begin_flash_sig firmware =>
      exists device body checksum,
        dict_get "port" firmware = Some (Str device) /\ device <> "" /\
        dict_get "body" firmware = Some (Raw body) /\
        dict_get "checksum" firmware = Some (Str checksum) /\
        str_lower checksum = str_lower (md5_hexdigest body)
  | _ => True
  end.

(** The dictionary names a port. *)
Definition names_port (d : dict) : Prop :=
  exists device, dict_get "port" d = Some (Str device) /\ device <> "".

(** What a callback holds is [None] or a dictionary that names a port. *)
Definition holds_port (h : list dict) (cb : option nat) : Prop :=
  match cb with
  | Some r => exists d, nth_error h r = Some d /\ names_port d
  | None => True
  end.

(** Every request whose reply is awaited has such a callback. *)
Definition pending_ok (win : FlashMainWnd) : Prop :=
  Forall (fun p => holds_port (heap win) (snd p)) (downloads win).

Definition jobs_ok {lib : Library} (str_lower : string -> string)
           (win : FlashMainWnd) : Prop :=
  Forall (checked_job str_lower) (sent win) /\ pending_ok win.

End Wnd.

(** [m] keeps [P] true of the state, however it ends. *)
Definition keeps {S A} (P : S -> Prop) (m : ST S A) : Prop :=
  forall s, P s -> P (snd (m s)).

(** What a run has appended to a trace. *)
Definition since {A} (before after : list A) : list A :=
  skipn (length before) after.

(** *** Stand-ins used to run examples of the window *)

(** A window as [__init__] leaves it on a machine with one port, before
    the catalogue has arrived. *)
Definition demo_window : Wnd.FlashMainWnd :=
  Wnd.mkFlashMainWnd "FLASH" "开始" 0 [] Wnd.AsDesigned true "COM3" [] None
                     [] [] [] [].

(** A catalogue of one firmware, whose checksum is the digest that
    [demo_library] gives to the one-byte body ["a"]. *)
Definition demo_catalogue : list Wnd.dict :=
  [[("title", Wnd.Str "blink");
    ("download", Wnd.Str "https://light.espush.cn/blink.bin");
    ("checksum", Wnd.Str "a");
    ("mode", Wnd.Str "dio");
    ("speed", Wnd.Str "40m")]].

(** A device that lets the erase through, and a port that another
    program holds. *)
Definition willing_eraser : list erase_action -> erase_action -> option exn :=
  fun _ _ => None.

Definition busy_eraser : list erase_action -> erase_action -> option exn :=
  fun _ a =>
    match a with
    | Shared (Call (detect_chip _ _)) => Some SerialException
    | _ => None
    end.

(** The window once the catalogue has arrived and "开始" was clicked: the
    download of the firmware is awaited. *)
Definition downloading_window : Wnd.FlashMainWnd :=
  snd (Wnd.run (lib := demo_library) (fun s => s)
               [Wnd.CatalogueReply false demo_catalogue; Wnd.StartClicked]
               demo_window).

(** * Properties *)

(** ** Padding *)

Lemma pad_to_aligned (data : bytes) (a : nat) :
  length data mod a = 0 -> pad_to data a = data.
Proof.
  intros H. unfold pad_to. rewrite H. reflexivity.
Qed.

Lemma pad_to_shape (data : bytes) (a : nat) :
  0 < a ->
  exists k, pad_to data a = data ++ repeat x00 k /\ k < a /\
            length (pad_to data a) mod a = 0.
Proof.
  intros Ha. unfold pad_to.
  destruct (Nat.eqb (length data mod a) 0) eqn:E.
  - apply Nat.eqb_eq in E. exists 0. simpl. rewrite app_nil_r. auto.
  - apply Nat.eqb_neq in E.
    exists (a - length data mod a). split; [reflexivity|]. split; [lia|].
    rewrite length_app, repeat_length.
    pose proof (Nat.mod_upper_bound (length data) a ltac:(lia)) as Hlt.
    pose proof (Nat.div_mod_eq (length data) a) as Hdm.
    replace (length data + (a - length data mod a))
      with ((length data / a + 1) * a) by nia.
    apply Nat.Div0.mod_mul.
Qed.



(** ** Compression *)

(** C8. The flag tested by [if args.compress:] after lines 98-99 is the
    forced value when compression is forced on or off, and otherwise tells
    whether the stub loader is in use ([no_stub] is unset); the method
    behaves on [args] as on the resolved [args].  For the [Args] of a job,
    which [begin_flash] always runs on the stub loader, compression is
    on. *)
Theorem compression_resolution `{Library} `{Environment}
        (esp : ESPLoader) (args : Args) (firmware : Firmware) :
  truthy (compress (resolve_compress args))
  = spec_effective_compression (compress_mode_of args) (negb (no_stub args)) /\
  _write_flash esp args = _write_flash esp (resolve_compress args) /\
  (compress_mode_of (job_args firmware) = Auto /\
   truthy (compress (resolve_compress (job_args firmware))) = true).
Proof.
  split; [|split; [|split; reflexivity]].
  - unfold resolve_compress, compress_mode_of.
    destruct args as [[[|]|] [|] [|] e fs fm ff files]; reflexivity.
  - unfold _write_flash.
    replace (resolve_compress (resolve_compress args)) with (resolve_compress args);
      [reflexivity|].
    unfold resolve_compress.
    destruct args as [[[|]|] [|] [|] e fs fm ff files]; reflexivity.
Qed.

(** ** What a computation may add to the trace *)

Lemma only_refl ok w : only ok w w.
Proof. exists []. rewrite app_nil_r. auto. Qed.

Lemma only_trans ok w1 w2 w3 : only ok w1 w2 -> only ok w2 w3 -> only ok w1 w3.
Proof.
  intros (d1 & E1 & F1) (d2 & E2 & F2). exists (d1 ++ d2).
  rewrite E2, E1, app_assoc. split; [reflexivity | apply Forall_app; auto].
Qed.

Lemma only_record (ok : action -> Prop) a w : ok a -> only ok w (record a w).
Proof. intros Ha. exists [a]. simpl. auto. Qed.

Lemma only_weaken (ok ok' : action -> Prop) w w' :
  (forall a, ok a -> ok' a) -> only ok w w' -> only ok' w w'.
Proof.
  intros Himp (d & E & F). exists d. split; [exact E|].
  eapply Forall_impl; eauto.
Qed.

Section Rules.

Context {lib : Library} {env : Environment}.
Variable ok : action -> Prop.

Lemma emits_ret {A} (a : A) : emits ok (ret a).
Proof. intros w. apply only_refl. Qed.

Lemma emits_raise {A} e : emits ok (@raise A e).
Proof. intros w. apply only_refl. Qed.

Lemma emits_out_of_fuel {A} : emits ok (@out_of_fuel A).
Proof. intros w. apply only_refl. Qed.

Lemma emits_bind {A B} (m : M A) (k : A -> M B) :
  emits ok m -> (forall a, emits ok (k a)) -> emits ok (bind m k).
Proof.
  intros Hm Hk w. unfold bind. specialize (Hm w).
  destruct (m w) as [[a|e|] w1]; simpl in *; auto.
  eapply only_trans; [exact Hm | apply Hk].
Qed.

Lemma emits_try_except {A} (m : M A) (h : exn -> M A) :
  emits ok m -> (forall e, emits ok (h e)) -> emits ok (try_except m h).
Proof.
  intros Hm Hh w. unfold try_except. specialize (Hm w).
  destruct (m w) as [[a|e|] w1]; simpl in *; auto.
  eapply only_trans; [exact Hm | apply Hh].
Qed.

Lemma emits_if {A} (b : bool) (m1 m2 : M A) :
  emits ok m1 -> emits ok m2 -> emits ok (if b then m1 else m2).
Proof. destruct b; auto. Qed.

Lemma emits_emit s : ok (Emit s) -> emits ok (emit s).
Proof. intros Hs w. apply only_record, Hs. Qed.

Lemma emits_print l : ok (Stdout l) -> emits ok (print l).
Proof. intros Hl w. apply only_record, Hl. Qed.

Lemma emits_call_for {A} (v : list action -> esp_call -> A) c :
  ok (Call c) -> emits ok (call_for v c).
Proof.
  intros Hc w. unfold call_for.
  destruct (esp_raises (trace w) c); apply only_record, Hc.
Qed.

Lemma emits_call c : ok (Call c) -> emits ok (call c).
Proof. apply emits_call_for. Qed.

Lemma emits_set_is_abort b : emits ok (set_is_abort b).
Proof. intros w. exists []. simpl. rewrite app_nil_r. auto. Qed.

Lemma emits_get_is_abort : emits ok get_is_abort.
Proof. intros w. apply only_refl. Qed.

Lemma emits_load_global name : emits ok (load_global name).
Proof.
  unfold load_global. destruct (is_bound name);
    [apply emits_ret | apply emits_raise].
Qed.

Lemma emits_BytesIO_name : emits ok BytesIO_name.
Proof. apply emits_raise. Qed.

Lemma emits_floordiv a b : emits ok (floordiv a b).
Proof.
  unfold floordiv. destruct (Nat.eqb b 0); [apply emits_raise | apply emits_ret].
Qed.

Lemma emits_processEvents : ok (Stdout AbortFlash) -> emits ok processEvents.
Proof.
  intros Hk w. unfold processEvents.
  destruct (abort_delivered (pumps w)).
  - exists [Stdout AbortFlash]. simpl. auto.
  - exists []. simpl. rewrite app_nil_r. auto.
Qed.

End Rules.

Section FlagRules.

Context {lib : Library} {env : Environment}.

Lemma keeps_flag_ret {A} (a : A) : keeps_flag (ret a).
Proof. intros w. reflexivity. Qed.

Lemma keeps_flag_raise {A} e : keeps_flag (@raise A e).
Proof. intros w. reflexivity. Qed.

Lemma keeps_flag_bind {A B} (m : M A) (k : A -> M B) :
  keeps_flag m -> (forall a, keeps_flag (k a)) -> keeps_flag (bind m k).
Proof.
  intros Hm Hk w. unfold bind. specialize (Hm w).
  destruct (m w) as [[a|e|] w1]; simpl in *; auto.
  rewrite Hk. exact Hm.
Qed.

Lemma keeps_flag_try_except {A} (m : M A) (h : exn -> M A) :
  keeps_flag m -> (forall e, keeps_flag (h e)) -> keeps_flag (try_except m h).
Proof.
  intros Hm Hh w. unfold try_except. specialize (Hm w).
  destruct (m w) as [[a|e|] w1]; simpl in *; auto.
  rewrite Hh. exact Hm.
Qed.

Lemma keeps_flag_if {A} (b : bool) (m1 m2 : M A) :
  keeps_flag m1 -> keeps_flag m2 -> keeps_flag (if b then m1 else m2).
Proof. destruct b; auto. Qed.

Lemma keeps_flag_emit s : keeps_flag (emit s).
Proof. intros w. reflexivity. Qed.

Lemma keeps_flag_print l : keeps_flag (print l).
Proof. intros w. reflexivity. Qed.

Lemma keeps_flag_call_for {A} (v : list action -> esp_call -> A) c :
  keeps_flag (call_for v c).
Proof.
  intros w. unfold call_for. destruct (esp_raises (trace w) c); reflexivity.
Qed.

Lemma keeps_flag_call c : keeps_flag (call c).
Proof. apply keeps_flag_call_for. Qed.

Lemma keeps_flag_load_global name : keeps_flag (load_global name).
Proof.
  unfold load_global. destruct (is_bound name);
    [apply keeps_flag_ret | apply keeps_flag_raise].
Qed.

End FlagRules.

Create HintDb emits discriminated.
#[local] Hint Resolve emits_ret emits_raise emits_out_of_fuel emits_emit emits_print
  emits_call_for emits_call emits_set_is_abort emits_get_is_abort
  emits_load_global emits_BytesIO_name emits_floordiv emits_processEvents : emits.

Create HintDb flag discriminated.
#[local] Hint Resolve keeps_flag_ret keeps_flag_raise keeps_flag_emit keeps_flag_print
  keeps_flag_call_for keeps_flag_call keeps_flag_load_global : flag.

(** Decompose a computation along its sequencing and branching. *)
Ltac emits_step :=
  lazymatch goal with
  | |- emits _ (bind _ _) => apply emits_bind; [| intros ?]
  | |- emits _ (try_except _ _) => apply emits_try_except; [| intros ?]
  | |- emits _ (if ?b then _ else _) => destruct b
  | |- emits _ (match ?x with _ => _ end) => destruct x
  | |- emits _ _ => solve [auto with emits]
  end.

Ltac flag_step :=
  lazymatch goal with
  | |- keeps_flag (bind _ _) => apply keeps_flag_bind; [| intros ?]
  | |- keeps_flag (try_except _ _) => apply keeps_flag_try_except; [| intros ?]
  | |- keeps_flag (if ?b then _ else _) => destruct b
  | |- keeps_flag (match ?x with _ => _ end) => destruct x
  | |- keeps_flag _ => solve [auto with flag]
  end.

(** ** The image list of a job *)

Section Job.

Context {lib : Library} {env : Environment}.

Lemma with_addr_filename_same (a : Args) :
  with_addr_filename (addr_filename a) a = a.
Proof. destruct a; reflexivity. Qed.

Lemma detect_flash_size_files esp args w args' w' :
  detect_flash_size esp args w = (Return args', w') ->
  addr_filename args' = addr_filename args.
Proof.
  unfold detect_flash_size.
  destruct (String.eqb (flash_size args) "detect").
  - unfold bind, call_for.
    destruct (esp_raises (trace w) report_flash_size); [discriminate|].
    destruct (esp_flash_size (trace w)); unfold ret, raise; intros E;
      inversion E; subst; reflexivity.
  - unfold ret. intros E. inversion E; subst; reflexivity.
Qed.

Lemma configure_flash_size_files esp args w args' w' :
  configure_flash_size esp args w = (Return args', w') ->
  addr_filename args' = addr_filename args.
Proof.
  unfold configure_flash_size, bind at 1 2. simpl.
  destruct (detect_flash_size esp args (record (Stdout ConfiguringFlashSize) w))
    as [[a|e|] w1] eqn:E; try discriminate.
  apply detect_flash_size_files in E.
  unfold bind.
  destruct ((if negb (String.eqb (flash_size a) "keep")
             then call (flash_set_parameters (flash_size_bytes (flash_size a)))
             else ret tt) w1) as [[u|e|] w2]; try discriminate.
  unfold ret. intros E'. inversion E'; subst. exact E.
Qed.

(** C10. The image list [write_flash] builds for a job is the single pair
    of address 0 and the firmware body; configuring the flash size leaves
    it so, and [_write_flash] is run on an [Args] with that list. *)
Theorem job_has_one_image_at_zero (esp : ESPLoader) (firmware : Firmware) :
  addr_filename (job_args firmware) = [(0%Z, body firmware)] /\
  (forall w args w',
      configure_flash_size esp (job_args firmware) w = (Return args, w') ->
      addr_filename args = [(0%Z, body firmware)]) /\
  (forall w,
      write_flash esp firmware w
      = (args <- configure_flash_size esp (job_args firmware) ;;
         print (ArgsDump "Args: ") ;;
         _write_flash esp (with_addr_filename [(0%Z, body firmware)] args)) w).
Proof.
  assert (H1 : addr_filename (job_args firmware) = [(0%Z, body firmware)])
    by reflexivity.
  assert (H2 : forall w args w',
             configure_flash_size esp (job_args firmware) w = (Return args, w') ->
             addr_filename args = [(0%Z, body firmware)]).
  { intros w args w' E. apply configure_flash_size_files in E.
    rewrite E. exact H1. }
  split; [exact H1|]. split; [exact H2|].
  intros w. unfold write_flash, bind at 1 3.
  destruct (configure_flash_size esp (job_args firmware) w)
    as [[a|e|] w1] eqn:E; try reflexivity.
  rewrite <- (H2 _ _ _ E), with_addr_filename_same. reflexivity.
Qed.

End Job.

(** ** The blocks sent by the write loop *)

Lemma emits_weaken (ok ok' : action -> Prop) {A} (m : M A) :
  (forall a, ok a -> ok' a) -> emits ok m -> emits ok' m.
Proof. intros Himp Hm w. eapply only_weaken; eauto. Qed.

Lemma chunk_at_0 size image : chunk_at size image 0 = firstn size image.
Proof. reflexivity. Qed.

Lemma chunk_at_skipn size image k :
  chunk_at size (skipn size image) k = chunk_at size image (S k).
Proof.
  unfold chunk_at. rewrite skipn_skipn. f_equal. f_equal. simpl. lia.
Qed.

Lemma padded_length size (chunk : bytes) :
  length chunk <= size -> length (chunk ++ repeat xff (size - length chunk)) = size.
Proof. intros Hle. rewrite length_app, repeat_length. lia. Qed.

Lemma chunk_at_length size image k : length (chunk_at size image k) <= size.
Proof. unfold chunk_at. rewrite length_firstn. lia. Qed.

Lemma block_write_ok_shift esp args image seq0 a :
  block_write_ok esp args (skipn (FLASH_WRITE_SIZE esp) image) (seq0 + 1) a ->
  block_write_ok esp args image seq0 a.
Proof.
  unfold block_write_ok.
  destruct a as [s|c|l]; auto.
  destruct c; auto; rewrite chunk_at_skipn.
  - intros (Hc & Hs & Hb).
    replace (seq - seq0) with (S (seq - (seq0 + 1))) by lia.
    repeat split; auto; lia.
  - intros (Hc & He & Hs & Hb & Hl).
    replace (seq - seq0) with (S (seq - (seq0 + 1))) by lia.
    repeat split; auto; lia.
  - intros (Hc & He & Hs & Hb & Hl).
    replace (seq - seq0) with (S (seq - (seq0 + 1))) by lia.
    repeat split; auto; lia.
Qed.

Section Blocks.

Context {lib : Library} {env : Environment}.


End Blocks.

(** ** One iteration of the write loop *)

Section Iteration.

Context {lib : Library} {env : Environment}.

Lemma run_only (ok : action -> Prop) {A} (m : M A) w o w' :
  emits ok m -> m w = (o, w') -> only ok w w'.
Proof. intros Hm E. specialize (Hm w). rewrite E in Hm. exact Hm. Qed.

Lemma processEvents_run w :
  exists w1, processEvents w = (Return tt, w1) /\ only no_progress w w1 /\
             (_is_abort w1 = false -> _is_abort w = false).
Proof.
  unfold processEvents. destruct (abort_delivered (pumps w)).
  - eexists. split; [reflexivity|]. split.
    + exists [Stdout AbortFlash]. split; [reflexivity | repeat constructor].
    + simpl. discriminate.
  - eexists. split; [reflexivity|]. split.
    + exists []. simpl. rewrite app_nil_r. auto.
    + simpl. auto.
Qed.

Lemma write_blocks_S esp args address blocks fuel b image' seq written :
  let image := b :: image' in
  write_blocks esp args address blocks (S fuel) image seq written
  = (processEvents ;;
     aborted <- get_is_abort ;;
     if aborted then
       emit (flash_result_sig 1 "已终止") ;;
       call close_serial ;;
       ret LoopReturn
     else
       percent <- floordiv (100 * (seq + 1)) blocks ;;
       print (WritingAt (address + Z.of_nat (seq * FLASH_WRITE_SIZE esp)) percent) ;;
       let block := firstn (FLASH_WRITE_SIZE esp) image in
       block <-
         (if truthy (compress args) then
            call (flash_defl_block block seq) ;;
            ret block
          else
            let block :=
              block ++ repeat xff (FLASH_WRITE_SIZE esp - length block) in
            (if encrypt args
             then call (flash_encrypt_block block seq)
             else call (flash_block block seq)) ;;
            ret block) ;;
       emit (flash_progress_sig (written + length block) (length image)) ;;
       write_blocks esp args address blocks fuel
                    (skipn (FLASH_WRITE_SIZE esp) image)
                    (seq + 1) (written + length block)).
Proof. reflexivity. Qed.

(** Sending one block (lines 145-154): the loader raises, or the block
    of [block_sent] has been handed over. *)
Lemma send_block_run esp args image seq w :
  let block := firstn (FLASH_WRITE_SIZE esp) image in
  let send :=
    if truthy (compress args) then
      call (flash_defl_block block seq) ;;
      ret block
    else
      let block :=
        block ++ repeat xff (FLASH_WRITE_SIZE esp - length block) in
      (if encrypt args
       then call (flash_encrypt_block block seq)
       else call (flash_block block seq)) ;;
      ret block in
  exists w', only no_progress w w' /\ _is_abort w' = _is_abort w /\
             ((exists e, send w = (Raise e, w')) \/
              send w = (Return (block_sent esp args image), w')).
Proof.
  intros block send. subst send. unfold block_sent. fold block.
  destruct (truthy (compress args)); [|destruct (encrypt args)];
    unfold bind, call, call_for, ret;
    match goal with
    | |- context [esp_raises ?t ?c] =>
        destruct (esp_raises t c) as [e|]; exists (record (Call c) w)
    end;
    (split; [apply only_record; exact I|]); (split; [reflexivity|]);
    solve [left; exists e; reflexivity | right; reflexivity].
Qed.

(** The three ways one iteration on a non-empty image can go: the flag
    is set and the method returns; an exception leaves the loop; or the
    block is sent, its progress signal is emitted and the loop goes on
    with the rest of the image. *)
Lemma write_blocks_iteration esp args address blocks fuel b image' seq written w :
  let image := b :: image' in
  let run := write_blocks esp args address blocks (S fuel) image seq written w in
  (exists pre, fst run = Return LoopReturn /\ _is_abort (snd run) = true /\
               only no_progress w (snd run) /\
               trace (snd run) = pre ++ abort_tail) \/
  (exists e, fst run = Raise e /\ only no_progress w (snd run)) \/
  (exists w3, only no_progress w w3 /\ _is_abort w3 = false /\
              _is_abort w = false /\
              run = write_blocks esp args address blocks fuel
                      (skipn (FLASH_WRITE_SIZE esp) image) (seq + 1)
                      (written + length (block_sent esp args image))
                      (record (Emit (flash_progress_sig
                                       (written + length (block_sent esp args image))
                                       (length image))) w3)).
Proof.
  intros image run.
  assert (Hrun : run = write_blocks esp args address blocks (S fuel) image seq written w)
    by reflexivity.
  clearbody run. unfold image in Hrun. rewrite write_blocks_S in Hrun. fold image in Hrun.
  destruct (processEvents_run w) as (w1 & E1 & O1 & F1).
  unfold bind at 1 in Hrun. rewrite E1 in Hrun.
  unfold bind at 1 in Hrun. unfold get_is_abort at 1 in Hrun.
  destruct (_is_abort w1) eqn:Hflag.
  - (* the flag is set *)
    unfold bind at 1 in Hrun. unfold emit at 1 in Hrun.
    set (w2 := record (Emit (flash_result_sig 1 "已终止")) w1) in *.
    assert (O2 : only no_progress w w2).
    { eapply only_trans; [exact O1|]. apply only_record. exact I. }
    unfold bind, call, call_for, ret in Hrun.
    destruct (esp_raises (trace w2) close_serial) as [e|]; subst run.
    + right; left. exists e. simpl. split; [reflexivity|].
      eapply only_trans; [exact O2|]. apply only_record. exact I.
    + left. exists (trace w1). simpl. split; [reflexivity|].
      split; [exact Hflag|]. split.
      * eapply only_trans; [exact O2|]. apply only_record. exact I.
      * rewrite <- app_assoc. reflexivity.
  - (* the flag is clear *)
    unfold bind at 1 in Hrun. unfold floordiv in Hrun.
    destruct (Nat.eqb blocks 0).
    { right; left. exists ZeroDivisionError. subst run. simpl. auto. }
    unfold ret at 1 in Hrun. unfold bind at 1 in Hrun. unfold print at 1 in Hrun.
    set (w2 := record (Stdout _) w1) in *.
    assert (O2 : only no_progress w w2).
    { eapply only_trans; [exact O1|]. apply only_record. exact I. }
    destruct (send_block_run esp args image seq w2) as (w3 & O3 & F3 & [(e & E3) | E3]);
      cbv zeta in E3, Hrun; unfold bind at 1 in Hrun; rewrite E3 in Hrun; subst run.
    + right; left. exists e. simpl. split; [reflexivity|].
      eapply only_trans; eauto.
    + right; right. exists w3. split; [eapply only_trans; eauto|].
      split; [rewrite F3; first [exact Hflag | reflexivity]|].
      split; [apply F1; first [exact Hflag | reflexivity]|].
      reflexivity.
Qed.

End Iteration.

(** ** The byte counter of the write loop *)

Lemma round_up_0 size : round_up size 0 = 0.
Proof.
  unfold round_up. destruct (Nat.eq_dec size 0) as [->|Hs]; [reflexivity|].
  rewrite (Nat.div_small (0 + size - 1) size) by lia. lia.
Qed.

Lemma round_up_step_eq size n :
  0 < n -> size + round_up size (n - size) = round_up size n.
Proof.
  intros Hn.
  destruct (Nat.eq_dec size 0) as [->|Hs]; [unfold round_up; simpl; lia|].
  destruct (Nat.le_gt_cases n size) as [Hle|Hgt].
  - replace (n - size) with 0 by lia. rewrite round_up_0. unfold round_up.
    assert (Hq : (n + size - 1) / size = 1).
    { symmetry. apply (Nat.div_unique (n + size - 1) size 1 (n - 1)); lia. }
    rewrite Hq. lia.
  - unfold round_up.
    replace (n + size - 1) with ((n - size + size - 1) + 1 * size) by lia.
    rewrite Nat.div_add by lia. lia.
Qed.

Lemma round_up_step size n :
  0 < n -> size + round_up size (n - size) <= round_up size n.
Proof. intros Hn. rewrite (round_up_step_eq size n Hn). apply Nat.le_refl. Qed.

Lemma progress_app d1 d2 : progress (d1 ++ d2) = progress d1 ++ progress d2.
Proof. unfold progress. apply flat_map_app. Qed.

Lemma no_progress_nil d : Forall no_progress d -> progress d = [].
Proof.
  induction 1 as [|a d Ha _ IH]; [reflexivity|].
  destruct a as [[]| |]; simpl in *; auto; contradiction.
Qed.

Lemma block_sent_length esp args image :
  length (block_sent esp args image)
  = if truthy (compress args)
    then Nat.min (FLASH_WRITE_SIZE esp) (length image)
    else FLASH_WRITE_SIZE esp.
Proof.
  unfold block_sent. destruct (truthy (compress args)).
  - apply length_firstn.
  - rewrite length_app, repeat_length, length_firstn. lia.
Qed.

Section Counter.

Context {lib : Library} {env : Environment}.

(** C4, as amended. The values of [written] reported by the write loop
    never decrease; with compression they never exceed the length of the
    image being transferred, and without compression, where the last
    block is padded to the block size, they never exceed that length
    rounded up to a whole number of blocks. *)
Theorem written_counter_bounds (esp : ESPLoader) (args : Args) (address : Z)
        (blocks fuel : nat) (image : bytes) (seq written : nat) (w : World) :
  exists d,
    trace (snd (write_blocks esp args address blocks fuel image seq written w))
    = trace w ++ d /\
    StronglySorted le (written :: map fst (progress d)) /\
    Forall (fun p => fst p <= written + round_up (FLASH_WRITE_SIZE esp) (length image))
           (progress d) /\
    (truthy (compress args) = true ->
     Forall (fun p => fst p <= written + length image) (progress d)).
Proof.
  assert (Hnil : forall w' : World, only no_progress w w' ->
            exists d, trace w' = trace w ++ d /\
              StronglySorted le (written :: map fst (progress d)) /\
              Forall (fun p => fst p <= written
                                        + round_up (FLASH_WRITE_SIZE esp) (length image))
                     (progress d) /\
              (truthy (compress args) = true ->
               Forall (fun p => fst p <= written + length image) (progress d))).
  { intros w' (d & E & F). exists d. rewrite (no_progress_nil d F).
    repeat split; auto; repeat constructor. }
  revert image seq written w Hnil.
  induction fuel as [|fuel IH]; intros image seq written w Hnil;
    (destruct image as [|b image']; [apply Hnil, only_refl|]).
  - apply Hnil, only_refl.
  - destruct (write_blocks_iteration esp args address blocks fuel b image' seq written w)
      as [(pre & _ & _ & O & _) | [(e & _ & O) | (w3 & O & _ & _ & E)]];
      try (apply Hnil, O).
    clear Hnil. cbv zeta in E. rewrite E. clear E.
    set (image := b :: image') in *.
    set (sent := length (block_sent esp args image)) in *.
    match goal with
    | |- context [write_blocks _ _ _ _ _ _ _ _ ?w4] =>
        destruct (IH (skipn (FLASH_WRITE_SIZE esp) image) (seq + 1) (written + sent) w4)
          as (d' & E' & S' & B' & C')
    end.
    { intros w' (d & E & F). exists d. rewrite (no_progress_nil d F).
      repeat split; auto; repeat constructor. }
    destruct O as (d0 & E0 & F0).
    assert (Hpos : 0 < length image) by (simpl; lia).
    pose proof (round_up_step (FLASH_WRITE_SIZE esp) (length image) Hpos) as Hround.
    pose proof (block_sent_length esp args image) as Hsent. fold sent in Hsent.
    rewrite length_skipn in B', C'.
    assert (Hle : sent <= FLASH_WRITE_SIZE esp)
      by (destruct (truthy (compress args)); lia).
    clearbody sent image.
    exists (d0 ++ [Emit (flash_progress_sig (written + sent) (length image))] ++ d').
    rewrite E'. simpl trace. rewrite E0.
    rewrite !progress_app, (no_progress_nil d0 F0). simpl.
    split; [rewrite <- !app_assoc; reflexivity|].
    split; [|split].
    + apply StronglySorted_inv in S'. destruct S' as [S' L'].
      constructor; [constructor; assumption|].
      constructor; [lia|].
      eapply Forall_impl; [|exact L']. cbn [fst]. intros; lia.
    + constructor; [cbn [fst]; lia|].
      eapply Forall_impl; [|exact B']. cbn [fst]. intros; lia.
    + intros Hc. specialize (C' Hc). rewrite Hc in Hsent.
      constructor; [cbn [fst]; lia|].
      eapply Forall_impl; [|exact C']. cbn [fst]. intros; lia.
Qed.

End Counter.

(** ** Cancellation *)

(** Follow one [bind] of a run that is known to have returned or whose
    outcome is otherwise irrelevant: name the value and world it produced,
    and dispose of the runs that stopped there. *)
Ltac run_bind H a w E :=
  unfold bind at 1 in H;
  lazymatch type of H with
  | (let (_, _) := ?m ?w0 in _) = _ =>
      destruct (m w0) as [[a|?e|] w] eqn:E;
      [ | try solve [inversion H; subst; exact I] | try solve [inversion H; subst; exact I] ]
  end.

Section Cancellation.

Context {lib : Library} {env : Environment}.

Lemma run_flag {A} (m : M A) w o w' :
  keeps_flag m -> m w = (o, w') -> _is_abort w' = _is_abort w.
Proof. intros Hm E. specialize (Hm w). rewrite E in Hm. exact Hm. Qed.

Lemma keeps_flag_verify address uncsize calcmd5 :
  keeps_flag (verify address uncsize calcmd5).
Proof. unfold verify. repeat flag_step. Qed.

Lemma keeps_flag_leave esp args : keeps_flag (leave esp args).
Proof. unfold leave. repeat flag_step. Qed.

Lemma keeps_flag_check_sizes flash_end files :
  keeps_flag (check_sizes flash_end files).
Proof.
  induction files as [|[address argfile] rest IH]; simpl.
  - auto with flag.
  - destruct (address + Z.of_nat (length argfile) >? flash_end)%Z; [|exact IH].
    unfold BytesIO_name. repeat flag_step.
Qed.

Lemma keeps_flag_configure esp args : keeps_flag (configure_flash_size esp args).
Proof. unfold configure_flash_size, detect_flash_size. repeat flag_step. Qed.

Lemma keeps_flag_connect p : keeps_flag (connect p).
Proof. unfold connect, show_log. repeat flag_step. Qed.

Lemma write_blocks_exit esp args address blocks fuel image seq written w o w' :
  write_blocks esp args address blocks fuel image seq written w = (o, w') ->
  match o with
  | Return LoopReturn => exit_facts w true w'
  | Return (LoopDone _) => exit_facts w false w'
  | _ => True
  end.
Proof.
  revert image seq written w.
  induction fuel as [|fuel IH]; intros image seq written w Hrun;
    (destruct image as [|b image']; [inversion Hrun; reflexivity|]).
  - inversion Hrun. exact I.
  - destruct (write_blocks_iteration esp args address blocks fuel b image' seq written w)
      as [(pre & R & F & _ & T) | [(e & R & _) | (w3 & _ & F3 & F & E)]];
      cbv zeta in *.
    + rewrite Hrun in R, F, T. simpl in R, F, T. subst o.
      split; [exact F | exists pre; exact T].
    + rewrite Hrun in R. simpl in R. subst o. exact I.
    + rewrite Hrun in E. symmetry in E. apply IH in E.
      destruct o as [[n|]|e|]; simpl in *; auto.
      rewrite E, F3, F. reflexivity.
Qed.

Lemma write_image_exit esp args address argfile w o w' :
  write_image esp args address argfile w = (o, w') ->
  match o with
  | Return returned => exit_facts w returned w'
  | _ => True
  end.
Proof.
  unfold write_image. intros Hrun.
  run_bind Hrun u w1 E1.
  assert (F1 : _is_abort w1 = _is_abort w).
  { eapply run_flag; [|exact E1]. repeat flag_step. }
  destruct (Nat.eqb (length (pad_to argfile (alignment args))) 0).
  { inversion Hrun. exact I. }
  run_bind Hrun p w2 E2. destruct p as [image blocks].
  assert (F2 : _is_abort w2 = _is_abort w1).
  { eapply run_flag; [|exact E2]. repeat flag_step. }
  run_bind Hrun exit w3 E3.
  apply write_blocks_exit in E3.
  destruct exit as [n|].
  - run_bind Hrun u1 w4 E4. inversion E4; subst u1 w4; clear E4.
    run_bind Hrun u2 w5 E5.
    assert (F5 : _is_abort w5 = _is_abort w3).
    { apply run_flag in E5; [exact E5|].
      destruct (negb (encrypt args));
        [apply keeps_flag_verify | apply keeps_flag_ret]. }
    inversion Hrun; subst o w'. unfold exit_facts in *. congruence.
  - inversion Hrun; subst o w'. exact E3.
Qed.

Lemma write_images_exit esp args files w o w' :
  write_images esp args files w = (o, w') ->
  match o with
  | Return returned => exit_facts w returned w'
  | _ => True
  end.
Proof.
  revert w. induction files as [|[address argfile] rest IH]; intros w Hrun.
  - inversion Hrun. reflexivity.
  - simpl write_images in Hrun.
    run_bind Hrun returned w1 E1.
    apply write_image_exit in E1.
    destruct returned.
    + inversion Hrun; subst o w'. exact E1.
    + apply IH in Hrun. destruct o as [[|]|e|]; try exact I.
      * exact Hrun.
      * unfold exit_facts in *. congruence.
Qed.

Lemma _write_flash_exit esp args w w' :
  _write_flash esp args w = (Return tt, w') ->
  _is_abort w' = _is_abort w \/
  (_is_abort w' = true /\ exists pre, trace w' = pre ++ abort_tail).
Proof.
  unfold _write_flash. set (args' := resolve_compress args). intros Hrun.
  run_bind Hrun u0 w0 E0. inversion E0; subst u0 w0; clear E0.
  run_bind Hrun u1 w1 E1.
  assert (F1 : _is_abort w1 = _is_abort w).
  { apply run_flag in E1; [exact E1|].
    destruct (negb (String.eqb (flash_size args') "keep"));
      [apply keeps_flag_check_sizes | apply keeps_flag_ret]. }
  run_bind Hrun u2 w2 E2. inversion E2; subst u2 w2; clear E2.
  run_bind Hrun returned w3 E3.
  apply write_images_exit in E3.
  destruct returned.
  - inversion Hrun; subst w'. right. exact E3.
  - left. apply (run_flag _ _ _ _ (keeps_flag_leave esp args')) in Hrun.
    unfold exit_facts in E3. simpl in *. congruence.
Qed.

(** C1. When a job returns with the cancellation flag set, the last
    four things the worker did are: emit the result [(1, "已终止")],
    close the serial port, emit the result [(0, "成功")], close the serial
    port again.  The result reported last is success. *)
Theorem cancelled_job_ends_with_success (firmware : Firmware) (w w' : World) :
  begin_flash firmware w = (Return tt, w') ->
  _is_abort w' = true ->
  exists pre, trace w' = pre ++ abort_tail ++ success_tail.
Proof.
  unfold begin_flash. intros Hrun Hflag.
  run_bind Hrun u0 w0 E0. inversion E0; subst u0 w0; clear E0.
  run_bind Hrun session w1 E1.
  assert (F1 : _is_abort w1 = false).
  { apply (run_flag _ _ _ _ (keeps_flag_connect (port firmware))) in E1.
    exact E1. }
  destruct session as [esp|].
  2:{ inversion Hrun; subst w'. congruence. }
  run_bind Hrun u2 w2 E2.
  run_bind Hrun u3 w3 E3. inversion E3; subst u3 w3; clear E3.
  assert (F' : _is_abort w' = _is_abort w2).
  { apply run_flag in Hrun; [exact Hrun | apply keeps_flag_call]. }
  assert (T' : trace w' = trace w2 ++ success_tail).
  { unfold call, call_for in Hrun.
    destruct (esp_raises _ close_serial); inversion Hrun; subst w'.
    simpl. rewrite <- app_assoc. reflexivity. }
  unfold write_flash in E2.
  run_bind E2 args w4 E4.
  assert (F4 : _is_abort w4 = false).
  { apply (run_flag _ _ _ _ (keeps_flag_configure esp (job_args firmware))) in E4.
    congruence. }
  run_bind E2 u5 w5 E5. inversion E5; subst u5 w5; clear E5.
  destruct u2. apply _write_flash_exit in E2.
  destruct E2 as [E2 | (_ & pre & E2)].
  - simpl in E2. congruence.
  - exists pre. rewrite T', E2, <- app_assoc. reflexivity.
Qed.

End Cancellation.

(** ** The size check *)

Lemma results_app d1 d2 : results (d1 ++ d2) = results d1 ++ results d2.
Proof. unfold results. apply flat_map_app. Qed.

Lemma no_result_nil d : Forall no_result d -> results d = [].
Proof.
  induction 1 as [|a d Ha _ IH]; [reflexivity|].
  destruct a as [[]| |]; simpl in *; auto; contradiction.
Qed.

Lemma only_no_result w w' : only no_result w w' -> results (trace w') = results (trace w).
Proof.
  intros (d & E & F). rewrite E, results_app, (no_result_nil d F), app_nil_r.
  reflexivity.
Qed.

#[local] Hint Extern 1 (no_result _) => exact I : emits.

Section SizeCheck.

Context {lib : Library} {env : Environment}.

Lemma check_sizes_oversize flash_end files w :
  oversize flash_end files ->
  check_sizes flash_end files w = (Raise (NameError "FatalError"), w).
Proof.
  induction files as [|[address argfile] rest IH];
    intros (a & f & Hin & Hbig); [contradiction|].
  simpl check_sizes.
  destruct (address + Z.of_nat (length argfile) >? flash_end)%Z eqn:Hcmp.
  - reflexivity.
  - apply IH. destruct Hin as [Heq|Hin].
    + inversion Heq; subst. rewrite Z.gtb_ltb in Hcmp.
      apply Z.ltb_ge in Hcmp. lia.
    + exists a, f. auto.
Qed.

Lemma check_sizes_fit flash_end files w :
  ~ oversize flash_end files ->
  check_sizes flash_end files w = (Return tt, w).
Proof.
  induction files as [|[address argfile] rest IH]; intros Hfit; [reflexivity|].
  simpl check_sizes.
  destruct (address + Z.of_nat (length argfile) >? flash_end)%Z eqn:Hcmp.
  - exfalso. apply Hfit. exists address, argfile. split; [left; reflexivity|].
    rewrite Z.gtb_ltb in Hcmp. apply Z.ltb_lt in Hcmp. exact Hcmp.
  - apply IH. intros (a & f & Hin & Hbig). apply Hfit.
    exists a, f. split; [right; exact Hin | exact Hbig].
Qed.

Lemma resolve_compress_flash_size args :
  flash_size (resolve_compress args) = flash_size args.
Proof.
  unfold resolve_compress.
  destruct (is_None (compress args) && negb (no_compress args)); reflexivity.
Qed.

Lemma resolve_compress_files args :
  addr_filename (resolve_compress args) = addr_filename args.
Proof.
  unfold resolve_compress.
  destruct (is_None (compress args) && negb (no_compress args)); reflexivity.
Qed.

(** An image that does not fit stops [_write_flash] at the size check. *)
Lemma _write_flash_oversize esp args w :
  flash_size args <> "keep" ->
  oversize (flash_size_bytes (flash_size args)) (addr_filename args) ->
  _write_flash esp args w
  = (Raise (NameError "FatalError"),
     record (Stdout (ArgsDump "before size change:")) w).
Proof.
  intros Hmode Hbig. unfold _write_flash.
  rewrite resolve_compress_flash_size, resolve_compress_files.
  apply String.eqb_neq in Hmode. rewrite Hmode. simpl negb.
  unfold bind at 1. unfold print at 1. unfold bind at 1.
  rewrite (check_sizes_oversize _ _ _ Hbig). reflexivity.
Qed.


Lemma connect_some p w esp w1 :
  connect p w = (Return (Some esp), w1) -> only no_result w w1.
Proof.
  unfold connect, try_except.
  match goal with
  | |- context [match ?m w with _ => _ end] =>
      assert (Hm : emits no_result m) by (repeat emits_step);
      specialize (Hm w); destruct (m w) as [[s|e|] w0]
  end; simpl in Hm.
  - intros E. inversion E; subst. exact Hm.
  - destruct (is_SerialException e); unfold bind, show_log, emit, ret, raise;
      simpl; discriminate.
  - discriminate.
Qed.

Lemma emits_configure ok esp args :
  ok (Stdout ConfiguringFlashSize) -> ok (Call report_flash_size) ->
  (forall n, ok (Call (flash_set_parameters n))) ->
  emits ok (configure_flash_size esp args).
Proof.
  intros H1 H2 H3. unfold configure_flash_size, detect_flash_size.
  repeat emits_step.
Qed.

(** C2, at the input where it fails. When the session is open and the
    flash size configured, a firmware body longer than the flash makes
    [begin_flash] end with an exception that nothing catches, and no
    result signal is emitted for the job. *)
Theorem oversize_failure_unreported (firmware : Firmware) (w : World)
        (esp : ESPLoader) (w1 : World) (args : Args) (w2 : World) :
  connect (port firmware) (mkWorld false (trace w) (pumps w))
  = (Return (Some esp), w1) ->
  configure_flash_size esp (job_args firmware) w1 = (Return args, w2) ->
  flash_size args <> "keep" ->
  (flash_size_bytes (flash_size args) < Z.of_nat (length (body firmware)))%Z ->
  exists w',
    begin_flash firmware w = (Raise (NameError "FatalError"), w') /\
    results (trace w') = results (trace w).
Proof.
  intros Hconnect Hconfigure Hmode Hbig.
  assert (Hfiles : addr_filename args = [(0%Z, body firmware)]).
  { apply configure_flash_size_files in Hconfigure. exact Hconfigure. }
  assert (Hover : oversize (flash_size_bytes (flash_size args)) (addr_filename args)).
  { rewrite Hfiles. exists 0%Z, (body firmware). split; [left; reflexivity | lia]. }
  pose proof (_write_flash_oversize
                esp args (record (Stdout (ArgsDump "Args: ")) w2) Hmode Hover)
    as Hrun.
  eexists. split.
  - unfold begin_flash. unfold bind at 1. unfold set_is_abort at 1.
    unfold bind at 1. rewrite Hconnect.
    unfold bind at 1. unfold write_flash. unfold bind at 1.
    rewrite Hconfigure. unfold bind at 1. unfold print at 1.
    rewrite Hrun. reflexivity.
  - simpl trace. rewrite !results_app. simpl. rewrite !app_nil_r.
    apply connect_some in Hconnect. apply only_no_result in Hconnect.
    assert (Hc : only no_result w1 w2).
    { eapply run_only; [|exact Hconfigure].
      apply emits_configure; intros; exact I. }
    apply only_no_result in Hc. rewrite Hc, Hconnect. reflexivity.
Qed.

End SizeCheck.

(** ** Verification *)

Section Verification.

Context {lib : Library} {env : Environment}.

(** C6, at the input where it fails. When the loader answers
    [flash_md5sum] with [NotImplementedInROMError], the handler of line
    180 reads a name that the module does not bind, and [verify] ends
    with that [NameError] instead of passing. *)
Theorem unsupported_checksum_not_skipped (address : Z) (uncsize : nat)
        (calcmd5 : string) (w : World) :
  esp_raises (trace w) (flash_md5sum address uncsize)
  = Some NotImplementedInROMError ->
  verify address uncsize calcmd5 w
  = (Raise (NameError "NotImplementedInROMError"),
     record (Call (flash_md5sum address uncsize)) w).
Proof.
  intros Hraise. unfold verify, try_except, bind, call_for.
  rewrite Hraise. reflexivity.
Qed.

(** X4. The device checksum equals the host checksum: verification
    passes. *)
Lemma verify_match address uncsize calcmd5 w :
  esp_raises (trace w) (flash_md5sum address uncsize) = None ->
  esp_md5 (trace w) (flash_md5sum address uncsize) = calcmd5 ->
  verify address uncsize calcmd5 w
  = (Return tt,
     record (Stdout HashVerified) (record (Call (flash_md5sum address uncsize)) w)).
Proof.
  intros Hraise Hsum. unfold verify, try_except, bind, call_for.
  rewrite Hraise, Hsum, String.eqb_refl. reflexivity.
Qed.

(** X5. The checksums differ: both are printed and the job ends with an
    exception. *)
Lemma verify_mismatch address uncsize calcmd5 w :
  esp_raises (trace w) (flash_md5sum address uncsize) = None ->
  esp_md5 (trace w) (flash_md5sum address uncsize) <> calcmd5 ->
  exists e w',
    verify address uncsize calcmd5 w = (Raise e, w') /\
    trace w' = trace w
               ++ [Call (flash_md5sum address uncsize);
                   Stdout (FileMd5 calcmd5);
                   Stdout (FlashMd5 (esp_md5 (trace w) (flash_md5sum address uncsize)));
                   Stdout (Md5OfFF (md5_hexdigest (repeat xff uncsize)))].
Proof.
  intros Hraise Hsum. unfold verify, try_except, bind, call_for.
  rewrite Hraise. apply String.eqb_neq in Hsum. rewrite Hsum.
  do 2 eexists. split; [reflexivity|].
  simpl. rewrite <- !app_assoc. reflexivity.
Qed.

End Verification.

(** ** The progress signals of a completed transfer *)

Section Progress.

Context {lib : Library} {env : Environment}.

Lemma only_no_progress w w' :
  only no_progress w w' -> exists d, trace w' = trace w ++ d /\ progress d = [].
Proof.
  intros (d & E & F). exists d. split; [exact E | apply no_progress_nil, F].
Qed.

Lemma counted_nil esp args : counted esp args [] = 0.
Proof.
  unfold counted. destruct (truthy (compress args)); [reflexivity|].
  apply round_up_0.
Qed.

Lemma counted_step esp args image :
  image <> [] ->
  length (block_sent esp args image)
  + counted esp args (skipn (FLASH_WRITE_SIZE esp) image)
  = counted esp args image.
Proof.
  intros Hne. assert (Hpos : 0 < length image).
  { destruct image; [contradiction | simpl; lia]. }
  unfold counted. rewrite block_sent_length, length_skipn.
  destruct (truthy (compress args)); [lia|].
  apply round_up_step_eq, Hpos.
Qed.

Lemma round_up_ge size n : 0 < size -> n <= round_up size n.
Proof.
  intros Hs. unfold round_up.
  pose proof (Nat.div_mod_eq (n + size - 1) size) as Hdm.
  pose proof (Nat.mod_upper_bound (n + size - 1) size ltac:(lia)) as Hlt.
  lia.
Qed.

(** If [written] is below the first of an ordered list of counts, it can
    be put in front of it. *)
Lemma sorted_cons_le (a b : nat) (l : list nat) :
  a <= b -> StronglySorted le (b :: l) -> StronglySorted le (a :: b :: l).
Proof.
  intros Hab Hs. constructor; [exact Hs|].
  apply StronglySorted_inv in Hs. destruct Hs as [_ Hall].
  constructor; [exact Hab|].
  eapply Forall_impl; [|exact Hall]. simpl. intros; lia.
Qed.

(** A loop that ran to completion has counted the whole image; the counts
    it reported are in order, and on a non-empty image its last progress
    signal carries the final count together with the length of the last
    slice. *)
Lemma write_blocks_completed esp args address blocks fuel image seq written w n w' :
  write_blocks esp args address blocks fuel image seq written w
  = (Return (LoopDone n), w') ->
  n = written + counted esp args image /\
  exists d,
    trace w' = trace w ++ d /\
    StronglySorted le (written :: map fst (progress d)) /\
    (image = [] -> d = []) /\
    (image <> [] ->
     exists pre last_total,
       progress d = pre ++ [(n, last_total)] /\
       0 < last_total <= FLASH_WRITE_SIZE esp).
Proof.
  revert image seq written w.
  induction fuel as [|fuel IH]; intros image seq written w Hrun;
    (destruct image as [|b image'];
     [inversion Hrun; subst; rewrite counted_nil; split; [lia|];
      exists []; rewrite app_nil_r;
      split; [reflexivity
             | split; [repeat constructor | split; [reflexivity | contradiction]]]|]).
  - inversion Hrun.
  - destruct (write_blocks_iteration esp args address blocks fuel b image' seq written w)
      as [(pre & R & _) | [(e & R & _) | (w3 & O & _ & _ & E)]];
      cbv zeta in *; try (rewrite Hrun in R; discriminate).
    rewrite Hrun in E. symmetry in E.
    set (image := b :: image') in *.
    assert (Hne : image <> []) by discriminate.
    pose proof (counted_step esp args image Hne) as Hcount.
    set (sent := length (block_sent esp args image)) in *.
    destruct (only_no_progress _ _ O) as (d0 & E0 & P0).
    assert (Hpos : 0 < length image) by (simpl; lia).
    pose proof (length_skipn (FLASH_WRITE_SIZE esp) image) as Hlen.
    clearbody sent image.
    apply IH in E. destruct E as (Hn & d' & E' & Hsorted & Hnil & Hlast).
    split; [lia|].
    exists (d0 ++ [Emit (flash_progress_sig (written + sent) (length image))] ++ d').
    rewrite E'. simpl trace. rewrite E0, <- !app_assoc.
    split; [reflexivity|].
    rewrite !progress_app, P0. cbn [app progress flat_map map fst].
    split; [apply sorted_cons_le; [lia | exact Hsorted]|].
    split; [intros Himage; contradiction|].
    intros _.
    destruct (skipn (FLASH_WRITE_SIZE esp) image) as [|b' rest'] eqn:Hrest.
    + (* this was the last slice *)
      rewrite counted_nil in Hn.
      rewrite (Hnil eq_refl).
      exists [], (length image).
      split; [cbn [app progress flat_map]; f_equal; f_equal; lia|].
      cbn [length] in Hlen. lia.
    + (* more slices follow *)
      destruct Hlast as (pre & lt & P' & Hlt); [discriminate|].
      exists ((written + sent, length image) :: pre), lt. rewrite P'.
      split; [reflexivity | exact Hlt].
Qed.

(** C3, as amended. When the write loop has completed, the byte counts of
    its progress signals never decrease, and on a non-empty image the last
    signal carries the final count: the transfer length with compression,
    the transfer length rounded up to a whole number of blocks without. *)
Theorem progress_of_completed_transfer (esp : ESPLoader) (args : Args)
        (address : Z) (blocks fuel : nat) (image : bytes) (seq written : nat)
        (w : World) (n : nat) (w' : World) :
  write_blocks esp args address blocks fuel image seq written w
  = (Return (LoopDone n), w') ->
  exists d,
    trace w' = trace w ++ d /\
    StronglySorted le (written :: map fst (progress d)) /\
    n = written + counted esp args image /\
    (image <> [] ->
     exists earlier last_total, progress d = earlier ++ [(n, last_total)]).
Proof.
  intros Hrun.
  destruct (write_blocks_completed _ _ _ _ _ _ _ _ _ _ _ Hrun)
    as (Hn & d & E & Hsorted & _ & Hlast).
  exists d. repeat split; auto.
  intros Hne. destruct (Hlast Hne) as (pre & lt & P & _). exists pre, lt. exact P.
Qed.

(** X6. The second component of a progress signal is the length of the part
    of the image that was not yet sent when its block was cut (line 155
    reads [len(image)] before line 156 slices it).  When the write loop
    completes on an image longer than one block, the first signal carries
    the length of the image there, and the last one a smaller number,
    which its byte count exceeds. *)
Theorem progress_total_is_remaining_length (esp : ESPLoader) (args : Args)
        (address : Z) (blocks fuel : nat) (image : bytes) (seq written : nat)
        (w : World) (n : nat) (w' : World) :
  0 < FLASH_WRITE_SIZE esp ->
  FLASH_WRITE_SIZE esp < length image ->
  write_blocks esp args address blocks fuel image seq written w
  = (Return (LoopDone n), w') ->
  exists d first_written middle last_total,
    trace w' = trace w ++ d /\
    progress d = (first_written, length image)
                   :: middle ++ [(n, last_total)] /\
    last_total < length image /\
    last_total < n.
Proof.
  intros Hsize Hlong Hrun.
  destruct image as [|b image']; [simpl in Hlong; lia|].
  destruct fuel as [|fuel]; [inversion Hrun|].
  destruct (write_blocks_iteration esp args address blocks fuel b image' seq written w)
    as [(pre & R & _) | [(e & R & _) | (w3 & O & _ & _ & E)]];
    cbv zeta in *; try (rewrite Hrun in R; discriminate).
  rewrite Hrun in E. symmetry in E.
  set (image := b :: image') in *.
  pose proof (block_sent_length esp args image) as Hsent.
  set (sent := length (block_sent esp args image)) in *.
  destruct (only_no_progress _ _ O) as (d0 & E0 & P0).
  assert (Hrest : length (skipn (FLASH_WRITE_SIZE esp) image)
                  = length image - FLASH_WRITE_SIZE esp) by apply length_skipn.
  assert (Hcount : length image - FLASH_WRITE_SIZE esp
                   <= counted esp args (skipn (FLASH_WRITE_SIZE esp) image)).
  { unfold counted. rewrite Hrest.
    destruct (truthy (compress args)); [lia | apply round_up_ge, Hsize]. }
  clearbody sent image.
  apply write_blocks_completed in E.
  destruct E as (Hn & d' & E' & _ & _ & Hlast).
  destruct Hlast as (pre & lt & P' & Hlt).
  { intros Hnil. rewrite Hnil in Hrest. cbn [length] in Hrest. lia. }
  exists (d0 ++ [Emit (flash_progress_sig (written + sent) (length image))] ++ d'),
    (written + sent), pre, lt.
  rewrite E'. simpl trace. rewrite E0, !progress_app, P0, P'.
  rewrite <- !app_assoc.
  repeat split; auto; destruct (truthy (compress args)); lia.
Qed.

End Progress.

(** ** Termination *)

Section Halting.

Context {lib : Library} {env : Environment}.

Lemma halts_ret {A} (a : A) : halts (ret a).
Proof. intros w. discriminate. Qed.

Lemma halts_raise {A} e : halts (@raise A e).
Proof. intros w. discriminate. Qed.

Lemma halts_bind {A B} (m : M A) (k : A -> M B) :
  halts m -> (forall a, halts (k a)) -> halts (bind m k).
Proof.
  intros Hm Hk w. unfold bind. specialize (Hm w).
  destruct (m w) as [[a|e|] w1]; simpl in *;
    [apply Hk | discriminate | contradiction].
Qed.

Lemma halts_try_except {A} (m : M A) (h : exn -> M A) :
  halts m -> (forall e, halts (h e)) -> halts (try_except m h).
Proof.
  intros Hm Hh w. unfold try_except. specialize (Hm w).
  destruct (m w) as [[a|e|] w1]; simpl in *;
    [discriminate | apply Hh | contradiction].
Qed.

Lemma halts_emit s : halts (emit s).
Proof. intros w. discriminate. Qed.

Lemma halts_print l : halts (print l).
Proof. intros w. discriminate. Qed.

Lemma halts_call_for {A} (v : list action -> esp_call -> A) c : halts (call_for v c).
Proof.
  intros w. unfold call_for. destruct (esp_raises (trace w) c); discriminate.
Qed.

Lemma halts_call c : halts (call c).
Proof. apply halts_call_for. Qed.

Lemma halts_set_is_abort b : halts (set_is_abort b).
Proof. intros w. discriminate. Qed.

Lemma halts_load_global name : halts (load_global name).
Proof.
  unfold load_global. destruct (is_bound name); [apply halts_ret | apply halts_raise].
Qed.

Lemma halts_BytesIO_name : halts BytesIO_name.
Proof. apply halts_raise. Qed.

End Halting.

Create HintDb halts discriminated.
#[local] Hint Resolve halts_ret halts_raise halts_emit halts_print halts_call_for
  halts_call halts_set_is_abort halts_load_global halts_BytesIO_name : halts.

Ltac halts_step :=
  lazymatch goal with
  | |- halts (bind _ _) => apply halts_bind; [| intros ?]
  | |- halts (try_except _ _) => apply halts_try_except; [| intros ?]
  | |- halts (if ?b then _ else _) => destruct b
  | |- halts (match ?x with _ => _ end) => destruct x
  | |- halts _ => solve [auto with halts]
  end.

Section JobTermination.

Context {lib : Library} {env : Environment}.

(** With a positive block size, [length image] iterations are enough:
    the write loop returns or raises. *)
Lemma write_blocks_terminates esp args address blocks fuel image seq written w :
  0 < FLASH_WRITE_SIZE esp ->
  length image <= fuel ->
  fst (write_blocks esp args address blocks fuel image seq written w) <> OutOfFuel.
Proof.
  intros Hsize. revert image seq written w.
  induction fuel as [|fuel IH]; intros image seq written w Hfuel;
    (destruct image as [|b image']; [discriminate|]).
  - simpl in Hfuel. lia.
  - destruct (write_blocks_iteration esp args address blocks fuel b image' seq written w)
      as [(pre & R & _) | [(e & R & _) | (w3 & _ & _ & _ & E)]];
      cbv zeta in *; try (rewrite R; discriminate).
    rewrite E. apply IH. rewrite length_skipn. cbn [length] in *. lia.
Qed.

Lemma halts_check_sizes flash_end files : halts (check_sizes flash_end files).
Proof.
  induction files as [|[address argfile] rest IH]; simpl.
  - auto with halts.
  - destruct (address + Z.of_nat (length argfile) >? flash_end)%Z; [|exact IH].
    repeat halts_step.
Qed.

Lemma halts_verify address uncsize calcmd5 : halts (verify address uncsize calcmd5).
Proof. unfold verify. repeat halts_step. Qed.

Lemma halts_leave esp args : halts (leave esp args).
Proof. unfold leave. repeat halts_step. Qed.

Lemma halts_write_image esp args address argfile :
  0 < FLASH_WRITE_SIZE esp -> halts (write_image esp args address argfile).
Proof.
  intros Hsize. unfold write_image.
  apply halts_bind; [repeat halts_step | intros _].
  destruct (Nat.eqb (length (pad_to argfile (alignment args))) 0);
    [repeat halts_step|].
  apply halts_bind; [repeat halts_step | intros [image blocks]].
  apply halts_bind.
  - intros w. apply write_blocks_terminates; [exact Hsize | apply Nat.le_refl].
  - intros [written|]; [|apply halts_ret].
    apply halts_bind; [apply halts_print | intros _].
    apply halts_bind; [|intros _; apply halts_ret].
    destruct (negb (encrypt args)); [apply halts_verify | apply halts_ret].
Qed.

Lemma halts_write_images esp args files :
  0 < FLASH_WRITE_SIZE esp -> halts (write_images esp args files).
Proof.
  intros Hsize. induction files as [|[address argfile] rest IH]; simpl.
  - apply halts_ret.
  - apply halts_bind; [apply halts_write_image, Hsize | intros returned].
    destruct returned; [apply halts_ret | exact IH].
Qed.

Lemma halts__write_flash esp args :
  0 < FLASH_WRITE_SIZE esp -> halts (_write_flash esp args).
Proof.
  intros Hsize. unfold _write_flash.
  apply halts_bind; [apply halts_print | intros _].
  apply halts_bind.
  { destruct (negb (String.eqb (flash_size (resolve_compress args)) "keep"));
      [apply halts_check_sizes | apply halts_ret]. }
  intros _. apply halts_bind; [apply halts_print | intros _].
  apply halts_bind; [apply halts_write_images, Hsize | intros returned].
  destruct returned; [apply halts_ret | apply halts_leave].
Qed.

Lemma halts_write_flash esp firmware :
  0 < FLASH_WRITE_SIZE esp -> halts (write_flash esp firmware).
Proof.
  intros Hsize. unfold write_flash, configure_flash_size, detect_flash_size.
  apply halts_bind; [repeat halts_step | intros args].
  apply halts_bind; [apply halts_print | intros _].
  apply halts__write_flash, Hsize.
Qed.

Lemma connect_stub p w esp w1 :
  connect p w = (Return (Some esp), w1) -> esp = stub_loader.
Proof.
  unfold connect, try_except, bind, call, call_for, ret.
  destruct (esp_raises (trace w) (detect_chip p FLASH_BAUD)) as [e|].
  - destruct (is_SerialException e); unfold show_log, emit, raise; simpl; discriminate.
  - destruct (esp_raises _ run_stub) as [e|].
    + destruct (is_SerialException e); unfold show_log, emit, raise; simpl; discriminate.
    + intros E. inversion E. reflexivity.
Qed.

Lemma halts_connect p : halts (connect p).
Proof. unfold connect, show_log. repeat halts_step. Qed.

(** X1. A job always ends: with a positive block size [begin_flash]
    returns or raises, whatever the device does and whenever the user
    cancels. *)
Theorem begin_flash_terminates (firmware : Firmware) (w : World) :
  0 < FLASH_WRITE_SIZE stub_loader ->
  fst (begin_flash firmware w) <> OutOfFuel.
Proof.
  intros Hsize. unfold begin_flash.
  unfold bind at 1. unfold set_is_abort at 1.
  unfold bind at 1.
  set (w0 := mkWorld false (trace w) (pumps w)).
  pose proof (halts_connect (port firmware) w0) as Hc.
  destruct (connect (port firmware) w0) as [[[esp|]|e|] w1] eqn:E; simpl in Hc.
  2,3: discriminate.
  2: contradiction.
  apply connect_stub in E. subst esp.
  assert (H : halts (write_flash stub_loader firmware ;;
                     emit (flash_result_sig 0 "成功") ;;
                     call close_serial)).
  { apply halts_bind; [apply halts_write_flash, Hsize | intros _].
    repeat halts_step. }
  apply H.
Qed.

End JobTermination.

(** ** Further facts about a job *)

Section Further.

Context {lib : Library} {env : Environment}.

(** X2. When opening the port fails with [SerialException], [begin_flash]
    logs the failure, emits the result [(1, "串口读写失败")] and returns:
    one result signal, and nothing after it. *)
Theorem serial_failure_reported (firmware : Firmware) (w : World) :
  esp_raises (trace w) (detect_chip (port firmware) FLASH_BAUD)
  = Some SerialException ->
  exists w',
    begin_flash firmware w = (Return tt, w') /\
    trace w' = trace w
               ++ [Call (detect_chip (port firmware) FLASH_BAUD);
                   Emit (console_sig
                           "串口读写失败，请检查是否有其他程序占用了指定串口");
                   Emit (flash_result_sig 1 "串口读写失败")].
Proof.
  intros Hraise. eexists.
  unfold begin_flash, connect, try_except, bind, set_is_abort, call, call_for.
  simpl trace. rewrite Hraise. simpl. split; [reflexivity|].
  unfold record. simpl. repeat rewrite <- app_assoc. reflexivity.
Qed.

(** X3. An empty file is not skipped: formatting the warning of line 119 reads
    [argfile.name], which a [BytesIO] does not have, and the method ends
    with [AttributeError] before any call to the loader. *)
Theorem empty_image_raises (esp : ESPLoader) (args : Args) (address : Z)
        (w : World) :
  no_stub args = false ->
  write_image esp args address [] w = (Raise (AttributeError "name"), w).
Proof.
  intros Hstub. unfold write_image. rewrite Hstub.
  unfold alignment. destruct (encrypt args); reflexivity.
Qed.

End Further.

(** ** The theorems at concrete jobs *)

Lemma cancelled_job_witness :
  exists pre,
    trace (snd (begin_flash (lib := demo_library)
                            (env := demo_device 4 "1MB" "" (Some 1))
                            ten_bytes fresh))
    = pre ++ abort_tail ++ success_tail.
Proof.
  apply (cancelled_job_ends_with_success
           (lib := demo_library) (env := demo_device 4 "1MB" "" (Some 1))
           ten_bytes fresh).
  - vm_compute. reflexivity.
  - vm_compute. reflexivity.
Defined.

Lemma too_long_length :
  (1048576 < Z.of_nat (length (body too_long)))%Z.
Proof.
  unfold too_long, body. rewrite repeat_length, N_nat_Z. reflexivity.
Defined.

Lemma oversize_failure_witness :
  exists w',
    begin_flash (lib := demo_library) (env := demo_device 4 "1MB" "" None)
                too_long fresh
    = (Raise (NameError "FatalError"), w') /\
    results (trace w') = results (trace fresh).
Proof.
  eapply (oversize_failure_unreported
            (lib := demo_library) (env := demo_device 4 "1MB" "" None)
            too_long fresh).
  - reflexivity.
  - reflexivity.
  - discriminate.
  - exact too_long_length.
Defined.


Lemma unsupported_checksum_witness :
  verify (lib := demo_library) (env := rom_device 4 "1MB") 0 12 "" fresh
  = (Raise (NameError "NotImplementedInROMError"),
     record (Call (flash_md5sum 0 12)) fresh).
Proof.
  apply (unsupported_checksum_not_skipped
           (lib := demo_library) (env := rom_device 4 "1MB")).
  reflexivity.
Defined.

Lemma progress_total_witness :
  exists d first_written middle last_total,
    trace (snd (write_blocks (env := demo_device 4 "1MB" "" None)
                             (mkESPLoader 4 true) (resolve_compress Args_init)
                             0 3 10 (body ten_bytes) 0 0 fresh))
    = trace fresh ++ d /\
    progress d = (first_written, length (body ten_bytes))
                   :: middle ++ [(10, last_total)] /\
    last_total < length (body ten_bytes) /\
    last_total < 10.
Proof.
  eapply (progress_total_is_remaining_length
            (env := demo_device 4 "1MB" "" None)
            (mkESPLoader 4 true) (resolve_compress Args_init)
            0 3 10 (body ten_bytes) 0 0 fresh).
  - simpl. lia.
  - simpl. lia.
  - vm_compute. reflexivity.
Defined.

Lemma progress_of_completed_witness :
  exists d,
    trace (snd (write_blocks (env := demo_device 4 "1MB" "" None)
                             (mkESPLoader 4 true) (plain_args [])
                             0 3 10 (body ten_bytes) 0 0 fresh))
    = trace fresh ++ d /\
    StronglySorted le (0 :: map fst (progress d)) /\
    12 = 0 + counted (mkESPLoader 4 true) (plain_args []) (body ten_bytes) /\
    (body ten_bytes <> [] ->
     exists earlier last_total, progress d = earlier ++ [(12, last_total)]).
Proof.
  eapply (progress_of_completed_transfer
            (env := demo_device 4 "1MB" "" None)
            (mkESPLoader 4 true) (plain_args [])
            0 3 10 (body ten_bytes) 0 0 fresh).
  vm_compute. reflexivity.
Defined.

(** C3 as stated fails on a plain transfer of four bytes in blocks of
    eight, which completes: its only progress signal is [(8, 4)], so the
    final byte count is not the total. *)
Lemma final_progress_is_not_total :
  let run := write_blocks (env := demo_device 8 "1MB" "" None)
                          (mkESPLoader 8 true) (plain_args [])
                          0 1 4 [x01; x02; x03; x04] 0 0 fresh in
  fst run = Return (LoopDone 8) /\
  progress (trace (snd run)) = [(8, 4)] /\
  8 <> 4.
Proof.
  vm_compute. repeat split; discriminate.
Qed.

(** C4 as stated fails on a plain transfer of four bytes in blocks of
    eight: the loop reports eight bytes written. *)
Lemma written_exceeds_image_length :
  ~ Forall (fun p => fst p <= length [x01; x02; x03; x04])
      (progress
         (trace (snd (write_blocks (env := demo_device 8 "1MB" "" None)
                                   (mkESPLoader 8 true) (plain_args [])
                                   0 1 4 [x01; x02; x03; x04] 0 0 fresh)))).
Proof.
  vm_compute. intros H. inversion H as [|p l Hle Hrest]; subst.
  simpl in Hle. lia.
Qed.

Lemma begin_flash_terminates_witness :
  fst (begin_flash (lib := demo_library) (env := demo_device 4 "1MB" "" None)
                   ten_bytes fresh)
  <> OutOfFuel.
Proof.
  apply (begin_flash_terminates
           (lib := demo_library) (env := demo_device 4 "1MB" "" None)).
  simpl. lia.
Defined.

Lemma serial_failure_witness :
  exists w',
    begin_flash (lib := demo_library) (env := busy_port) ten_bytes fresh
    = (Return tt, w') /\
    trace w' = trace fresh
               ++ [Call (detect_chip (port ten_bytes) FLASH_BAUD);
                   Emit (console_sig
                           "串口读写失败，请检查是否有其他程序占用了指定串口");
                   Emit (flash_result_sig 1 "串口读写失败")].
Proof.
  apply (serial_failure_reported (lib := demo_library) (env := busy_port)).
  reflexivity.
Defined.

Lemma empty_image_witness :
  write_image (lib := demo_library) (env := demo_device 4 "1MB" "" None)
              (mkESPLoader 4 true) Args_init 0 [] fresh
  = (Raise (AttributeError "name"), fresh).
Proof.
  apply (empty_image_raises
           (lib := demo_library) (env := demo_device 4 "1MB" "" None)).
  reflexivity.
Defined.

Lemma verify_match_witness :
  verify (lib := demo_library) (env := demo_device 4 "1MB" "abc" None)
         0 12 "abc" fresh
  = (Return tt,
     record (Stdout HashVerified) (record (Call (flash_md5sum 0 12)) fresh)).
Proof.
  apply (verify_match (lib := demo_library)
                      (env := demo_device 4 "1MB" "abc" None));
    reflexivity.
Defined.

Lemma verify_mismatch_witness :
  exists e w',
    verify (lib := demo_library) (env := demo_device 4 "1MB" "zz" None)
           0 12 "abc" fresh
    = (Raise e, w') /\
    trace w' = trace fresh
               ++ [Call (flash_md5sum 0 12);
                   Stdout (FileMd5 "abc");
                   Stdout (FlashMd5 "zz");
                   Stdout (Md5OfFF (md5_hexdigest (Library := demo_library)
                                                  (repeat xff 12)))].
Proof.
  apply (verify_mismatch (lib := demo_library)
                         (env := demo_device 4 "1MB" "zz" None)).
  - reflexivity.
  - discriminate.
Defined.

(** * Further properties of the worker *)

Section Steps.

Context {lib : Library} {env : Environment}.

(** One iteration of the write loop on a non-empty image, with what it
    leaves in the trace: the method returns on cancellation; or an
    exception leaves the loop, after at most one block write and without a
    signal unless the job was cancelled; or exactly one line, one block
    write and one progress signal are added and the loop goes on. *)
Lemma write_blocks_step esp args address blocks fuel b image' seq written w :
  let image := b :: image' in
  let run := write_blocks esp args address blocks (S fuel) image seq written w in
  (fst run = Return LoopReturn /\ _is_abort (snd run) = true /\
   exists pre, trace (snd run) = trace w ++ pre ++ abort_tail /\
               signals pre = []) \/
  (exists e, fst run = Raise e /\
     (_is_abort (snd run) = true \/
      (_is_abort (snd run) = false /\ _is_abort w = false /\
       exists d, trace (snd run) = trace w ++ d /\ signals d = [] /\
                 length (block_calls d) <= 1))) \/
  (exists percent,
     _is_abort w = false /\ abort_delivered (pumps w) = false /\
     run = write_blocks esp args address blocks fuel
             (skipn (FLASH_WRITE_SIZE esp) image) (seq + 1)
             (written + length (block_sent esp args image))
             (after_block esp args address image seq written percent w)).
Proof.
  intros image run.
  assert (Hrun : run = write_blocks esp args address blocks (S fuel) image seq written w)
    by reflexivity.
  clearbody run. unfold image in Hrun. rewrite write_blocks_S in Hrun.
  fold image in Hrun. cbv zeta in Hrun.
  unfold bind at 1 in Hrun. unfold processEvents in Hrun.
  assert (Habort : forall w1 : World, _is_abort w1 = true ->
            let r := (emit (flash_result_sig 1 "已终止") ;;
                      call close_serial ;; ret LoopReturn) w1 in
            (fst r = Return LoopReturn /\ _is_abort (snd r) = true /\
             trace (snd r) = trace w1 ++ abort_tail) \/
            (exists e, fst r = Raise e /\ _is_abort (snd r) = true)).
  { intros w1 H1. unfold bind, emit, call, call_for, ret.
    destruct (esp_raises _ close_serial) as [e|]; simpl;
      [right; exists e; auto | left].
    split; [reflexivity|]. split; [exact H1|].
    rewrite <- app_assoc. reflexivity. }
  destruct (abort_delivered (pumps w)) eqn:Hdelivered.
  - (* abort_flash runs during the pump *)
    unfold abort_flash, bind at 1, print, set_is_abort in Hrun. simpl in Hrun.
    unfold bind at 1, get_is_abort in Hrun. simpl in Hrun.
    match type of Hrun with
    | run = ?m ?w1 =>
        destruct (Habort w1 eq_refl) as [(HA1 & HA2 & HA3) | (e & HB1 & HB2)]
    end; cbv zeta in *; rewrite <- Hrun in *.
    + left. split; [exact HA1|]. split; [exact HA2|].
      exists [Stdout AbortFlash]. split; [|reflexivity].
      rewrite HA3. simpl. rewrite <- app_assoc. reflexivity.
    + right; left. exists e. auto.
  - unfold bind at 1, get_is_abort in Hrun. simpl in Hrun.
    destruct (_is_abort w) eqn:Hflag.
    + (* the flag was already set *)
      match type of Hrun with
      | run = ?m ?w1 =>
          destruct (Habort w1 eq_refl) as [(HA1 & HA2 & HA3) | (e & HB1 & HB2)]
      end; cbv zeta in *; rewrite <- Hrun in *.
      * left. split; [exact HA1|]. split; [exact HA2|].
        exists []. split; [|reflexivity]. rewrite HA3. reflexivity.
      * right; left. exists e. auto.
    + unfold bind at 1, floordiv in Hrun.
      destruct (Nat.eqb blocks 0).
      { right; left. exists ZeroDivisionError. subst run. simpl.
        split; [reflexivity|]. right. split; [first [exact Hflag | reflexivity]|].
        split; [reflexivity|].
        exists []. rewrite app_nil_r. simpl. auto. }
      unfold ret at 1 in Hrun. unfold bind at 1, print at 1 in Hrun.
      unfold bind at 1 in Hrun.
      set (percent := 100 * (seq + 1) / blocks) in *.
      set (w2 := record (Stdout _) _) in Hrun.
      assert (Hsend :
        (if truthy (compress args) then
           call (flash_defl_block (firstn (FLASH_WRITE_SIZE esp) image) seq) ;;
           ret (firstn (FLASH_WRITE_SIZE esp) image)
         else
           (if encrypt args
            then call (flash_encrypt_block
                         (firstn (FLASH_WRITE_SIZE esp) image
                          ++ repeat xff (FLASH_WRITE_SIZE esp
                                         - length (firstn (FLASH_WRITE_SIZE esp) image)))
                         seq)
            else call (flash_block
                         (firstn (FLASH_WRITE_SIZE esp) image
                          ++ repeat xff (FLASH_WRITE_SIZE esp
                                         - length (firstn (FLASH_WRITE_SIZE esp) image)))
                         seq)) ;;
           ret (firstn (FLASH_WRITE_SIZE esp) image
                ++ repeat xff (FLASH_WRITE_SIZE esp
                               - length (firstn (FLASH_WRITE_SIZE esp) image)))) w2
        = match esp_raises (trace w2) (block_call esp args image seq) with
          | Some e => (Raise e, record (Call (block_call esp args image seq)) w2)
          | None => (Return (block_sent esp args image),
                     record (Call (block_call esp args image seq)) w2)
          end).
      { unfold block_call, block_sent.
        destruct (truthy (compress args)); [|destruct (encrypt args)];
          unfold bind, call, call_for, ret;
          match goal with
          | |- context [esp_raises ?t ?c] => destruct (esp_raises t c)
          end; reflexivity. }
      rewrite Hsend in Hrun. clear Hsend.
      destruct (esp_raises (trace w2) (block_call esp args image seq)) as [e|].
      * right; left. exists e. subst run. simpl. split; [reflexivity|].
        right. split; [first [exact Hflag | reflexivity]|].
        split; [reflexivity|].
        eexists. split; [rewrite <- app_assoc; reflexivity|].
        split; [reflexivity|].
        unfold block_calls. simpl. rewrite app_nil_r.
        unfold block_call.
        destruct (truthy (compress args)); [|destruct (encrypt args)]; simpl; lia.
      * right; right. exists percent.
        split; [first [exact Hflag | reflexivity]|]. split; [reflexivity|].
        rewrite Hrun. unfold bind at 1, emit at 1.
        f_equal. unfold after_block, record. simpl.
        f_equal. rewrite <- !app_assoc. reflexivity.
Qed.

End Steps.

Lemma block_calls_app d1 d2 :
  block_calls (d1 ++ d2) = block_calls d1 ++ block_calls d2.
Proof. unfold block_calls. apply flat_map_app. Qed.

Lemma block_calls_block_call esp args image seq l s :
  block_calls [Stdout l; Call (block_call esp args image seq); Emit s]
  = [(block_sent esp args image, seq)].
Proof.
  unfold block_call.
  destruct (truthy (compress args)); [|destruct (encrypt args)]; reflexivity.
Qed.

(** What the stream of bytes handed to the loader is, block after block:
    the image followed by the fill of the last block. *)
Lemma block_sent_stream esp args image :
  image <> [] ->
  block_sent esp args image
  ++ skipn (FLASH_WRITE_SIZE esp) image
  ++ repeat xff (counted esp args (skipn (FLASH_WRITE_SIZE esp) image)
                 - length (skipn (FLASH_WRITE_SIZE esp) image))
  = image ++ repeat xff (counted esp args image - length image).
Proof.
  intros Hne.
  assert (Hpos : 0 < length image) by (destruct image; [contradiction | simpl; lia]).
  pose proof (counted_step esp args image Hne) as Hstep.
  rewrite block_sent_length in Hstep.
  unfold block_sent, counted in *. rewrite length_skipn in *.
  destruct (truthy (compress args)).
  - replace (length image - FLASH_WRITE_SIZE esp - (length image - FLASH_WRITE_SIZE esp))
      with 0 by lia.
    replace (length image - length image) with 0 by lia.
    simpl. rewrite !app_nil_r. apply firstn_skipn.
  - rewrite length_firstn.
    destruct (Nat.le_gt_cases (FLASH_WRITE_SIZE esp) (length image)) as [Hle|Hgt].
    + replace (FLASH_WRITE_SIZE esp - Nat.min (FLASH_WRITE_SIZE esp) (length image))
        with 0 by lia.
      simpl. rewrite app_nil_r, app_assoc, firstn_skipn. f_equal. f_equal. lia.
    + rewrite skipn_all2 by lia. rewrite firstn_all2 by lia.
      replace (length image - FLASH_WRITE_SIZE esp) with 0 in * by lia.
      rewrite round_up_0 in *. simpl. rewrite app_nil_r. f_equal. f_equal. lia.
Qed.

Section Coverage.

Context {lib : Library} {env : Environment}.

(** X7. A write loop that ran to completion has sent the image exactly
    once and in order: the payloads of its block writes, put end to end,
    are the image followed by the 0xFF fill of the last plain block; the
    sequence numbers count up by one from the first; and every block write
    is followed by exactly one progress signal. *)
Theorem blocks_cover_image (esp : ESPLoader) (args : Args) (address : Z)
        (blocks fuel : nat) (image : bytes) (seq written : nat)
        (w : World) (n : nat) (w' : World) :
  write_blocks esp args address blocks fuel image seq written w
  = (Return (LoopDone n), w') ->
  exists d,
    trace w' = trace w ++ d /\
    concat (map fst (block_calls d))
    = image ++ repeat xff (counted esp args image - length image) /\
    map snd (block_calls d) = List.seq seq (length (block_calls d)) /\
    length (progress d) = length (block_calls d).
Proof.
  revert image seq written w.
  induction fuel as [|fuel IH]; intros image seq written w Hrun;
    (destruct image as [|b image'];
     [inversion Hrun; subst; exists []; rewrite app_nil_r, counted_nil;
      repeat split; reflexivity|]).
  - inversion Hrun.
  - destruct (write_blocks_step esp args address blocks fuel b image' seq written w)
      as [(R & _) | [(e & R & _) | (percent & _ & _ & E)]];
      cbv zeta in *; try (rewrite Hrun in R; discriminate).
    rewrite Hrun in E. symmetry in E.
    set (image := b :: image') in *.
    assert (Hne : image <> []) by discriminate.
    pose proof (block_sent_stream esp args image Hne) as Hstream.
    clearbody image.
    apply IH in E. destruct E as (d' & E' & Hcat & Hseq & Hlen).
    unfold after_block in E'. simpl trace in E'.
    eexists. split; [rewrite E', <- app_assoc; reflexivity|].
    rewrite !block_calls_app, !progress_app.
    rewrite block_calls_block_call. cbn [app map fst snd concat length progress flat_map].
    rewrite Hcat, Hseq, Hlen, Nat.add_1_r.
    split; [exact Hstream|]. split; reflexivity.
Qed.

End Coverage.

(** ** Relations kept by every step *)

Section Preserved.

Context {lib : Library} {env : Environment}.
Variable R : World -> World -> Prop.
Hypothesis R_refl : forall w, R w w.
Hypothesis R_trans : forall w1 w2 w3, R w1 w2 -> R w2 w3 -> R w1 w3.

Lemma preserves_ret {A} (a : A) : preserves R (ret a).
Proof. intros w. apply R_refl. Qed.

Lemma preserves_raise {A} e : preserves R (@raise A e).
Proof. intros w. apply R_refl. Qed.

Lemma preserves_out_of_fuel {A} : preserves R (@out_of_fuel A).
Proof. intros w. apply R_refl. Qed.

Lemma preserves_bind {A B} (m : M A) (k : A -> M B) :
  preserves R m -> (forall a, preserves R (k a)) -> preserves R (bind m k).
Proof.
  intros Hm Hk w. unfold bind. specialize (Hm w).
  destruct (m w) as [[a|e|] w1]; simpl in *; auto.
  eapply R_trans; [exact Hm | apply Hk].
Qed.

Lemma preserves_try_except {A} (m : M A) (h : exn -> M A) :
  preserves R m -> (forall e, preserves R (h e)) -> preserves R (try_except m h).
Proof.
  intros Hm Hh w. unfold try_except. specialize (Hm w).
  destruct (m w) as [[a|e|] w1]; simpl in *; auto.
  eapply R_trans; [exact Hm | apply Hh].
Qed.

Lemma preserves_load_global name : preserves R (load_global name).
Proof.
  unfold load_global. destruct (is_bound name);
    [apply preserves_ret | apply preserves_raise].
Qed.

Lemma preserves_floordiv a b : preserves R (floordiv a b).
Proof.
  unfold floordiv. destruct (Nat.eqb b 0);
    [apply preserves_raise | apply preserves_ret].
Qed.

Lemma preserves_get_is_abort : preserves R get_is_abort.
Proof. intros w. apply R_refl. Qed.

(** When recording the actions that satisfy [ok] is harmless, so is every
    way of recording one. *)
Variable ok : action -> Prop.
Hypothesis R_record : forall a w, ok a -> R w (record a w).

Lemma preserves_emit s : ok (Emit s) -> preserves R (emit s).
Proof. intros Hs w. apply R_record, Hs. Qed.

Lemma preserves_print l : ok (Stdout l) -> preserves R (print l).
Proof. intros Hl w. apply R_record, Hl. Qed.

Lemma preserves_call_for {A} (v : list action -> esp_call -> A) c :
  ok (Call c) -> preserves R (call_for v c).
Proof.
  intros Hc w. unfold call_for.
  destruct (esp_raises (trace w) c); apply R_record, Hc.
Qed.

Lemma preserves_call c : ok (Call c) -> preserves R (call c).
Proof. apply preserves_call_for. Qed.

End Preserved.

Ltac preserves_step refl trans rec :=
  lazymatch goal with
  | |- preserves _ (bind _ _) => apply (preserves_bind _ trans); [| intros ?]
  | |- preserves _ (try_except _ _) => apply (preserves_try_except _ trans); [| intros ?]
  | |- preserves _ (if ?b then _ else _) => destruct b
  | |- preserves _ (match ?x with _ => _ end) => destruct x
  | |- preserves _ (ret _) => apply (preserves_ret _ refl)
  | |- preserves _ (raise _) => apply (preserves_raise _ refl)
  | |- preserves _ BytesIO_name => apply (preserves_raise _ refl)
  | |- preserves _ out_of_fuel => apply (preserves_out_of_fuel _ refl)
  | |- preserves _ (load_global _) => apply (preserves_load_global _ refl)
  | |- preserves _ (floordiv _ _) => apply (preserves_floordiv _ refl)
  | |- preserves _ get_is_abort => apply (preserves_get_is_abort _ refl)
  | |- preserves _ (emit _) => apply (preserves_emit _ _ rec); exact I
  | |- preserves _ (show_log _) => apply (preserves_emit _ _ rec); exact I
  | |- preserves _ (print _) => apply (preserves_print _ _ rec); exact I
  | |- preserves _ (call_for _ _) => apply (preserves_call_for _ _ rec); exact I
  | |- preserves _ (call _) => apply (preserves_call _ _ rec); exact I
  end.

(** ** A job that nobody cancels *)

Section Calm.

Context {lib : Library} {env : Environment}.

Lemma stays_calm_refl w : stays_calm w w.
Proof. intros H. exact H. Qed.

Lemma stays_calm_trans w1 w2 w3 :
  stays_calm w1 w2 -> stays_calm w2 w3 -> stays_calm w1 w3.
Proof. intros H12 H23 H. auto. Qed.

Lemma stays_calm_record a w : True -> stays_calm w (record a w).
Proof. intros _ H. exact H. Qed.

Lemma stays_calm_processEvents : preserves stays_calm processEvents.
Proof.
  intros w [Hflag Hquiet]. unfold processEvents.
  rewrite (Hquiet (pumps w) (Nat.le_refl _)). simpl.
  split; [exact Hflag|]. intros k Hk. apply Hquiet. simpl in Hk. lia.
Qed.

Ltac calm_step :=
  first [ apply stays_calm_processEvents
        | preserves_step stays_calm_refl stays_calm_trans stays_calm_record ].

Lemma stays_calm_write_blocks esp args address blocks fuel image seq written :
  preserves stays_calm (write_blocks esp args address blocks fuel image seq written).
Proof.
  revert image seq written.
  induction fuel as [|fuel IH]; intros image seq written;
    (destruct image as [|b image']; [apply (preserves_ret _ stays_calm_refl)|]).
  - apply (preserves_out_of_fuel _ stays_calm_refl).
  - rewrite write_blocks_S. cbv zeta.
    calm_step; [calm_step|]. calm_step; [calm_step|].
    destruct a0.
    + repeat calm_step.
    + calm_step; [calm_step|]. calm_step; [calm_step|].
      calm_step; [repeat calm_step|]. calm_step; [calm_step|]. apply IH.
Qed.

Lemma stays_calm_check_sizes flash_end files :
  preserves stays_calm (check_sizes flash_end files).
Proof.
  induction files as [|[address argfile] rest IH]; simpl.
  - calm_step.
  - destruct (address + Z.of_nat (length argfile) >? flash_end)%Z; [|exact IH].
    repeat calm_step.
Qed.

Lemma stays_calm_write_image esp args address argfile :
  preserves stays_calm (write_image esp args address argfile).
Proof.
  unfold write_image, verify.
  calm_step; [repeat calm_step|].
  destruct (Nat.eqb (length (pad_to argfile (alignment args))) 0);
    [repeat calm_step|].
  calm_step; [repeat calm_step|]. destruct a0 as [image blocks].
  calm_step; [apply stays_calm_write_blocks|].
  repeat calm_step.
Qed.

Lemma stays_calm_write_images esp args files :
  preserves stays_calm (write_images esp args files).
Proof.
  induction files as [|[address argfile] rest IH]; simpl.
  - calm_step.
  - calm_step; [apply stays_calm_write_image|].
    destruct a; [calm_step | exact IH].
Qed.

Lemma stays_calm_write_flash esp firmware :
  preserves stays_calm (write_flash esp firmware).
Proof.
  unfold write_flash, configure_flash_size, detect_flash_size, _write_flash, leave.
  calm_step; [repeat calm_step|].
  calm_step; [calm_step|].
  calm_step; [calm_step|].
  calm_step.
  { destruct (negb (String.eqb (flash_size (resolve_compress a)) "keep"));
      [apply stays_calm_check_sizes | calm_step]. }
  calm_step; [calm_step|].
  calm_step; [apply stays_calm_write_images|].
  repeat calm_step.
Qed.

(** X8. [begin_flash] clears the cancellation flag before it does
    anything else: when no [abort_flash] is delivered while the job runs,
    the job ends with the flag clear, whatever the flag was when it
    started; a cancellation requested before the job is forgotten. *)
Theorem stale_cancellation_is_forgotten (firmware : Firmware) (w : World) :
  (forall k, pumps w <= k -> abort_delivered k = false) ->
  _is_abort (snd (begin_flash firmware w)) = false.
Proof.
  intros Hquiet.
  assert (Hcalm : calm (mkWorld false (trace w) (pumps w))) by (split; auto).
  assert (Hjob : preserves stays_calm
                   (session <- connect (port firmware) ;;
                    match session with
                    | None => ret tt
                    | Some esp =>
                        write_flash esp firmware ;;
                        emit (flash_result_sig 0 "成功") ;;
                        call close_serial
                    end)).
  { unfold connect.
    calm_step; [repeat calm_step|].
    destruct a as [esp|]; [|calm_step].
    calm_step; [apply stays_calm_write_flash | repeat calm_step]. }
  apply (Hjob _ Hcalm).
Qed.

End Calm.

(** ** A job that was not cancelled *)

Lemma signals_nil_no_result d : signals d = [] -> Forall no_result d.
Proof.
  induction d as [|a d IH]; intros H; [constructor|].
  destruct a as [s| |]; simpl in H; try discriminate;
    (constructor; [exact I | apply IH, H]).
Qed.

Lemma quiet_refl w : quiet_unless_cancelled w w.
Proof. intros H. split; [exact H | apply only_refl]. Qed.

Lemma quiet_trans w1 w2 w3 :
  quiet_unless_cancelled w1 w2 -> quiet_unless_cancelled w2 w3 ->
  quiet_unless_cancelled w1 w3.
Proof.
  intros H12 H23 H3. destruct (H23 H3) as [H2 O23].
  destruct (H12 H2) as [H1 O12]. split; [exact H1|].
  eapply only_trans; eassumption.
Qed.

Lemma quiet_record a w : no_result a -> quiet_unless_cancelled w (record a w).
Proof. intros Ha H. split; [exact H | apply only_record, Ha]. Qed.

Section Uncancelled.

Context {lib : Library} {env : Environment}.

Ltac quiet_step := preserves_step quiet_refl quiet_trans quiet_record.

Lemma quiet_write_blocks esp args address blocks fuel image seq written :
  preserves quiet_unless_cancelled
            (write_blocks esp args address blocks fuel image seq written).
Proof.
  revert image seq written.
  induction fuel as [|fuel IH]; intros image seq written w;
    (destruct image as [|b image']; [apply quiet_refl|]).
  - apply quiet_refl.
  - destruct (write_blocks_step esp args address blocks fuel b image' seq written w)
      as [(_ & F & _) | [(e & _ & [F | (_ & F & d & E & S & _)]) | (percent & F & _ & E)]];
      cbv zeta in *.
    + intros H. congruence.
    + intros H. congruence.
    + intros _. split; [exact F|]. exists d. split; [exact E|].
      apply signals_nil_no_result, S.
    + rewrite E. eapply quiet_trans; [|apply IH].
      intros _. split; [exact F|].
      eexists. split; [reflexivity|]. repeat constructor.
Qed.

Lemma quiet_write_image esp args address argfile :
  preserves quiet_unless_cancelled (write_image esp args address argfile).
Proof.
  unfold write_image, verify.
  quiet_step; [repeat quiet_step|].
  destruct (Nat.eqb (length (pad_to argfile (alignment args))) 0);
    [repeat quiet_step|].
  quiet_step; [repeat quiet_step|]. destruct a0 as [image blocks].
  quiet_step; [apply quiet_write_blocks|].
  repeat quiet_step.
Qed.

Lemma quiet_write_images esp args files :
  preserves quiet_unless_cancelled (write_images esp args files).
Proof.
  induction files as [|[address argfile] rest IH]; simpl.
  - quiet_step.
  - quiet_step; [apply quiet_write_image|].
    destruct a; [quiet_step | exact IH].
Qed.

Lemma quiet_check_sizes flash_end files :
  preserves quiet_unless_cancelled (check_sizes flash_end files).
Proof.
  induction files as [|[address argfile] rest IH]; simpl.
  - quiet_step.
  - destruct (address + Z.of_nat (length argfile) >? flash_end)%Z; [|exact IH].
    repeat quiet_step.
Qed.

Lemma quiet_configure esp args :
  preserves quiet_unless_cancelled (configure_flash_size esp args).
Proof. unfold configure_flash_size, detect_flash_size. repeat quiet_step. Qed.

Lemma run_preserves (R : World -> World -> Prop) {A} (m : M A) w o w' :
  preserves R m -> m w = (o, w') -> R w w'.
Proof. intros Hm E. specialize (Hm w). rewrite E in Hm. exact Hm. Qed.

(** When [leave] returns it has added exactly [leave_trace]. *)
Lemma leave_run esp args w w' :
  leave esp args w = (Return tt, w') ->
  trace w' = trace w ++ leave_trace esp args.
Proof.
  unfold leave, leave_trace, bind, print, call, call_for, ret.
  destruct (IS_STUB esp); simpl.
  - destruct (esp_raises _ (flash_begin 0 0)); [discriminate|].
    destruct (truthy (compress args)); simpl;
      match goal with
      | |- context [esp_raises ?t ?c] => destruct (esp_raises t c)
      end; try discriminate;
      intros E; inversion E; subst; simpl; rewrite <- !app_assoc; reflexivity.
  - intros E. inversion E; subst. reflexivity.
Qed.

(** A [_write_flash] that returns with the flag clear has emitted no
    result signal and has ended with [leave]. *)
Lemma _write_flash_uncancelled esp args w w' :
  _write_flash esp args w = (Return tt, w') ->
  _is_abort w' = false ->
  _is_abort w = false /\
  exists pre,
    trace w' = trace w ++ pre ++ leave_trace esp (resolve_compress args) /\
    results pre = [].
Proof.
  unfold _write_flash. set (args' := resolve_compress args). intros Hrun Hflag.
  run_bind Hrun u0 w0 E0. inversion E0; subst u0 w0; clear E0.
  run_bind Hrun u1 w1 E1.
  assert (Q1 : quiet_unless_cancelled
                 (record (Stdout (ArgsDump "before size change:")) w) w1).
  { eapply run_preserves; [|exact E1].
    destruct (negb (String.eqb (flash_size args') "keep"));
      [apply quiet_check_sizes | quiet_step]. }
  run_bind Hrun u2 w2 E2. inversion E2; subst u2 w2; clear E2.
  run_bind Hrun returned w3 E3.
  pose proof (write_images_exit _ _ _ _ _ _ E3) as Hexit.
  pose proof (run_preserves _ _ _ _ _ (quiet_write_images esp args' _) E3) as Q3.
  destruct returned.
  - inversion Hrun; subst w'. destruct Hexit as [Htrue _]. congruence.
  - pose proof (run_flag _ _ _ _ (keeps_flag_leave esp args') Hrun) as F3.
    apply leave_run in Hrun.
    destruct (Q3 ltac:(congruence)) as [F2 (d3 & T3 & N3)].
    destruct (Q1 F2) as [F0 (d1 & T1 & N1)].
    split; [exact F0|].
    exists ([Stdout (ArgsDump "before size change:")] ++ d1
            ++ [Stdout (ArgsDump "Arguments:[")] ++ d3).
    split.
    + rewrite Hrun, T3. simpl trace. rewrite T1. simpl trace.
      rewrite <- !app_assoc. reflexivity.
    + rewrite !results_app, (no_result_nil _ N1), (no_result_nil _ N3).
      reflexivity.
Qed.

Lemma configure_flash_size_compress esp args w args' w' :
  configure_flash_size esp args w = (Return args', w') ->
  resolve_compress args' = with_flash_size (flash_size args') (resolve_compress args).
Proof.
  unfold configure_flash_size, detect_flash_size, bind, print, call, call_for, ret, raise.
  destruct (String.eqb (flash_size args) "detect").
  - destruct (esp_raises _ report_flash_size); [discriminate|].
    destruct (esp_flash_size _) as [size|]; [|discriminate].
    destruct (negb _); [destruct (esp_raises _ _); [discriminate|]|];
      intros E; inversion E; subst;
      destruct args as [[[|]|] [|] [|] e fs fm ff files]; reflexivity.
  - destruct (negb _); [destruct (esp_raises _ _); [discriminate|]|];
      intros E; inversion E; subst;
      destruct args' as [[[|]|] [|] [|] e fs fm ff files]; reflexivity.
Qed.

(** How [connect] ends when the handler ran (lines 68-71). *)
Lemma connect_none p w w1 :
  connect p w = (Return None, w1) ->
  _is_abort w1 = _is_abort w /\
  exists pre,
    trace w1 = trace w ++ pre
               ++ [Emit (console_sig
                           "串口读写失败，请检查是否有其他程序占用了指定串口");
                   Emit (flash_result_sig 1 "串口读写失败")] /\
    signals pre = [].
Proof.
  unfold connect, try_except, bind, call, call_for, ret, show_log, emit, raise.
  destruct (esp_raises (trace w) (detect_chip p FLASH_BAUD)) as [e|].
  - destruct (is_SerialException e); simpl; [|discriminate].
    intros E. inversion E; subst. split; [reflexivity|].
    exists [Call (detect_chip p FLASH_BAUD)]. simpl.
    rewrite <- !app_assoc. auto.
  - destruct (esp_raises _ run_stub) as [e|]; simpl; [|discriminate].
    destruct (is_SerialException e); simpl; [|discriminate].
    intros E. inversion E; subst. split; [reflexivity|].
    exists [Call (detect_chip p FLASH_BAUD); Call run_stub]. simpl.
    rewrite <- !app_assoc. auto.
Qed.

(** X9. A job that returns without having been cancelled has emitted
    exactly one result signal.  Either the port could not be opened: the
    job logged it and ended with the result [(1, "串口读写失败")]; or the
    transfer ran: the job ended with [leave] (the finalization on a stub
    loader), then the result [(0, "成功")], then [close_serial]. *)
Theorem uncancelled_job_reports_once (firmware : Firmware) (w w' : World) :
  begin_flash firmware w = (Return tt, w') ->
  _is_abort w' = false ->
  exists pre,
    results pre = [] /\
    (trace w' = trace w ++ pre
                ++ [Emit (console_sig
                            "串口读写失败，请检查是否有其他程序占用了指定串口");
                    Emit (flash_result_sig 1 "串口读写失败")]
     \/
     trace w' = trace w ++ pre
                ++ leave_trace stub_loader (resolve_compress (job_args firmware))
                ++ success_tail).
Proof.
  unfold begin_flash. intros Hrun Hflag.
  run_bind Hrun u0 w0 E0. inversion E0; subst u0 w0; clear E0.
  run_bind Hrun session w1 E1.
  destruct session as [esp|].
  - pose proof (connect_stub _ _ _ _ E1) as ->.
    pose proof (connect_some _ _ _ _ E1) as (d1 & T1 & N1).
    run_bind Hrun u2 w2 E2. destruct u2.
    run_bind Hrun u3 w3 E3. inversion E3; subst u3 w3; clear E3.
    assert (F2 : _is_abort w2 = false).
    { apply run_flag in Hrun; [|apply keeps_flag_call]. simpl in Hrun. congruence. }
    assert (T' : trace w' = trace w2 ++ success_tail).
    { unfold call, call_for in Hrun.
      destruct (esp_raises _ close_serial); inversion Hrun; subst w'.
      simpl. rewrite <- app_assoc. reflexivity. }
    unfold write_flash in E2.
    run_bind E2 args w4 E4.
    pose proof (run_preserves _ _ _ _ _ (quiet_configure _ _) E4) as Q4.
    pose proof (configure_flash_size_compress _ _ _ _ _ E4) as Hargs.
    run_bind E2 u5 w5 E5. inversion E5; subst u5 w5; clear E5.
    destruct (_write_flash_uncancelled _ _ _ _ E2 F2) as (F5 & d5 & T5 & N5).
    destruct (Q4 F5) as (_ & d4 & T4 & N4).
    exists (d1 ++ d4 ++ [Stdout (ArgsDump "Args: ")] ++ d5).
    split.
    + rewrite !results_app, (no_result_nil _ N1), (no_result_nil _ N4), N5.
      reflexivity.
    + right. rewrite T', T5. simpl trace. rewrite T4, T1. simpl trace.
      rewrite Hargs. unfold leave_trace.
      replace (compress (with_flash_size (flash_size args)
                                         (resolve_compress (job_args firmware))))
        with (compress (resolve_compress (job_args firmware))) by reflexivity.
      rewrite <- !app_assoc. reflexivity.
  - inversion Hrun; subst w'.
    destruct (connect_none _ _ _ E1) as (_ & pre & T & S).
    exists pre. split.
    + apply no_result_nil, signals_nil_no_result, S.
    + left. exact T.
Qed.

End Uncancelled.

(** ** What a cancelled job leaves out *)

Section Skipped.

Context {lib : Library} {env : Environment}.

#[local] Hint Extern 1 (no_closing_call _) => first [exact I | reflexivity] : emits.

Lemma emits_closing_write_blocks esp args address blocks fuel image seq written :
  emits no_closing_call
        (write_blocks esp args address blocks fuel image seq written).
Proof.
  revert image seq written.
  induction fuel as [|fuel IH]; intros image seq written;
    (destruct image as [|b image']; [simpl; auto with emits|]).
  - simpl. auto with emits.
  - rewrite write_blocks_S. cbv zeta.
    apply emits_bind; [auto with emits | intros _].
    apply emits_bind; [auto with emits | intros aborted].
    destruct aborted; [repeat emits_step|].
    apply emits_bind; [auto with emits | intros percent].
    apply emits_bind; [auto with emits | intros _].
    apply emits_bind; [repeat emits_step | intros block].
    apply emits_bind; [auto with emits | intros _].
    apply IH.
Qed.

(** If the flag gets set while one image is written, nothing was
    verified. *)
Lemma write_image_cancelled esp args address argfile w o w' :
  write_image esp args address argfile w = (o, w') ->
  _is_abort w = false -> _is_abort w' = true ->
  only no_closing_call w w'.
Proof.
  unfold write_image. intros Hrun F0 F'.
  unfold bind at 1 in Hrun.
  destruct ((if no_stub args then print ErasingFlash else ret tt) w)
    as [o1 w1] eqn:E1.
  assert (F1 : _is_abort w1 = false).
  { rewrite <- F0. eapply run_flag; [|exact E1]. repeat flag_step. }
  assert (O1 : only no_closing_call w w1).
  { eapply run_only; [|exact E1]. repeat emits_step. }
  destruct o1 as [u| |]; [|inversion Hrun; subst; congruence ..].
  destruct (Nat.eqb (length (pad_to argfile (alignment args))) 0).
  { inversion Hrun; subst; congruence. }
  unfold bind at 1 in Hrun.
  match type of Hrun with
  | (let (_, _) := ?m w1 in _) = _ => destruct (m w1) as [o2 w2] eqn:E2
  end.
  assert (F2 : _is_abort w2 = false).
  { rewrite <- F1. eapply run_flag; [|exact E2]. repeat flag_step. }
  assert (O2 : only no_closing_call w1 w2).
  { eapply run_only; [|exact E2]. repeat emits_step. }
  destruct o2 as [[image blocks]| |]; [|inversion Hrun; subst; congruence ..].
  unfold bind at 1 in Hrun.
  match type of Hrun with
  | (let (_, _) := ?m w2 in _) = _ => destruct (m w2) as [o3 w3] eqn:E3
  end.
  pose proof (run_only _ _ _ _ _ (emits_closing_write_blocks _ _ _ _ _ _ _ _) E3)
    as O3.
  pose proof (write_blocks_exit _ _ _ _ _ _ _ _ _ _ _ E3) as X3.
  assert (O : only no_closing_call w w3).
  { eapply only_trans; [exact O1|]. eapply only_trans; eassumption. }
  destruct o3 as [[n|]| |]; [|inversion Hrun; subst; exact O ..].
  exfalso. unfold exit_facts in X3.
  unfold bind at 1 in Hrun. unfold print at 1 in Hrun.
  unfold bind at 1 in Hrun.
  match type of Hrun with
  | (let (_, _) := ?m ?w4 in _) = _ => destruct (m w4) as [o5 w5] eqn:E5
  end.
  assert (F5 : _is_abort w5 = false).
  { apply run_flag in E5.
    - rewrite E5. simpl. congruence.
    - destruct (negb (encrypt args));
        [apply keeps_flag_verify | apply keeps_flag_ret]. }
  destruct o5; inversion Hrun; subst; congruence.
Qed.

(** The same for [_write_flash] on a single image. *)
Lemma _write_flash_cancelled esp args address argfile w o w' :
  addr_filename args = [(address, argfile)] ->
  _write_flash esp args w = (o, w') ->
  _is_abort w = false -> _is_abort w' = true ->
  only no_closing_call w w'.
Proof.
  unfold _write_flash. rewrite resolve_compress_files.
  set (args' := resolve_compress args). intros Hfiles Hrun F0 F'.
  rewrite Hfiles in Hrun.
  unfold bind at 1 in Hrun. unfold print at 1 in Hrun.
  set (w0 := record (Stdout (ArgsDump "before size change:")) w) in Hrun.
  unfold bind at 1 in Hrun.
  match type of Hrun with
  | (let (_, _) := ?m w0 in _) = _ => destruct (m w0) as [o1 w1] eqn:E1
  end.
  assert (K1 : keeps_flag
                 (if negb (String.eqb (flash_size args') "keep")
                  then check_sizes (flash_size_bytes (flash_size args'))
                                   [(address, argfile)]
                  else ret tt)).
  { destruct (negb _); [apply keeps_flag_check_sizes | apply keeps_flag_ret]. }
  assert (F1 : _is_abort w1 = false).
  { rewrite (run_flag _ _ _ _ K1 E1). exact F0. }
  assert (O1 : only no_closing_call w0 w1).
  { eapply run_only; [|exact E1].
    destruct (negb _); [|auto with emits].
    simpl check_sizes. unfold BytesIO_name. repeat emits_step. }
  destruct o1 as [u| |]; [|inversion Hrun; subst; congruence ..].
  unfold bind at 1 in Hrun. unfold print at 1 in Hrun.
  set (w2 := record (Stdout (ArgsDump "Arguments:[")) w1) in Hrun.
  simpl write_images in Hrun.
  unfold bind at 1 2 in Hrun.
  destruct (write_image esp args' address argfile w2) as [o3 w3] eqn:E3.
  pose proof (write_image_exit _ _ _ _ _ _ _ E3) as X3.
  assert (O : only no_closing_call w w3 -> only no_closing_call w w3) by auto.
  assert (O3 : _is_abort w3 = true -> only no_closing_call w w3).
  { intros F3.
    apply (only_trans _ _ w0); [apply only_record; exact I|].
    apply (only_trans _ _ w1); [exact O1|].
    apply (only_trans _ _ w2); [apply only_record; exact I|].
    eapply write_image_cancelled; [exact E3 | exact F1 | exact F3]. }
  destruct o3 as [[|]| |].
  - inversion Hrun; subst. auto.
  - exfalso. unfold exit_facts in X3. simpl in X3.
    unfold ret at 1 in Hrun.
    apply (run_flag _ _ _ _ (keeps_flag_leave esp args')) in Hrun.
    congruence.
  - inversion Hrun; subst. auto.
  - inversion Hrun; subst. auto.
Qed.

(** X10. However a cancelled job ends, it has asked for no checksum and
    has sent no finish command: what was written before the
    cancellation is neither verified nor closed on the device. *)
Theorem cancelled_job_skips_verification (firmware : Firmware) (w : World)
        (o : outcome unit) (w' : World) :
  begin_flash firmware w = (o, w') ->
  _is_abort w' = true ->
  exists d, trace w' = trace w ++ d /\ Forall no_closing_call d.
Proof.
  unfold begin_flash. intros Hrun F'.
  unfold bind at 1 in Hrun. unfold set_is_abort at 1 in Hrun.
  set (w0 := mkWorld false (trace w) (pumps w)) in Hrun.
  change (only no_closing_call w0 w').
  unfold bind at 1 in Hrun.
  destruct (connect (port firmware) w0) as [o1 w1] eqn:E1.
  assert (F1 : _is_abort w1 = false).
  { apply (run_flag _ _ _ _ (keeps_flag_connect _)) in E1. exact E1. }
  assert (O1 : only no_closing_call w0 w1).
  { eapply run_only; [|exact E1]. unfold connect, show_log. repeat emits_step. }
  destruct o1 as [[esp|]| |]; [|inversion Hrun; subst; congruence ..].
  unfold bind at 1 in Hrun.
  destruct (write_flash esp firmware w1) as [o2 w2] eqn:E2.
  assert (O2 : _is_abort w2 = true -> only no_closing_call w1 w2).
  { intros F2. unfold write_flash in E2.
    unfold bind at 1 in E2.
    destruct (configure_flash_size esp (job_args firmware) w1)
      as [o3 w3] eqn:E3.
    assert (F3 : _is_abort w3 = false).
    { rewrite (run_flag _ _ _ _ (keeps_flag_configure _ _) E3). exact F1. }
    assert (O3 : only no_closing_call w1 w3).
    { eapply run_only; [|exact E3].
      unfold configure_flash_size, detect_flash_size. repeat emits_step. }
    destruct o3 as [args| |]; [|inversion E2; subst; congruence ..].
    apply configure_flash_size_files in E3.
    unfold bind at 1 in E2. unfold print at 1 in E2.
    apply (only_trans _ _ w3); [exact O3|].
    apply (only_trans _ _ (record (Stdout (ArgsDump "Args: ")) w3));
      [apply only_record; exact I|].
    eapply _write_flash_cancelled; [exact E3 | exact E2 | exact F3 | exact F2]. }
  assert (T : forall w3, _is_abort w3 = true -> only no_closing_call w2 w3 ->
                         only no_closing_call w0 w3).
  { intros w3 F3 O3. eapply only_trans; [exact O1|].
    eapply only_trans; [|exact O3]. apply O2.
    destruct (_is_abort w2) eqn:F2; [reflexivity|]. exfalso.
    destruct o2 as [u| |]; [|inversion Hrun; subst; congruence ..].
    unfold bind at 1 in Hrun. unfold emit at 1 in Hrun.
    apply run_flag in Hrun; [|apply keeps_flag_call].
    simpl in Hrun. congruence. }
  destruct o2 as [u| |];
    [|inversion Hrun; subst; apply T; [exact F' | apply only_refl] ..].
  unfold bind at 1 in Hrun. unfold emit at 1 in Hrun.
  apply T; [exact F'|].
  apply (only_trans _ _ (record (Emit (flash_result_sig 0 "成功")) w2));
    [apply only_record; exact I|].
  eapply run_only; [|exact Hrun]. auto with emits.
Qed.

End Skipped.

(** ** Failures to open the port, sizes, progress totals *)

Section Edges.

Context {lib : Library} {env : Environment}.

(** X11. Only [SerialException] is handled when the session is opened.
    When [detect_chip] or [run_stub] raises anything else, for instance
    the [FatalError] of a chip that does not answer, [begin_flash] ends
    with that exception: it has emitted no signal, so no result is ever
    reported, and it has not closed the port. *)
Theorem connect_failure_unreported (firmware : Firmware) (w : World) (e : exn) :
  is_SerialException e = false ->
  esp_raises (trace w) (detect_chip (port firmware) FLASH_BAUD) = Some e \/
  (esp_raises (trace w) (detect_chip (port firmware) FLASH_BAUD) = None /\
   esp_raises (trace w ++ [Call (detect_chip (port firmware) FLASH_BAUD)])
              run_stub = Some e) ->
  exists d,
    begin_flash firmware w
    = (Raise e, mkWorld false (trace w ++ d) (pumps w)) /\
    signals d = [] /\
    ~ In close_serial (calls d).
Proof.
  intros Hother Hraise.
  unfold begin_flash, connect, try_except, bind, set_is_abort, call, call_for.
  simpl trace.
  destruct Hraise as [H1 | [H1 H2]]; rewrite H1; simpl.
  - rewrite Hother. unfold raise.
    exists [Call (detect_chip (port firmware) FLASH_BAUD)].
    split; [reflexivity|]. split; [reflexivity|].
    simpl. intros [H|[]]. discriminate.
  - rewrite H2. simpl. rewrite Hother. unfold raise.
    exists [Call (detect_chip (port firmware) FLASH_BAUD); Call run_stub].
    split; [unfold record; simpl; rewrite <- app_assoc; reflexivity|].
    split; [reflexivity|].
    simpl. intros [H|[H|[]]]; discriminate.
Qed.

(** X12. The size check passes, leaving no trace, exactly when every
    file ends at or below the end of the flash: a file that ends exactly
    at the end is accepted. *)
Theorem size_check_is_inclusive (flash_end : Z) (files : list (Z * bytes))
        (w : World) :
  check_sizes flash_end files w = (Return tt, w) <->
  Forall (fun file => (fst file + Z.of_nat (length (snd file)) <= flash_end)%Z)
         files.
Proof.
  split.
  - intros Hrun. apply Forall_forall. intros [address argfile] Hin. simpl.
    destruct (Z.le_gt_cases (address + Z.of_nat (length argfile)) flash_end)
      as [Hle|Hgt]; [exact Hle|].
    rewrite (check_sizes_oversize flash_end files w) in Hrun; [discriminate|].
    exists address, argfile. auto.
  - intros Hall. apply check_sizes_fit.
    intros (address & argfile & Hin & Hbig).
    rewrite Forall_forall in Hall. specialize (Hall _ Hin). simpl in Hall. lia.
Qed.

#[local] Hint Extern 1 (positive_total _) => first [exact I | simpl; lia] : emits.

Lemma emits_positive_write_blocks esp args address blocks fuel image seq written :
  emits positive_total
        (write_blocks esp args address blocks fuel image seq written).
Proof.
  revert image seq written.
  induction fuel as [|fuel IH]; intros image seq written;
    (destruct image as [|b image']; [simpl; auto with emits|]).
  - simpl. auto with emits.
  - rewrite write_blocks_S. cbv zeta.
    apply emits_bind; [auto with emits | intros _].
    apply emits_bind; [auto with emits | intros aborted].
    destruct aborted; [repeat emits_step|].
    apply emits_bind; [auto with emits | intros percent].
    apply emits_bind; [auto with emits | intros _].
    apply emits_bind; [repeat emits_step | intros block].
    apply emits_bind; [apply emits_emit; simpl; lia | intros _].
    apply IH.
Qed.

Lemma emits_positive_write_image esp args address argfile :
  emits positive_total (write_image esp args address argfile).
Proof.
  unfold write_image, verify, BytesIO_name.
  emits_step; [repeat emits_step|].
  emits_step; [repeat emits_step|].
  emits_step; [repeat emits_step|].
  destruct a0 as [image blocks].
  emits_step; [apply emits_positive_write_blocks|].
  repeat emits_step.
Qed.

Lemma emits_positive_write_images esp args files :
  emits positive_total (write_images esp args files).
Proof.
  induction files as [|[address argfile] rest IH]; simpl; [auto with emits|].
  apply emits_bind; [apply emits_positive_write_image|].
  intros returned. destruct returned; [auto with emits | exact IH].
Qed.

Lemma emits_positive_check_sizes flash_end files :
  emits positive_total (check_sizes flash_end files).
Proof.
  induction files as [|[address argfile] rest IH]; simpl; [auto with emits|].
  destruct (address + Z.of_nat (length argfile) >? flash_end)%Z; [|exact IH].
  unfold BytesIO_name. repeat emits_step.
Qed.

Lemma emits_positive__write_flash esp args :
  emits positive_total (_write_flash esp args).
Proof.
  unfold _write_flash, leave.
  emits_step; [auto with emits|].
  emits_step.
  { destruct (negb _); [apply emits_positive_check_sizes | auto with emits]. }
  emits_step; [auto with emits|].
  emits_step; [apply emits_positive_write_images|].
  repeat emits_step.
Qed.

Lemma emits_positive_begin_flash firmware :
  emits positive_total (begin_flash firmware).
Proof.
  unfold begin_flash, connect, show_log, write_flash.
  emits_step; [auto with emits|].
  emits_step; [repeat emits_step|].
  destruct a0 as [esp|]; [|auto with emits].
  emits_step; [|repeat emits_step].
  emits_step; [apply emits_configure; intros; exact I|].
  emits_step; [auto with emits|].
  apply emits_positive__write_flash.
Qed.

(** X13. Every progress signal of a job carries a positive second
    component, whatever the device does and however the job ends: the
    write loop emits it only while the rest of the image is not empty. *)
Theorem progress_totals_are_positive (firmware : Firmware) (w : World) :
  exists d,
    trace (snd (begin_flash firmware w)) = trace w ++ d /\
    Forall (fun p => 0 < snd p) (progress d).
Proof.
  destruct (emits_positive_begin_flash firmware w) as (d & T & P).
  exists d. split; [exact T|].
  clear T. induction P as [|a d Ha P IH]; [constructor|].
  destruct a as [[written total| |]| |]; simpl; try exact IH.
  constructor; [exact Ha | exact IH].
Qed.

(** *** Where the signals of a job end *)

Lemma write_blocks_returned esp args address blocks fuel image seq written w w' :
  write_blocks esp args address blocks fuel image seq written w
  = (Return LoopReturn, w') ->
  exists pre, trace w' = trace w ++ pre ++ abort_tail.
Proof.
  revert image seq written w.
  induction fuel as [|fuel IH]; intros image seq written w Hrun;
    (destruct image as [|b image']; [inversion Hrun|]).
  - inversion Hrun.
  - destruct (write_blocks_step esp args address blocks fuel b image' seq written w)
      as [(_ & _ & pre & T & _) | [(e & R & _) | (percent & _ & _ & E)]];
      cbv zeta in *.
    + rewrite Hrun in T. exists pre. exact T.
    + rewrite Hrun in R. discriminate.
    + rewrite Hrun in E. symmetry in E. apply IH in E.
      destruct E as (pre & T). unfold after_block in T. simpl trace in T.
      match type of T with
      | _ = (_ ++ ?l) ++ _ => exists (l ++ pre)
      end.
      rewrite T, <- !app_assoc. reflexivity.
Qed.

Lemma write_image_returned esp args address argfile w w' :
  write_image esp args address argfile w = (Return true, w') ->
  exists pre, trace w' = trace w ++ pre ++ abort_tail.
Proof.
  unfold write_image. intros Hrun.
  run_bind Hrun u w1 E1.
  assert (O1 : only positive_total w w1).
  { eapply run_only; [|exact E1]. repeat emits_step. }
  destruct (Nat.eqb (length (pad_to argfile (alignment args))) 0).
  { unfold bind, BytesIO_name, raise in Hrun. discriminate. }
  run_bind Hrun p w2 E2. destruct p as [image blocks].
  assert (O2 : only positive_total w1 w2).
  { eapply run_only; [|exact E2]. repeat emits_step. }
  run_bind Hrun exit w3 E3.
  destruct exit as [n|].
  - unfold bind at 1 in Hrun. unfold print at 1 in Hrun.
    unfold bind at 1 in Hrun.
    match type of Hrun with
    | (let (_, _) := ?m ?w4 in _) = _ => destruct (m w4) as [[u5|e5|] w5]
    end; discriminate.
  - inversion Hrun; subst w'. apply write_blocks_returned in E3.
    destruct E3 as (pre & T3). destruct O1 as (d1 & T1 & _).
    destruct O2 as (d2 & T2 & _).
    exists (d1 ++ d2 ++ pre). rewrite T3, T2, T1, <- !app_assoc. reflexivity.
Qed.

Lemma write_images_returned esp args files w w' :
  write_images esp args files w = (Return true, w') ->
  exists pre, trace w' = trace w ++ pre ++ abort_tail.
Proof.
  revert w. induction files as [|[address argfile] rest IH]; intros w Hrun.
  - inversion Hrun.
  - simpl write_images in Hrun.
    run_bind Hrun returned w1 E1.
    destruct returned.
    + inversion Hrun; subst w'. eapply write_image_returned, E1.
    + pose proof (run_only _ _ _ _ _ (emits_positive_write_image _ _ _ _) E1)
        as (d1 & T1 & _).
      apply IH in Hrun. destruct Hrun as (pre & T).
      exists (d1 ++ pre). rewrite T, T1, <- !app_assoc. reflexivity.
Qed.

(** A job that returns cancelled has ended, within its own trace, with
    the two results and the two closings. *)
Lemma cancelled_job_tail firmware w w' :
  begin_flash firmware w = (Return tt, w') ->
  _is_abort w' = true ->
  exists pre,
    trace w' = trace w ++ pre ++ abort_tail ++ success_tail /\
    Forall positive_total pre.
Proof.
  intros Hrun Hflag.
  pose proof (run_only _ _ _ _ _ (emits_positive_begin_flash firmware) Hrun)
    as (d & Td & Pd).
  assert (H : exists pre, trace w' = trace w ++ pre ++ abort_tail ++ success_tail).
  { unfold begin_flash in Hrun.
    run_bind Hrun u0 w0 E0. inversion E0; subst u0 w0; clear E0.
    run_bind Hrun session w1 E1.
    pose proof (run_flag _ _ _ _ (keeps_flag_connect _) E1) as F1.
    simpl in F1.
    assert (O1 : only positive_total (mkWorld false (trace w) (pumps w)) w1).
    { eapply run_only; [|exact E1]. unfold connect, show_log. repeat emits_step. }
    destruct session as [esp|]; [|inversion Hrun; subst; congruence].
    run_bind Hrun u2 w2 E2.
    run_bind Hrun u3 w3 E3. inversion E3; subst u3 w3; clear E3.
    assert (F2 : _is_abort w2 = true).
    { apply run_flag in Hrun; [|apply keeps_flag_call]. simpl in Hrun. congruence. }
    assert (T' : trace w' = trace w2 ++ success_tail).
    { unfold call, call_for in Hrun.
      destruct (esp_raises _ close_serial); inversion Hrun; subst w'.
      simpl. rewrite <- app_assoc. reflexivity. }
    unfold write_flash in E2.
    run_bind E2 args w4 E4.
    pose proof (run_flag _ _ _ _ (keeps_flag_configure _ _) E4) as F4.
    assert (O4 : only positive_total w1 w4).
    { eapply run_only; [|exact E4]. apply emits_configure; intros; exact I. }
    run_bind E2 u5 w5 E5. inversion E5; subst u5 w5; clear E5.
    unfold _write_flash in E2.
    run_bind E2 u6 w6 E6. inversion E6; subst u6 w6; clear E6.
    run_bind E2 u7 w7 E7.
    assert (K7 : keeps_flag
                   (if negb (String.eqb (flash_size (resolve_compress args)) "keep")
                    then check_sizes
                           (flash_size_bytes (flash_size (resolve_compress args)))
                           (addr_filename (resolve_compress args))
                    else ret tt)).
    { destruct (negb _); [apply keeps_flag_check_sizes | apply keeps_flag_ret]. }
    pose proof (run_flag _ _ _ _ K7 E7) as F7. simpl in F7.
    assert (O7 : only positive_total
                      (record (Stdout (ArgsDump "before size change:"))
                              (record (Stdout (ArgsDump "Args: ")) w4)) w7).
    { eapply run_only; [|exact E7].
      destruct (negb _); [apply emits_positive_check_sizes | auto with emits]. }
    run_bind E2 u8 w8 E8. inversion E8; subst u8 w8; clear E8.
    run_bind E2 returned w9 E9.
    destruct returned.
    - inversion E2; subst w2. apply write_images_returned in E9.
      destruct E9 as (pre & T9). simpl trace in T9.
      destruct O1 as (d1 & T1 & _). destruct O4 as (d4 & T4 & _).
      destruct O7 as (d7 & T7 & _). simpl trace in T1, T7.
      exists (d1 ++ d4
              ++ [Stdout (ArgsDump "Args: ");
                  Stdout (ArgsDump "before size change:")]
              ++ d7 ++ [Stdout (ArgsDump "Arguments:[")] ++ pre).
      rewrite T', T9, T7, T4, T1, <- !app_assoc. reflexivity.
    - apply write_images_exit in E9. unfold exit_facts in E9. simpl in E9.
      apply (run_flag _ _ _ _ (keeps_flag_leave _ _)) in E2.
      congruence. }
  destruct H as (pre & T). exists pre. split; [exact T|].
  rewrite T in Td. apply app_inv_head in Td. subst d.
  apply Forall_app in Pd. apply Pd.
Qed.

(** A job that returns has emitted a result signal, and no signal after
    it. *)
Lemma returned_job_tail firmware w w' :
  begin_flash firmware w = (Return tt, w') ->
  exists pre code desc rest,
    trace w' = trace w ++ pre ++ Emit (flash_result_sig code desc) :: rest /\
    signals rest = [] /\
    Forall positive_total pre.
Proof.
  intros Hrun.
  pose proof (run_only _ _ _ _ _ (emits_positive_begin_flash firmware) Hrun)
    as (d & Td & Pd).
  assert (H : exists pre code desc rest,
             trace w' = trace w ++ pre ++ Emit (flash_result_sig code desc) :: rest /\
             signals rest = []).
  { unfold begin_flash in Hrun.
    run_bind Hrun u0 w0 E0. inversion E0; subst u0 w0; clear E0.
    run_bind Hrun session w1 E1.
    destruct session as [esp|].
    - assert (O1 : only positive_total (mkWorld false (trace w) (pumps w)) w1).
      { eapply run_only; [|exact E1]. unfold connect, show_log. repeat emits_step. }
      run_bind Hrun u2 w2 E2.
      assert (O2 : only positive_total w1 w2).
      { eapply run_only; [|exact E2]. unfold write_flash.
        emits_step; [apply emits_configure; intros; exact I|].
        emits_step; [auto with emits | apply emits_positive__write_flash]. }
      run_bind Hrun u3 w3 E3. inversion E3; subst u3 w3; clear E3.
      assert (T' : trace w' = trace w2 ++ success_tail).
      { unfold call, call_for in Hrun.
        destruct (esp_raises _ close_serial); inversion Hrun; subst w'.
        simpl. rewrite <- app_assoc. reflexivity. }
      destruct O1 as (d1 & T1 & _). destruct O2 as (d2 & T2 & _).
      simpl trace in T1.
      exists (d1 ++ d2), 0%Z, "成功", [Call close_serial].
      split; [|reflexivity].
      rewrite T', T2, T1, <- !app_assoc. reflexivity.
    - inversion Hrun; subst w'.
      destruct (connect_none _ _ _ E1) as (_ & pre & T & S).
      simpl trace in T.
      exists (pre ++ [Emit (console_sig
                              "串口读写失败，请检查是否有其他程序占用了指定串口")]),
        1%Z, "串口读写失败", [].
      split; [|reflexivity].
      rewrite T, <- !app_assoc. reflexivity. }
  destruct H as (pre & code & desc & rest & T & S).
  exists pre, code, desc, rest. split; [exact T|]. split; [exact S|].
  rewrite T in Td. apply app_inv_head in Td. subst d.
  apply Forall_app in Pd. apply Pd.
Qed.

End Edges.

(** ** Erasing *)

Lemma since_app {A} (before d : list A) : since before (before ++ d) = d.
Proof.
  unfold since. induction before as [|a before IH]; [reflexivity | exact IH].
Qed.

Section EraseFacts.

Variable erase_raises : list erase_action -> erase_action -> option exn.

(** The ways [erase_flash] can go: it reaches the erase and, unless the
    erase raises, runs to the end; the handler reports that the port
    could not be used; or an exception leaves it before any signal. *)
Lemma erase_flash_cases (port : string) (tr : list erase_action) :
  let run := erase_flash erase_raises port tr in
  exists d,
    snd run = tr ++ d /\
    ((d = erase_opening port ++ erase_body) \/
     (fst run = Return tt /\
      exists n, n < 3 /\ d = firstn (S n) (erase_opening port) ++ erase_failure) \/
     (exists e n, fst run = Raise e /\ n < 4 /\
                  d = firstn (S n) (erase_opening port ++ [esptool_erase_flash]))).
Proof.
  unfold erase_flash, st_bind, st_try, erase_call, erase_emit, st_modify, st_ret,
    st_raise.
  destruct (erase_raises tr (Shared (Call (detect_chip port FLASH_BAUD))))
    as [e|] eqn:E1.
  { destruct (is_SerialException e); simpl.
    - eexists. split; [rewrite <- !app_assoc; reflexivity|].
      right; left. split; [reflexivity|]. exists 0. split; [lia | reflexivity].
    - eexists. split; [reflexivity|].
      right; right. exists e, 0. repeat split; lia. }
  destruct (erase_raises (tr ++ [Shared (Call (detect_chip port FLASH_BAUD))]) read_mac)
    as [e|] eqn:E2.
  { destruct (is_SerialException e); simpl.
    - eexists. split; [rewrite <- !app_assoc; reflexivity|].
      right; left. split; [reflexivity|]. exists 1. split; [lia | reflexivity].
    - eexists. split; [rewrite <- !app_assoc; reflexivity|].
      right; right. exists e, 1. repeat split; lia. }
  destruct (erase_raises
              ((tr ++ [Shared (Call (detect_chip port FLASH_BAUD))]) ++ [read_mac])
              (Shared (Call run_stub))) as [e|] eqn:E3.
  { destruct (is_SerialException e); simpl.
    - eexists. split; [rewrite <- !app_assoc; reflexivity|].
      right; left. split; [reflexivity|]. exists 2. split; [lia | reflexivity].
    - eexists. split; [rewrite <- !app_assoc; reflexivity|].
      right; right. exists e, 2. repeat split; lia. }
  simpl.
  match goal with
  | |- context [erase_raises ?t esptool_erase_flash] =>
      destruct (erase_raises t esptool_erase_flash) as [e|] eqn:E4
  end.
  { eexists. split; [rewrite <- !app_assoc; reflexivity|].
    right; right. exists e, 3. repeat split; lia. }
  simpl.
  match goal with
  | |- context [erase_raises ?t (Shared (Call close_serial))] =>
      destruct (erase_raises t (Shared (Call close_serial))) as [e|] eqn:E5
  end; simpl; (eexists; split; [rewrite <- !app_assoc; reflexivity|]);
    left; reflexivity.
Qed.

End EraseFacts.

(** ** The window *)

Section Keeps.

Context {St : Type} (P : St -> Prop).

Lemma keeps_st_ret {A} (a : A) : keeps P (st_ret a).
Proof. intros s H. exact H. Qed.

Lemma keeps_st_raise {A} e : keeps P (@st_raise St A e).
Proof. intros s H. exact H. Qed.

Lemma keeps_st_get {A} (field : St -> A) : keeps P (st_get field).
Proof. intros s H. exact H. Qed.

Lemma keeps_st_modify (f : St -> St) :
  (forall s, P s -> P (f s)) -> keeps P (st_modify f).
Proof. intros Hf s H. apply Hf, H. Qed.

Lemma keeps_st_bind {A B} (m : ST St A) (k : A -> ST St B) :
  keeps P m -> (forall a, keeps P (k a)) -> keeps P (st_bind m k).
Proof.
  intros Hm Hk s H. unfold st_bind. specialize (Hm s H).
  destruct (m s) as [[a|e|] s']; simpl in *; [apply Hk, Hm | exact Hm | exact Hm].
Qed.

End Keeps.

(** Decompose a slot along its sequencing and branching; [fin] closes
    the goal that an assignment leaves. *)
Ltac keeps_step fin :=
  lazymatch goal with
  | |- keeps _ (st_bind _ _) => apply keeps_st_bind; [| intros ?]
  | |- keeps _ (st_ret _) => apply keeps_st_ret
  | |- keeps _ (st_raise _) => apply keeps_st_raise
  | |- keeps _ (st_get _) => apply keeps_st_get
  | |- keeps _ (st_modify _) => apply keeps_st_modify; intros ? ?; fin
  | |- keeps _ (if ?b then _ else _) => destruct b
  | |- keeps _ (match ?x with _ => _ end) => destruct x
  end.

Section WindowRules.

Variable P : Wnd.FlashMainWnd -> Prop.

Lemma keeps_deref r : keeps P (Wnd.deref r).
Proof.
  intros win H. unfold Wnd.deref. destruct (nth_error (Wnd.heap win) r); exact H.
Qed.

Lemma keeps_object firmware : keeps P (Wnd.object firmware).
Proof.
  destruct firmware as [r|]; simpl; [|apply keeps_st_ret].
  apply keeps_st_bind; [apply keeps_deref | intros d; apply keeps_st_ret].
Qed.

Lemma keeps_getitem firmware key : keeps P (Wnd.getitem firmware key).
Proof.
  destruct firmware as [r|]; simpl; [|apply keeps_st_raise].
  apply keeps_st_bind; [apply keeps_deref | intros d].
  destruct (Wnd.dict_get key d); [apply keeps_st_ret | apply keeps_st_raise].
Qed.

(** Steps that only touch the store of dictionaries. *)
Hypothesis P_heap : forall v win, P win -> P (Wnd.set_heap v win).

Lemma keeps_itemData_current : keeps P Wnd.itemData_current.
Proof.
  intros win H. unfold Wnd.itemData_current.
  destruct (Wnd.firm_index win) as [i|]; [|exact H].
  destruct (nth_error (Wnd.firm_box win) i) as [[title d]|]; [|exact H].
  apply P_heap, H.
Qed.

Lemma keeps_setitem firmware key v : keeps P (Wnd.setitem firmware key v).
Proof.
  destruct firmware as [r|]; simpl; [|apply keeps_st_raise].
  apply keeps_st_bind; [apply keeps_deref | intros d].
  apply keeps_st_modify. intros win H. apply P_heap, H.
Qed.

End WindowRules.

(** Decompose a slot of the window; [fin] closes the goal that an
    assignment leaves. *)
Ltac slot_step fin :=
  lazymatch goal with
  | |- keeps _ (Wnd.deref _) => apply keeps_deref
  | |- keeps _ (Wnd.object _) => apply keeps_object
  | |- keeps _ (Wnd.getitem _ _) => apply keeps_getitem
  | |- keeps _ Wnd.itemData_current =>
      apply keeps_itemData_current; intros ? ? ?; fin
  | |- keeps _ (Wnd.setitem _ _ _) => apply keeps_setitem; intros ? ? ?; fin
  | |- _ => keeps_step fin
  end.

Ltac unfold_slots :=
  unfold Wnd.handle, Wnd.deliver, Wnd.start_btn_clicked, Wnd.start_erase_clicked,
    Wnd.init_comports, Wnd.rom_load_completed, Wnd.download_firmware_completed,
    Wnd.go_flash, Wnd.go_abort, Wnd.download_firmware, Wnd.flash_result,
    Wnd.flash_progress, Wnd.sync_slot, Wnd.completed_erase, Wnd.action_state,
    Wnd.show_log, Wnd.print, Wnd.emit, Wnd.firm_box_addItem.

Section Buttons.

Context {lib : Library}.
Variable str_lower : string -> string.

Lemma label_matches_flash win :
  Wnd.label_matches (snd (Wnd.change_btn_to_flash win)).
Proof. left. split; reflexivity. Qed.

Lemma label_matches_abort win :
  Wnd.label_matches (snd (Wnd.change_btn_to_abort win)).
Proof. right. split; reflexivity. Qed.

Ltac label_step :=
  lazymatch goal with
  | |- keeps _ Wnd.change_btn_to_flash => intros ? _; apply label_matches_flash
  | |- keeps _ Wnd.change_btn_to_abort => intros ? _; apply label_matches_abort
  | |- _ => slot_step ltac:(simpl; assumption)
  end.

Lemma label_matches_add_firmwares rsp_obj :
  keeps Wnd.label_matches (Wnd.add_firmwares rsp_obj).
Proof.
  induction rsp_obj as [|firm rest IH]; simpl; [apply keeps_st_ret|].
  unfold Wnd.firm_box_addItem.
  label_step; [repeat label_step|].
  label_step; [label_step | exact IH].
Qed.

Lemma label_matches_handle ev :
  keeps Wnd.label_matches (Wnd.handle str_lower ev).
Proof.
  destruct ev as [| | device | ports | i | err rsp_obj | k err data | s].
  - unfold_slots. repeat label_step.
  - unfold_slots. repeat label_step.
  - unfold_slots. repeat label_step.
  - unfold_slots. repeat label_step.
  - unfold_slots. apply keeps_st_modify. intros w H.
    destruct (Nat.ltb _ _); simpl; assumption.
  - unfold Wnd.handle, Wnd.rom_load_completed, Wnd.print.
    label_step; [label_step | apply label_matches_add_firmwares].
  - unfold_slots. repeat label_step.
  - destruct s as [[written total|code desc|content]| |res];
      unfold_slots; repeat label_step.
Qed.

(** X14. The label of the start button always says what the next click
    does: once [init_btn] has run, whatever the user, the network and
    the worker send to the window, the state is ['FLASH'] under the label
    "开始" or ['ABORT'] under the label "终止", also after a slot was
    left by an exception. *)
Theorem button_label_matches_state (events : list Wnd.event)
        (win : Wnd.FlashMainWnd) :
  Wnd.label_matches
    (snd (Wnd.run str_lower events (snd (Wnd.init_btn win)))).
Proof.
  assert (H : forall w, Wnd.label_matches w ->
                        Wnd.label_matches (snd (Wnd.run str_lower events w))).
  { change (keeps Wnd.label_matches (Wnd.run str_lower events)).
    induction events as [|ev rest IH]; simpl; [apply keeps_st_ret|].
    apply keeps_st_bind; [apply label_matches_handle | intros _; exact IH]. }
  apply H. apply label_matches_flash.
Qed.

End Buttons.

Section EraseButton.

Context {lib : Library}.
Variable str_lower : string -> string.

Ltac disabled_step := slot_step ltac:(simpl; first [assumption | reflexivity]).

Lemma disabled_add_firmwares rsp_obj :
  keeps (fun win => Wnd.erasebtn win = false) (Wnd.add_firmwares rsp_obj).
Proof.
  induction rsp_obj as [|firm rest IH]; simpl; [apply keeps_st_ret|].
  unfold Wnd.firm_box_addItem.
  disabled_step; [repeat disabled_step|].
  disabled_step; [disabled_step | exact IH].
Qed.

Lemma disabled_handle ev :
  ev <> Wnd.Signal EraseCompleted ->
  keeps (fun win => Wnd.erasebtn win = false) (Wnd.handle str_lower ev).
Proof.
  intros Hev.
  destruct ev as [| | device | ports | i | err rsp_obj | k err data | s].
  - unfold_slots. unfold Wnd.change_btn_to_flash, Wnd.change_btn_to_abort.
    repeat disabled_step.
  - unfold_slots. repeat disabled_step.
  - unfold_slots. repeat disabled_step.
  - unfold_slots. repeat disabled_step.
  - unfold_slots. apply keeps_st_modify. intros w H.
    destruct (Nat.ltb _ _); simpl; assumption.
  - unfold Wnd.handle, Wnd.rom_load_completed, Wnd.print.
    disabled_step; [disabled_step | apply disabled_add_firmwares].
  - unfold_slots. repeat disabled_step.
  - destruct s as [[written total|code desc|content]| |res];
      [| | |contradiction|];
      unfold_slots; unfold Wnd.change_btn_to_flash; repeat disabled_step.
Qed.

(** X15. Nothing but the completion signal of the worker enables the
    erase button again: once it is disabled it stays so through every
    click, choice, reply and signal, as long as
    [complete_erase_flash_sig] has not been delivered. *)
Theorem erase_button_stays_disabled (events : list Wnd.event)
        (win : Wnd.FlashMainWnd) :
  Wnd.erasebtn win = false ->
  ~ In (Wnd.Signal EraseCompleted) events ->
  Wnd.erasebtn (snd (Wnd.run str_lower events win)) = false.
Proof.
  intros Hwin Hnone. revert win Hwin.
  change (keeps (fun win => Wnd.erasebtn win = false) (Wnd.run str_lower events)).
  induction events as [|ev rest IH]; simpl; [apply keeps_st_ret|].
  apply keeps_st_bind.
  - apply disabled_handle. intros ->. apply Hnone. left. reflexivity.
  - intros _. apply IH. intros Hin. apply Hnone. right. exact Hin.
Qed.

End EraseButton.

Section EraseShown.

Variable erase_raises : list erase_action -> erase_action -> option exn.

Lemma start_erase_clicked_run win :
  Wnd.com_box win <> "" ->
  Wnd.start_erase_clicked win
  = (Return tt,
     Wnd.set_erasebtn false
       (Wnd.set_sent (Wnd.sent win
                      ++ [Wnd.begin_erase_flash_sig (Wnd.com_box win)]) win)).
Proof.
  intros Hport. unfold Wnd.start_erase_clicked, st_bind, st_get.
  destruct (String.eqb (Wnd.com_box win) "") eqn:E;
    [apply String.eqb_eq in E; contradiction|].
  reflexivity.
Qed.

(** X16. An erase as the user sees it.  With a port chosen, a click on
    the erase button sends the request and disables the button; when the
    signals of the erase have been handled, the button is enabled again
    if and only if the erase went through all its steps.  After any
    failure, of the port, of the chip or of the erase itself, it is
    still disabled. *)
Theorem erase_button_needs_completion (win : Wnd.FlashMainWnd)
        (tr : list erase_action) :
  Wnd.com_box win <> "" ->
  let port := Wnd.com_box win in
  let clicked := snd (Wnd.start_erase_clicked win) in
  let d := since tr (snd (erase_flash erase_raises port tr)) in
  let shown := Wnd.deliver_all (erase_signals d) clicked in
  Wnd.sent clicked = Wnd.sent win ++ [Wnd.begin_erase_flash_sig port] /\
  Wnd.erasebtn clicked = false /\
  fst shown = Return tt /\
  (Wnd.erasebtn (snd shown) = true <-> d = erase_opening port ++ erase_body).
Proof.
  intros Hport port clicked d shown.
  subst shown clicked. rewrite (start_erase_clicked_run win Hport). cbn [snd].
  split; [reflexivity|]. split; [reflexivity|].
  destruct (erase_flash_cases erase_raises port tr)
    as (d' & E & [C | [(R & n & Hn & C) | (e & n & R & Hn & C)]]);
    cbv zeta in E;
    assert (Hd : d = d') by (unfold d; rewrite E; apply since_app);
    rewrite Hd, C; clear Hd C E d.
  - split; [reflexivity|]. split; [intros _; reflexivity | reflexivity].
  - destruct n as [|[|[|n]]]; try lia;
      (split; [reflexivity|]);
      (split; intros H; [simpl in H; discriminate H|]);
      unfold erase_opening, erase_failure, erase_body in H; simpl in H;
      discriminate H.
  - destruct n as [|[|[|[|n]]]]; try lia;
      (split; [reflexivity|]);
      (split; intros H; [simpl in H; discriminate H|]);
      unfold erase_opening, erase_failure, erase_body in H; simpl in H;
      discriminate H.
Qed.

(** X17. A failed erase is reported with the signal of a flash result.
    When [erase_flash] returns without the completion signal, the window
    logs the failure as a failed flash and puts the start button back
    to "开始", whatever it showed; the erase button is left disabled and
    the worker has not closed the port. *)
Theorem failed_erase_shown_as_failed_flash (win : Wnd.FlashMainWnd)
        (port : string) (tr : list erase_action) :
  let run := erase_flash erase_raises port tr in
  let d := since tr (snd run) in
  let shown := Wnd.deliver_all (erase_signals d) win in
  fst run = Return tt ->
  ~ In complete_erase_flash_sig d ->
  fst shown = Return tt /\
  Wnd.textOut (snd shown)
  = Wnd.textOut win
    ++ [Wnd.Text "串口读写失败，请检查是否有其他程序占用了指定串口";
        Wnd.FlashFailed "串口读写失败"] /\
  Wnd.btn_state (snd shown) = "FLASH" /\
  Wnd.gobtn (snd shown) = "开始" /\
  Wnd.erasebtn (snd shown) = Wnd.erasebtn win /\
  ~ In (Shared (Call close_serial)) d.
Proof.
  intros run d shown Hret Hnone.
  destruct (erase_flash_cases erase_raises port tr)
    as (d' & E & [C | [(R & n & Hn & C) | (e & n & R & Hn & C)]]);
    cbv zeta in E; fold run in E;
    assert (Hd : d = d') by (unfold d; rewrite E; apply since_app).
  - exfalso. apply Hnone. rewrite Hd, C. simpl. auto 10.
  - unfold shown. rewrite Hd, C.
    destruct n as [|[|[|n]]]; try lia; simpl;
      rewrite <- !app_assoc; repeat split; try reflexivity;
      intros H; repeat (destruct H as [H|H]; [discriminate H|]); exact H.
  - cbv zeta in R. fold run in R. rewrite R in Hret. discriminate.
Qed.

End EraseShown.

Section Clicks.

(** X18. A click on "开始" while no port is chosen starts nothing, yet
    it turns the button to "终止": the window logs the advice to choose
    a port, sends nothing to the worker and requests no download.  The
    next click then sends [abort_flash_sig] to a worker that has no job
    and turns the button back. *)
Theorem click_without_port (win : Wnd.FlashMainWnd) :
  Wnd.btn_state win = "FLASH" ->
  Wnd.com_box win = "" ->
  let once := Wnd.start_btn_clicked win in
  let twice := Wnd.start_btn_clicked (snd once) in
  fst once = Return tt /\
  Wnd.btn_state (snd once) = "ABORT" /\
  Wnd.gobtn (snd once) = "终止" /\
  Wnd.textOut (snd once)
  = Wnd.textOut win ++ [Wnd.Text "选定一个串口，然后烧录固件"] /\
  Wnd.sent (snd once) = Wnd.sent win /\
  Wnd.downloads (snd once) = Wnd.downloads win /\
  fst twice = Return tt /\
  Wnd.btn_state (snd twice) = "FLASH" /\
  Wnd.gobtn (snd twice) = "开始" /\
  Wnd.sent (snd twice) = Wnd.sent win ++ [Wnd.abort_flash_sig].
Proof.
  intros Hstate Hport once twice. subst once twice.
  destruct win; simpl in Hstate, Hport; subst.
  repeat split; reflexivity.
Qed.

(** X22. A click on "开始" with a port chosen but no firmware in the
    list ends in [TypeError]: [itemData] gives [None], which
    [download_firmware] subscripts.  The button has turned to "终止"
    before, and nothing was requested or sent. *)
Theorem click_without_firmware (win : Wnd.FlashMainWnd) :
  Wnd.btn_state win = "FLASH" ->
  Wnd.com_box win <> "" ->
  Wnd.firm_index win = None ->
  let once := Wnd.start_btn_clicked win in
  fst once = Raise Wnd.TypeError /\
  Wnd.btn_state (snd once) = "ABORT" /\
  Wnd.gobtn (snd once) = "终止" /\
  Wnd.sent (snd once) = Wnd.sent win /\
  Wnd.downloads (snd once) = Wnd.downloads win.
Proof.
  intros Hstate Hport Hnone once. subst once.
  destruct win; simpl in Hstate, Hport, Hnone; subst.
  unfold Wnd.start_btn_clicked, Wnd.action_state, Wnd.change_btn_to_abort,
    Wnd.go_flash, st_bind, st_get, st_modify. simpl.
  destruct (String.eqb com_box "") eqn:E;
    [apply String.eqb_eq in E; contradiction|].
  repeat split; reflexivity.
Qed.

End Clicks.

(** ** The jobs the window sends *)

Lemma dict_get_set_same key v d :
  Wnd.dict_get key (Wnd.dict_set key v d) = Some v.
Proof.
  induction d as [|[k v0] rest IH]; simpl.
  - rewrite String.eqb_refl. reflexivity.
  - destruct (String.eqb k key) eqn:E; simpl; rewrite E; [reflexivity | exact IH].
Qed.

Lemma dict_get_set_other key key' v d :
  key <> key' ->
  Wnd.dict_get key' (Wnd.dict_set key v d) = Wnd.dict_get key' d.
Proof.
  intros Hne. induction d as [|[k v0] rest IH]; simpl.
  - destruct (String.eqb key key') eqn:E; [|reflexivity].
    apply String.eqb_eq in E. contradiction.
  - destruct (String.eqb k key) eqn:E; simpl.
    + apply String.eqb_eq in E. subst k.
      destruct (String.eqb key key') eqn:E'; [|reflexivity].
      apply String.eqb_eq in E'. contradiction.
    + destruct (String.eqb k key'); [reflexivity | exact IH].
Qed.

Lemma nth_error_update_nth {A} (f : A -> A) (l : list A) (n m : nat) :
  nth_error (Wnd.update_nth n f l) m
  = if Nat.eqb n m then option_map f (nth_error l m) else nth_error l m.
Proof.
  revert n m. induction l as [|x rest IH]; intros n m.
  - destruct n, m; simpl; try reflexivity; destruct (Nat.eqb n m); reflexivity.
  - destruct n as [|n], m as [|m]; simpl; try reflexivity. apply IH.
Qed.

Lemma holds_port_grow h d cb :
  Wnd.holds_port h cb -> Wnd.holds_port (h ++ [d]) cb.
Proof.
  destruct cb as [r|]; [|auto]. intros (d0 & Hnth & Hport).
  exists d0. split; [|exact Hport].
  rewrite nth_error_app1; [exact Hnth|].
  apply nth_error_Some. congruence.
Qed.

Lemma holds_port_update h r f cb :
  (forall d, Wnd.names_port d -> Wnd.names_port (f d)) ->
  Wnd.holds_port h cb -> Wnd.holds_port (Wnd.update_nth r f h) cb.
Proof.
  intros Hf. destruct cb as [r'|]; [|auto]. intros (d0 & Hnth & Hport).
  destruct (Nat.eqb r r') eqn:E.
  - exists (f d0). rewrite nth_error_update_nth, E, Hnth. auto.
  - exists d0. rewrite nth_error_update_nth, E. auto.
Qed.

Lemma names_port_set_port device d :
  device <> "" -> Wnd.names_port (Wnd.dict_set "port" (Wnd.Str device) d).
Proof.
  intros Hne. exists device. split; [apply dict_get_set_same | exact Hne].
Qed.

Lemma names_port_set_body v d :
  Wnd.names_port d -> Wnd.names_port (Wnd.dict_set "body" v d).
Proof.
  intros (device & Hget & Hne). exists device. split; [|exact Hne].
  rewrite dict_get_set_other; [exact Hget | discriminate].
Qed.

Section Jobs.

Context {lib : Library}.
Variable str_lower : string -> string.

Ltac jobs_fin :=
  lazymatch goal with
  | H : Wnd.jobs_ok _ _ |- _ =>
      destruct H as [? ?]; split; simpl; assumption
  end.

Ltac jobs_step := slot_step ltac:(idtac; jobs_fin).

Lemma jobs_ok_change_btn_to_flash : keeps (Wnd.jobs_ok str_lower) Wnd.change_btn_to_flash.
Proof. unfold Wnd.change_btn_to_flash. repeat jobs_step. Qed.

Lemma jobs_ok_change_btn_to_abort : keeps (Wnd.jobs_ok str_lower) Wnd.change_btn_to_abort.
Proof. unfold Wnd.change_btn_to_abort. repeat jobs_step. Qed.

Lemma jobs_ok_emit r :
  Wnd.checked_job str_lower r -> keeps (Wnd.jobs_ok str_lower) (Wnd.emit r).
Proof.
  intros Hr. apply keeps_st_modify. intros win [Hsent Hpend].
  split; [|exact Hpend]. simpl. apply Forall_app. split; [exact Hsent|].
  constructor; [exact Hr | constructor].
Qed.

Lemma jobs_ok_add_firmwares rsp_obj : keeps (Wnd.jobs_ok str_lower) (Wnd.add_firmwares rsp_obj).
Proof.
  induction rsp_obj as [|firm rest IH]; simpl; [apply keeps_st_ret|].
  unfold Wnd.firm_box_addItem.
  jobs_step; [repeat jobs_step|].
  jobs_step; [jobs_step | exact IH].
Qed.

(** [go_flash] asks for the download first and names the port
    afterwards, in the dictionary that the callback holds. *)
Lemma jobs_ok_go_flash : keeps (Wnd.jobs_ok str_lower) Wnd.go_flash.
Proof.
  intros win Hinv. unfold Wnd.go_flash, st_bind at 1, st_get.
  destruct (String.eqb (Wnd.com_box win) "") eqn:Edev.
  { revert win Hinv Edev. intros win Hinv _. revert win Hinv.
    change (keeps (Wnd.jobs_ok str_lower)
                  (Wnd.show_log (Wnd.Text "选定一个串口，然后烧录固件"))).
    unfold Wnd.show_log. jobs_step. }
  assert (Hdev : Wnd.com_box win <> "").
  { intros E. rewrite E in Edev. discriminate. }
  set (device := Wnd.com_box win) in *.
  assert (Hrest : forall firmware,
             keeps (Wnd.jobs_ok str_lower)
                   (st_bind (Wnd.object firmware)
                            (fun d =>
                               st_bind (Wnd.print (Wnd.PrintedObject d))
                                       (fun _ =>
                                          Wnd.print
                                            (Wnd.PrintedType
                                               match d with
                                               | Some _ => "dict"
                                               | None => "NoneType"
                                               end))))).
  { intros firmware. unfold Wnd.print. repeat jobs_step. }
  unfold st_bind at 1. unfold Wnd.itemData_current.
  destruct (Wnd.firm_index win) as [i|].
  2:{ unfold Wnd.download_firmware, Wnd.getitem, st_bind, st_raise. exact Hinv. }
  destruct (nth_error (Wnd.firm_box win) i) as [[title d]|].
  2:{ unfold Wnd.download_firmware, Wnd.getitem, st_bind, st_raise. exact Hinv. }
  set (r := length (Wnd.heap win)).
  set (win1 := Wnd.set_heap (Wnd.heap win ++ [d]) win).
  assert (Hnth : nth_error (Wnd.heap win1) r = Some d).
  { unfold win1, r. simpl. rewrite nth_error_app2, Nat.sub_diag; auto. }
  assert (Hinv1 : (Wnd.jobs_ok str_lower) win1).
  { destruct Hinv as [Hsent Hpend]. split; [exact Hsent|].
    unfold Wnd.pending_ok. simpl.
    eapply Forall_impl; [|exact Hpend]. intros p. apply holds_port_grow. }
  clearbody win1. clear Hinv.
  unfold st_bind at 1. unfold Wnd.download_firmware.
  unfold st_bind at 1. unfold Wnd.getitem. unfold st_bind at 1.
  unfold Wnd.deref at 1. rewrite Hnth.
  destruct (Wnd.dict_get "download" d) as [[url| |]|];
    try (simpl; exact Hinv1).
  unfold st_ret at 1. unfold st_modify at 1.
  set (win2 := Wnd.set_downloads (Wnd.downloads win1 ++ [(url, Some r)]) win1).
  unfold st_bind at 1. unfold Wnd.setitem. unfold st_bind at 1.
  unfold Wnd.deref at 1.
  replace (nth_error (Wnd.heap win2) r) with (Some d) by (symmetry; exact Hnth).
  unfold st_modify at 1.
  apply Hrest.
  destruct Hinv1 as [Hsent Hpend]. split; [exact Hsent|].
  unfold Wnd.pending_ok. simpl. apply Forall_app. split.
  - eapply Forall_impl; [|exact Hpend]. intros p. apply holds_port_update.
    intros d0 _. apply names_port_set_port, Hdev.
  - constructor; [|constructor]. simpl.
    exists (Wnd.dict_set "port" (Wnd.Str device) d). split.
    + rewrite nth_error_update_nth, Nat.eqb_refl, Hnth. reflexivity.
    + apply names_port_set_port, Hdev.
Qed.

(** The callback of a download sends the job only after the comparison
    of the digests, and sends the dictionary that [go_flash] completed. *)
Lemma jobs_ok_download_firmware_completed cb err data win :
  (Wnd.jobs_ok str_lower) win -> Wnd.holds_port (Wnd.heap win) cb ->
  (Wnd.jobs_ok str_lower) (snd (Wnd.download_firmware_completed str_lower cb err data win)).
Proof.
  intros Hinv Hcb. unfold Wnd.download_firmware_completed.
  destruct err.
  { revert win Hinv Hcb. intros win Hinv _. revert win Hinv.
    change (keeps (Wnd.jobs_ok str_lower) (Wnd.print Wnd.ErrorDots)).
    unfold Wnd.print. jobs_step. }
  destruct cb as [r|]; [|exact Hinv].
  destruct Hcb as (d & Hnth & Hport).
  unfold st_bind at 1. unfold Wnd.getitem at 1. unfold st_bind at 1.
  unfold Wnd.deref at 1. rewrite Hnth.
  destruct (Wnd.dict_get "checksum" d) as [checksum|] eqn:Hsum;
    [|exact Hinv].
  unfold st_ret at 1.
  unfold st_bind at 1. unfold Wnd.print at 1. unfold st_modify at 1.
  unfold st_bind at 1. unfold Wnd.print at 1. unfold st_modify at 1.
  set (win1 := Wnd.set_stdout _ (Wnd.set_stdout _ win)).
  assert (Hinv1 : (Wnd.jobs_ok str_lower) win1).
  { destruct Hinv as [Hsent Hpend]. split; simpl; assumption. }
  assert (Hnth1 : nth_error (Wnd.heap win1) r = Some d) by exact Hnth.
  clearbody win1. clear Hinv Hnth win.
  unfold st_bind at 1. unfold Wnd.getitem at 1. unfold st_bind at 1.
  unfold Wnd.deref at 1. rewrite Hnth1, Hsum. unfold st_ret at 1.
  destruct checksum as [s| |]; try exact Hinv1.
  unfold st_bind at 1. unfold st_ret at 1.
  destruct (String.eqb (str_lower s) (str_lower (md5_hexdigest data))) eqn:Heq.
  2:{ revert win1 Hinv1 Hnth1. intros win1 Hinv1 _. revert win1 Hinv1.
      change (keeps (Wnd.jobs_ok str_lower) (Wnd.show_log (Wnd.Text "checksum error!"))).
      unfold Wnd.show_log. jobs_step. }
  apply String.eqb_eq in Heq.
  change (negb true) with false. cbv iota.
  unfold st_bind at 1. unfold Wnd.print at 1. unfold st_modify at 1.
  unfold st_bind at 1. unfold Wnd.setitem. unfold st_bind at 1.
  unfold Wnd.deref at 1.
  match goal with
  | |- context [nth_error (Wnd.heap ?w) r] =>
      replace (nth_error (Wnd.heap w) r) with (Some d) by (symmetry; exact Hnth1)
  end.
  unfold st_modify at 1.
  unfold st_bind at 1. unfold Wnd.show_log at 1. unfold st_modify at 1.
  unfold st_bind at 1. unfold Wnd.object. unfold st_bind at 1.
  unfold Wnd.deref at 1.
  set (job := Wnd.dict_set "body" (Wnd.Raw data) d).
  match goal with
  | |- context [nth_error (Wnd.heap ?w) r] =>
      replace (nth_error (Wnd.heap w) r) with (Some job)
  end.
  2:{ simpl. rewrite nth_error_update_nth, Nat.eqb_refl, Hnth1. reflexivity. }
  unfold st_ret at 1.
  apply jobs_ok_emit.
  - destruct Hport as (device & Hget & Hne).
    exists device, data, s. unfold job.
    rewrite dict_get_set_same.
    rewrite !dict_get_set_other by discriminate.
    auto.
  - destruct Hinv1 as [Hsent Hpend]. split; [exact Hsent|].
    unfold Wnd.pending_ok. simpl.
    eapply Forall_impl; [|exact Hpend]. intros p. apply holds_port_update.
    intros d0. apply names_port_set_body.
Qed.

Lemma jobs_ok_handle ev : keeps (Wnd.jobs_ok str_lower) (Wnd.handle str_lower ev).
Proof.
  destruct ev as [| | device | ports | i | err rsp_obj | k err data | s].
  - unfold Wnd.handle, Wnd.start_btn_clicked, Wnd.action_state, Wnd.go_abort,
      Wnd.show_log.
    jobs_step; [jobs_step|].
    jobs_step.
    { jobs_step; [apply jobs_ok_change_btn_to_abort | intros; apply jobs_ok_go_flash]. }
    jobs_step; [jobs_step|]. jobs_step; [|jobs_step].
    jobs_step; [apply jobs_ok_change_btn_to_flash|].
    jobs_step; [jobs_step | apply jobs_ok_emit; exact I].
  - unfold Wnd.handle, Wnd.start_erase_clicked, Wnd.show_log.
    jobs_step; [jobs_step|]. jobs_step; [jobs_step|].
    jobs_step; [apply jobs_ok_emit; exact I | jobs_step].
  - unfold_slots. repeat jobs_step.
  - unfold_slots. repeat jobs_step.
  - unfold_slots. apply keeps_st_modify. intros w H.
    destruct (Nat.ltb _ _); [jobs_fin | exact H].
  - unfold Wnd.handle, Wnd.rom_load_completed, Wnd.print.
    jobs_step; [jobs_step | apply jobs_ok_add_firmwares].
  - intros win Hinv. unfold Wnd.handle, st_bind at 1, st_get.
    destruct (nth_error (Wnd.downloads win) k) as [[url cb]|] eqn:Hk;
      [|exact Hinv].
    unfold st_bind, st_modify.
    assert (Hcb : Wnd.holds_port (Wnd.heap win) cb).
    { destruct Hinv as [_ Hpend]. unfold Wnd.pending_ok in Hpend.
      rewrite Forall_forall in Hpend.
      apply (Hpend (url, cb)). eapply nth_error_In, Hk. }
    apply jobs_ok_download_firmware_completed; [|exact Hcb].
    destruct Hinv as [Hsent Hpend]. split; [exact Hsent|].
    unfold Wnd.pending_ok, Wnd.remove_nth in *. simpl.
    rewrite Forall_forall in *. intros p Hin. apply Hpend.
    apply in_app_or in Hin. destruct Hin as [Hin|Hin].
    + rewrite <- (firstn_skipn k (Wnd.downloads win)).
      apply in_or_app. left. exact Hin.
    + rewrite <- (firstn_skipn (S k) (Wnd.downloads win)).
      apply in_or_app. right. exact Hin.
  - destruct s as [[written total|code desc|content]| |res].
    + unfold_slots. repeat jobs_step.
    + unfold Wnd.handle, Wnd.deliver, Wnd.flash_result, Wnd.show_log, Wnd.print.
      jobs_step; [jobs_step|]. jobs_step; [repeat jobs_step|].
      jobs_step; [repeat jobs_step|]. apply jobs_ok_change_btn_to_flash.
    + unfold_slots. repeat jobs_step.
    + unfold_slots. repeat jobs_step.
    + unfold Wnd.handle, Wnd.deliver, Wnd.sync_slot, Wnd.show_log, Wnd.print.
      jobs_step; [jobs_step|]. jobs_step; [repeat jobs_step|].
      jobs_step; [|jobs_step].
      jobs_step; [jobs_step | apply jobs_ok_change_btn_to_flash].
Qed.

(** X19. Every job the window hands to the worker has been checked: in
    a window that starts with nothing sent and no download awaited,
    whatever the events, each [begin_flash_sig] carries a dictionary
    that names a port, which is not empty, and a body whose digest is
    the checksum of its catalogue entry up to letter case.  The port is
    there although [go_flash] writes it after having handed the
    dictionary to the callback of the download. *)
Theorem jobs_sent_are_checked (events : list Wnd.event)
        (win : Wnd.FlashMainWnd) :
  Wnd.sent win = [] ->
  Wnd.downloads win = [] ->
  Forall (Wnd.checked_job str_lower)
         (Wnd.sent (snd (Wnd.run str_lower events win))).
Proof.
  intros Hsent Hdown.
  assert (Hinv : (Wnd.jobs_ok str_lower) win).
  { split; [rewrite Hsent; constructor|].
    unfold Wnd.pending_ok. rewrite Hdown. constructor. }
  assert (H : keeps (Wnd.jobs_ok str_lower) (Wnd.run str_lower events)).
  { induction events as [|ev rest IH]; simpl; [apply keeps_st_ret|].
    apply keeps_st_bind; [apply jobs_ok_handle | intros _; exact IH]. }
  apply (H win Hinv).
Qed.

End Jobs.

Section LostAbort.

Context {lib : Library}.
Variable str_lower : string -> string.

(** The callback of a download whose digest matches. *)
Lemma download_firmware_completed_run (win : Wnd.FlashMainWnd) (r : nat)
      (d : Wnd.dict) (checksum : string) (data : bytes) :
  nth_error (Wnd.heap win) r = Some d ->
  Wnd.dict_get "checksum" d = Some (Wnd.Str checksum) ->
  str_lower checksum = str_lower (md5_hexdigest data) ->
  exists win',
    Wnd.download_firmware_completed str_lower (Some r) false data win
    = (Return tt, win') /\
    Wnd.sent win'
    = Wnd.sent win
      ++ [Wnd.begin_flash_sig (Wnd.dict_set "body" (Wnd.Raw data) d)] /\
    Wnd.btn_state win' = Wnd.btn_state win /\
    Wnd.gobtn win' = Wnd.gobtn win.
Proof.
  intros Hr Hsum Heq. apply String.eqb_eq in Heq.
  destruct win; cbn [Wnd.heap] in Hr.
  unfold Wnd.download_firmware_completed, Wnd.getitem, Wnd.setitem, Wnd.object,
    Wnd.deref, Wnd.print, Wnd.show_log, Wnd.emit, st_bind, st_modify, st_ret.
  repeat (cbn [negb option_map Wnd.heap Wnd.set_stdout Wnd.set_heap
                Wnd.set_textOut Wnd.set_sent Wnd.stdout Wnd.textOut Wnd.sent];
          first [rewrite Hr | rewrite Hsum | rewrite Heq
                | rewrite nth_error_update_nth, Nat.eqb_refl]).
  cbn [negb option_map Wnd.heap Wnd.set_stdout Wnd.set_heap
       Wnd.set_textOut Wnd.set_sent Wnd.stdout Wnd.textOut Wnd.sent].
  eexists. split; [reflexivity|]. repeat split; reflexivity.
Qed.

(** X23. A click on "终止" while the firmware is still being downloaded
    does not stop the job.  The click sends [abort_flash_sig] and turns
    the button back to "开始"; when the reply arrives and the digest
    matches, [begin_flash_sig] is sent all the same, after the abort
    request, with the body added to the dictionary. *)
Theorem abort_during_download_is_lost (win : Wnd.FlashMainWnd) (k r : nat)
        (url : string) (d : Wnd.dict) (checksum : string) (data : bytes) :
  Wnd.btn_state win = "ABORT" ->
  nth_error (Wnd.downloads win) k = Some (url, Some r) ->
  nth_error (Wnd.heap win) r = Some d ->
  Wnd.dict_get "checksum" d = Some (Wnd.Str checksum) ->
  str_lower checksum = str_lower (md5_hexdigest data) ->
  let after :=
    Wnd.run str_lower [Wnd.StartClicked; Wnd.DownloadReply k false data] win in
  fst after = Return tt /\
  Wnd.sent (snd after)
  = Wnd.sent win
    ++ [Wnd.abort_flash_sig;
        Wnd.begin_flash_sig (Wnd.dict_set "body" (Wnd.Raw data) d)] /\
  Wnd.btn_state (snd after) = "FLASH" /\
  Wnd.gobtn (snd after) = "开始".
Proof.
  intros Hstate Hk Hr Hsum Heq after. subst after.
  set (win1 := Wnd.set_sent (Wnd.sent win ++ [Wnd.abort_flash_sig])
                 (Wnd.set_textOut (Wnd.textOut win ++ [Wnd.Text "准备终止烧录过程"])
                    (Wnd.set_written 0
                       (Wnd.set_gobtn "开始" (Wnd.set_btn_state "FLASH" win))))).
  assert (E1 : Wnd.handle str_lower Wnd.StartClicked win = (Return tt, win1)).
  { unfold Wnd.handle, Wnd.start_btn_clicked, Wnd.action_state, st_bind at 1,
      st_get.
    rewrite Hstate. change (String.eqb "ABORT" "FLASH") with false. cbv iota.
    unfold st_bind at 1. rewrite Hstate. reflexivity. }
  set (win2 := Wnd.set_downloads (Wnd.remove_nth k (Wnd.downloads win1)) win1).
  destruct (download_firmware_completed_run win2 r d checksum data Hr Hsum Heq)
    as (win3 & E3 & Hsent & Hstate3 & Hlabel3).
  assert (E2 : Wnd.handle str_lower (Wnd.DownloadReply k false data) win1
               = (Return tt, win3)).
  { unfold Wnd.handle, st_bind at 1, st_get.
    change (Wnd.downloads win1) with (Wnd.downloads win). rewrite Hk.
    unfold st_bind at 1, st_modify at 1. exact E3. }
  assert (Erun : Wnd.run str_lower
                         [Wnd.StartClicked; Wnd.DownloadReply k false data] win
                 = (Return tt, win3)).
  { change (Wnd.run str_lower [Wnd.StartClicked; Wnd.DownloadReply k false data]
                    win)
      with (st_bind (Wnd.handle str_lower Wnd.StartClicked)
                    (fun _ => st_bind (Wnd.handle str_lower
                                                  (Wnd.DownloadReply k false data))
                                      (fun _ => st_ret tt)) win).
    unfold st_bind at 1. rewrite E1. unfold st_bind at 1. rewrite E2.
    reflexivity. }
  rewrite Erun. cbn [fst snd].
  split; [reflexivity|].
  split; [|split; [rewrite Hstate3 | rewrite Hlabel3]; reflexivity].
  rewrite Hsent. simpl. rewrite <- app_assoc. reflexivity.
Qed.

End LostAbort.

(** ** A job as the window shows it *)

Lemma job_signals_app d1 d2 :
  job_signals (d1 ++ d2) = job_signals d1 ++ job_signals d2.
Proof.
  unfold job_signals, signals. rewrite flat_map_app, map_app. reflexivity.
Qed.

Lemma deliver_all_app l1 l2 win :
  fst (Wnd.deliver_all l1 win) = Return tt ->
  Wnd.deliver_all (l1 ++ l2) win
  = Wnd.deliver_all l2 (snd (Wnd.deliver_all l1 win)).
Proof.
  revert win. induction l1 as [|s l1 IH]; intros win Hret; [reflexivity|].
  simpl in *. unfold st_bind in *.
  destruct (Wnd.deliver s win) as [[u|e|] win1]; simpl in Hret;
    [apply IH, Hret | discriminate | discriminate].
Qed.

(** No slot is left by an exception while the window handles signals
    whose progress totals are positive. *)
Lemma deliver_positive d win :
  Forall positive_total d ->
  fst (Wnd.deliver_all (job_signals d) win) = Return tt.
Proof.
  intros Hd. revert win. induction Hd as [|a d Ha Hd IH]; intros win;
    [reflexivity|].
  destruct a as [[written total|code desc|content]|c|l];
    try (apply IH);
    change (job_signals (Emit ?s :: d)) with (FromJob s :: job_signals d);
    simpl Wnd.deliver_all; unfold st_bind.
  - simpl in Ha. unfold Wnd.deliver, Wnd.flash_progress, st_bind, Wnd.print,
      st_modify.
    destruct (Nat.eqb total 0) eqn:E; [apply Nat.eqb_eq in E; lia|].
    apply IH.
  - unfold Wnd.deliver, Wnd.flash_result, Wnd.change_btn_to_flash, Wnd.show_log,
      Wnd.print, st_bind, st_modify, st_ret.
    destruct (code =? 1)%Z, (code =? 0)%Z; apply IH.
Qed.

Lemma flash_result_run code desc win :
  exists win',
    Wnd.flash_result code desc win = (Return tt, win') /\
    Wnd.btn_state win' = "FLASH" /\ Wnd.gobtn win' = "开始".
Proof.
  unfold Wnd.flash_result, Wnd.change_btn_to_flash, Wnd.show_log, Wnd.print,
    st_bind, st_modify, st_ret.
  destruct (code =? 1)%Z, (code =? 0)%Z; eexists; repeat split; reflexivity.
Qed.

Section Shown.

Context {lib : Library} {env : Environment}.



End Shown.

(** ** Instances of the further facts *)

Lemma blocks_cover_image_witness :
  exists d,
    trace (snd (write_blocks (env := demo_device 4 "1MB" "" None)
                             (mkESPLoader 4 true) (plain_args [])
                             0 3 10 (body ten_bytes) 0 0 fresh))
    = trace fresh ++ d /\
    concat (map fst (block_calls d))
    = body ten_bytes
      ++ repeat xff (counted (mkESPLoader 4 true) (plain_args []) (body ten_bytes)
                     - length (body ten_bytes)) /\
    map snd (block_calls d) = List.seq 0 (length (block_calls d)) /\
    length (progress d) = length (block_calls d).
Proof.
  eapply (blocks_cover_image
            (env := demo_device 4 "1MB" "" None)
            (mkESPLoader 4 true) (plain_args [])
            0 3 10 (body ten_bytes) 0 0 fresh 12).
  vm_compute. reflexivity.
Defined.

Lemma stale_cancellation_witness :
  _is_abort (snd (begin_flash (lib := demo_library)
                              (env := demo_device 4 "1MB" "" None)
                              ten_bytes (mkWorld true [] 0)))
  = false.
Proof.
  apply (stale_cancellation_is_forgotten
           (lib := demo_library) (env := demo_device 4 "1MB" "" None)).
  intros k _. reflexivity.
Defined.

Lemma uncancelled_job_witness :
  exists pre,
    results pre = [] /\
    (trace (snd (begin_flash (lib := demo_library)
                             (env := honest_device 4 "1MB" (pad_to (body ten_bytes) 4))
                             ten_bytes fresh))
     = trace fresh ++ pre
       ++ [Emit (console_sig
                   "串口读写失败，请检查是否有其他程序占用了指定串口");
           Emit (flash_result_sig 1 "串口读写失败")]
     \/
     trace (snd (begin_flash (lib := demo_library)
                             (env := honest_device 4 "1MB" (pad_to (body ten_bytes) 4))
                             ten_bytes fresh))
     = trace fresh ++ pre
       ++ leave_trace (mkESPLoader 4 true) (resolve_compress (job_args ten_bytes))
       ++ success_tail).
Proof.
  apply (uncancelled_job_reports_once
           (lib := demo_library)
           (env := honest_device 4 "1MB" (pad_to (body ten_bytes) 4))
           ten_bytes fresh).
  - vm_compute. reflexivity.
  - vm_compute. reflexivity.
Defined.

Lemma cancelled_job_skips_witness :
  exists d,
    trace (snd (begin_flash (lib := demo_library)
                            (env := demo_device 4 "1MB" "" (Some 1))
                            ten_bytes fresh))
    = trace fresh ++ d /\
    Forall no_closing_call d.
Proof.
  eapply (cancelled_job_skips_verification
            (lib := demo_library) (env := demo_device 4 "1MB" "" (Some 1))
            ten_bytes fresh (Return tt)).
  - vm_compute. reflexivity.
  - vm_compute. reflexivity.
Defined.

Lemma connect_failure_witness :
  exists d,
    begin_flash (lib := demo_library) (env := silent_chip) ten_bytes fresh
    = (Raise (FatalError "Failed to connect to Espressif device"),
       mkWorld false (trace fresh ++ d) (pumps fresh)) /\
    signals d = [] /\
    ~ In close_serial (calls d).
Proof.
  apply (connect_failure_unreported (lib := demo_library) (env := silent_chip)).
  - reflexivity.
  - left. reflexivity.
Defined.

Lemma erase_button_stays_disabled_witness :
  Wnd.erasebtn
    (snd (Wnd.run (lib := demo_library) (fun s => s)
                  [Wnd.EraseClicked;
                   Wnd.Signal (FromJob (flash_result_sig 1 "串口读写失败"));
                   Wnd.StartClicked]
                  (Wnd.set_erasebtn false demo_window)))
  = false.
Proof.
  apply (erase_button_stays_disabled (lib := demo_library)).
  - reflexivity.
  - simpl. intros [H|[H|[H|[]]]]; discriminate H.
Defined.

Lemma erase_button_witness :
  Wnd.erasebtn
    (snd (Wnd.deliver_all
            (erase_signals
               (since [] (snd (erase_flash willing_eraser "COM3" []))))
            (snd (Wnd.start_erase_clicked demo_window))))
  = true.
Proof.
  apply (proj2 (proj2 (proj2
           (erase_button_needs_completion willing_eraser demo_window []
              ltac:(discriminate))))).
  reflexivity.
Defined.

Lemma failed_erase_witness :
  Wnd.textOut
    (snd (Wnd.deliver_all
            (erase_signals
               (since [] (snd (erase_flash busy_eraser "COM3" []))))
            demo_window))
  = Wnd.textOut demo_window
    ++ [Wnd.Text "串口读写失败，请检查是否有其他程序占用了指定串口";
        Wnd.FlashFailed "串口读写失败"].
Proof.
  apply (proj1 (proj2
           (failed_erase_shown_as_failed_flash busy_eraser demo_window "COM3" []
              eq_refl
              ltac:(simpl; intros [H|[H|[H|[]]]]; discriminate H)))).
Defined.

Lemma click_without_port_witness :
  Wnd.sent (snd (Wnd.start_btn_clicked
                   (snd (Wnd.start_btn_clicked
                           (Wnd.set_com_box "" demo_window)))))
  = Wnd.sent (Wnd.set_com_box "" demo_window) ++ [Wnd.abort_flash_sig].
Proof.
  apply (click_without_port (Wnd.set_com_box "" demo_window) eq_refl eq_refl).
Defined.

Lemma jobs_sent_are_checked_witness :
  Forall (Wnd.checked_job (lib := demo_library) (fun s => s))
         (Wnd.sent
            (snd (Wnd.run (lib := demo_library) (fun s => s)
                          [Wnd.CatalogueReply false demo_catalogue;
                           Wnd.StartClicked;
                           Wnd.DownloadReply 0 false [x61]]
                          demo_window))).
Proof.
  apply (jobs_sent_are_checked (lib := demo_library)); reflexivity.
Defined.



Lemma click_without_firmware_witness :
  fst (Wnd.start_btn_clicked demo_window) = Raise Wnd.TypeError /\
  Wnd.btn_state (snd (Wnd.start_btn_clicked demo_window)) = "ABORT".
Proof.
  pose proof (click_without_firmware demo_window eq_refl
                ltac:(discriminate) eq_refl) as H.
  split; [exact (proj1 H) | exact (proj1 (proj2 H))].
Defined.

Lemma abort_during_download_witness :
  let after :=
    Wnd.run (lib := demo_library) (fun s => s)
            [Wnd.StartClicked; Wnd.DownloadReply 0 false [x61]]
            downloading_window in
  fst after = Return tt /\
  length (Wnd.sent (snd after)) = 2 /\
  Wnd.btn_state (snd after) = "FLASH".
Proof.
  pose proof (abort_during_download_is_lost
                (lib := demo_library) (fun s => s) downloading_window 0 0
                _ _ "a" [x61] eq_refl eq_refl eq_refl eq_refl eq_refl) as H.
  cbv zeta in H. destruct H as (H1 & H2 & H3 & _).
  split; [exact H1|]. split; [rewrite H2; reflexivity | exact H3].
Defined.
